(** * student-collab-hub: the REST handlers over an explicit document store

    A shallow embedding of the route handlers of [server/routes/users.js],
    [server/routes/posts.js] and [server/routes/comments.js].  The three
    MongoDB collections are finite maps from identifiers to records, every
    handler is a function from the store (and the request) to the new store and
    the response, and the Mongoose update operators the handlers use ([$push],
    [$pull], [find]/[sort]/[skip]/[limit], [deleteMany], ...) are list and map
    functions.  A handler's [await]ed calls run one after the other and no other
    request interleaves: the store is threaded through them in source order. *)

From Stdlib Require Import ZArith Ascii.
From stdpp Require Import gmap strings list fin_maps sorting.

Local Open Scope string_scope.
Local Open Scope Z_scope.

(** An [ObjectId] is a 12-byte value, read as a number below [2^96];
    [toString()] is injective on it, so the handlers' comparisons of two
    [toString()]s are comparisons of identifiers.  A path parameter a handler
    only hands to Mongoose ([findById], a query, an update) is given as the
    identifier it casts to; a path parameter a handler also compares as text
    is given as the text. *)
Abbreviation ObjectId := N (only parsing).

Module ObjectId.

(** An identifier that fits twelve bytes. *)
Definition valid (i : N) : Prop := (i < 2 ^ 96)%N.

(** One hexadecimal digit, in lower case. *)
Definition digit (d : N) : ascii :=
  ascii_of_N (if decide (d < 10)%N then 48 + d else 87 + d)%N.

(** The last [k] hexadecimal digits of [n], written in front of [rest]. *)
Fixpoint digits (k : nat) (n : N) (rest : string) : string :=
  match k with
  | O => rest
  | S k' => digits k' (n / 16)%N (String (digit (n mod 16)%N) rest)
  end.

(** How many digits [toString] writes: 24 for twelve bytes.  A number that
    does not fit twelve bytes is no [ObjectId]; it is written with all its
    digits, so that [toString] is injective on every number. *)
Definition width (i : N) : nat := Nat.max 24 (N.to_nat (N.log2 i / 4 + 1)).

(** [ObjectId.prototype.toString()]: the bytes in hexadecimal, lower case. *)
Definition toString (i : N) : string := digits (width i) i EmptyString.

(** The value of a hexadecimal digit, written in either case. *)
Definition digit_value (c : ascii) : option N :=
  let n := N_of_ascii c in
  if decide (48 ≤ n ≤ 57)%N then Some (n - 48)%N
  else if decide (97 ≤ n ≤ 102)%N then Some (n - 87)%N
  else if decide (65 ≤ n ≤ 70)%N then Some (n - 55)%N
  else None.

(** The number a text of hexadecimal digits writes, after the digits [acc]. *)
Fixpoint value (s : string) (acc : N) : option N :=
  match s with
  | EmptyString => Some acc
  | String c s' =>
    match digit_value c with
    | Some d => value s' (16 * acc + d)%N
    | None => None
    end
  end.

(** The cast Mongoose applies to a text where the schema asks for an
    [ObjectId] (the [_id] of [findById], a queried reference, the value of a
    [$push] or [$pull]): a text of 24 hexadecimal digits, in either case, is
    the identifier it writes; any other text is a [CastError], as with the
    current BSON library (older ones also took a text of twelve characters
    for the twelve bytes). *)
Definition cast (s : string) : option N :=
  if decide (String.length s = 24%nat) then value s 0 else None.

End ObjectId.

(** ** JavaScript numbers *)

Module Js.

(** The double nearest to the natural number [x], ties to the even
    significand: every natural number up to [2^53] is a double, larger ones
    are rounded to 53 significant bits. *)
Definition nearest_double (x : N) : N :=
  let e := N.log2 x in
  if decide (e ≤ 52)%N then x
  else
    let ulp := (2 ^ (e - 52))%N in
    let q := (x / ulp)%N in
    let r := (x mod ulp)%N in
    if decide (2 * r < ulp)%N then (q * ulp)%N
    else if decide (ulp < 2 * r)%N then ((q + 1) * ulp)%N
    else if N.even q then (q * ulp)%N else ((q + 1) * ulp)%N.

(** [x += 1] on a number that holds the natural number [x]. *)
Definition add_one (x : N) : N := nearest_double (x + 1).

End Js.

(** ** Documents *)

Module User.
(** Modelled from the spec: the User schema ([server/models/User.js] is not
    part of the sources); the fields are those the data model lists and the
    user routes read or write. *)
Record t := mk {
  username : string;
  email : string;
  fullName : string;
  bio : string;
  avatar : string;
  university : string;
  major : string;
  followers : list ObjectId;
  following : list ObjectId;
  createdAt : N
}.

Definition with_followers (f : list ObjectId → list ObjectId) (u : t) : t :=
  mk (username u) (email u) (fullName u) (bio u) (avatar u) (university u)
     (major u) (f (followers u)) (following u) (createdAt u).

Definition with_following (f : list ObjectId → list ObjectId) (u : t) : t :=
  mk (username u) (email u) (fullName u) (bio u) (avatar u) (university u)
     (major u) (followers u) (f (following u)) (createdAt u).
End User.

Module Post.
(** [postSchema]: the fields the post routes read or write.  [views] is a
    JavaScript number that starts at the default 0 and is only ever changed
    by [+= 1], so it holds a natural number. *)
Record t := mk {
  author : ObjectId;
  type : string;
  title : string;
  content : string;
  category : string;
  tags : list string;
  likes : list ObjectId;
  comments : list ObjectId;
  views : N;
  isPublic : bool;
  createdAt : N
}.

Definition with_likes (f : list ObjectId → list ObjectId) (p : t) : t :=
  mk (author p) (type p) (title p) (content p) (category p) (tags p)
     (f (likes p)) (comments p) (views p) (isPublic p) (createdAt p).

Definition with_comments (f : list ObjectId → list ObjectId) (p : t) : t :=
  mk (author p) (type p) (title p) (content p) (category p) (tags p)
     (likes p) (f (comments p)) (views p) (isPublic p) (createdAt p).

Definition with_views (f : N → N) (p : t) : t :=
  mk (author p) (type p) (title p) (content p) (category p) (tags p)
     (likes p) (comments p) (f (views p)) (isPublic p) (createdAt p).

(** The virtuals [likeCount] and [commentCount] of [postSchema]. *)
Definition likeCount (p : t) : nat := length (likes p).
Definition commentCount (p : t) : nat := length (comments p).
End Post.

Module Comment.
(** Modelled from the spec: the Comment schema ([server/models/Comment.js] is
    not part of the sources); the fields are those the data model lists and
    the comment routes read or write. *)
Record t := mk {
  author : ObjectId;
  post : ObjectId;
  parentComment : option ObjectId;
  content : string;
  replies : list ObjectId;
  likes : list ObjectId;
  createdAt : N
}.

Definition with_replies (f : list ObjectId → list ObjectId) (c : t) : t :=
  mk (author c) (post c) (parentComment c) (content c) (f (replies c))
     (likes c) (createdAt c).

Definition with_likes (f : list ObjectId → list ObjectId) (c : t) : t :=
  mk (author c) (post c) (parentComment c) (content c) (replies c)
     (f (likes c)) (createdAt c).

Definition with_content (s : string) (c : t) : t :=
  mk (author c) (post c) (parentComment c) s (replies c) (likes c)
     (createdAt c).
End Comment.

(** ** The store: three collections keyed by identifier *)

Record DB := mkDB {
  users : gmap N User.t;
  posts : gmap N Post.t;
  comments : gmap N Comment.t
}.

Definition set_users (f : gmap N User.t → gmap N User.t) (db : DB) : DB :=
  mkDB (f (users db)) (posts db) (comments db).

Definition set_posts (f : gmap N Post.t → gmap N Post.t) (db : DB) : DB :=
  mkDB (users db) (f (posts db)) (comments db).

Definition set_comments (f : gmap N Comment.t → gmap N Comment.t) (db : DB) : DB :=
  mkDB (users db) (posts db) (f (comments db)).

(** ** The Mongoose operations the handlers call *)

Module Mongo.

(** [$push]: append at the end of the array. *)
Definition push (x : ObjectId) (l : list ObjectId) : list ObjectId := l ++ [x].

(** [$pull]: remove every occurrence. *)
Definition pull (x : ObjectId) (l : list ObjectId) : list ObjectId :=
  filter (λ y, y ≠ x) l.

(** [array.includes(id)]. *)
Definition includes (x : ObjectId) (l : list ObjectId) : bool :=
  bool_decide (x ∈ l).

(** [array.includes(text)] on an array of identifiers: Mongoose compares the
    text with each element by [==], which turns the element into its
    [toString()]. *)
Definition includes_text (t : string) (l : list ObjectId) : bool :=
  bool_decide (t ∈ ObjectId.toString <$> l).

(** [Model.findByIdAndUpdate(id, update)]: nothing happens when no document
    has that identifier. *)
Definition findByIdAndUpdate {A} (i : ObjectId) (f : A → A) (coll : gmap N A) : gmap N A :=
  alter f i coll.

(** [Model.findByIdAndDelete(id)]. *)
Definition findByIdAndDelete {A} (i : ObjectId) (coll : gmap N A) : gmap N A :=
  delete i coll.

(** [Model.deleteMany(cond)]: keep the documents that do not match. *)
Definition deleteMany {A} (cond : A → bool) (coll : gmap N A) : gmap N A :=
  filter (λ kv, cond kv.2 = false) coll.

(** [Model.findOne(cond)]: some matching document, if there is one. *)
Definition findOne {A} (cond : A → bool) (coll : gmap N A) : option (N * A) :=
  snd <$> list_find (λ kv, cond kv.2 = true) (map_to_list coll).

(** [Model.find(cond).sort({createdAt: -1})] and [sort({createdAt: 1})]: the
    matching documents, ordered by creation time.  For a fixed collection the
    order is a fixed one. *)
Definition newest_first {A} (key : A → N) (x y : N * A) : Prop :=
  (key y.2 ≤ key x.2)%N.

Definition oldest_first {A} (key : A → N) (x y : N * A) : Prop :=
  (key x.2 ≤ key y.2)%N.

#[global] Instance newest_first_dec {A} (key : A → N) (x y : N * A) :
  Decision (newest_first key x y) := N.le_dec _ _.

#[global] Instance oldest_first_dec {A} (key : A → N) (x y : N * A) :
  Decision (oldest_first key x y) := N.le_dec _ _.

Definition find_desc {A} (key : A → N) (cond : A → bool) (coll : gmap N A) : list (N * A) :=
  merge_sort (newest_first key) (filter (λ kv, cond kv.2 = true) (map_to_list coll)).

Definition find_asc {A} (key : A → N) (cond : A → bool) (coll : gmap N A) : list (N * A) :=
  merge_sort (oldest_first key) (filter (λ kv, cond kv.2 = true) (map_to_list coll)).

(** [Model.countDocuments(cond)]. *)
Definition countDocuments {A} (cond : A → bool) (coll : gmap N A) : Z :=
  Z.of_nat (length (filter (λ kv, cond kv.2 = true) (map_to_list coll))).

(** [.skip(s).limit(n)] on an ordered result.  The server refuses a negative
    skip (the handler's [catch] turns that into a 500); the driver sends a
    negative limit as its absolute value. *)
Definition skip_limit {A} (s n : Z) (l : list A) : option (list A) :=
  if decide (s < 0) then None
  else Some (take (Z.abs_nat n) (drop (Z.to_nat s) l)).

(** [Model.find(cond).sort({createdAt: -1}).limit(n)] for a condition that
    also reads the identifier ([_id: { $ne: ... }]). *)
Definition find_where_desc {A} (key : A → N) (cond : N * A → bool) (coll : gmap N A)
    : list (N * A) :=
  merge_sort (newest_first key) (filter (λ kv, cond kv = true) (map_to_list coll)).

(** [.populate(path, fields)] on an array of references: each identifier is
    replaced by the selected fields of the document it names, in array order;
    an identifier that names no document is dropped. *)
Definition populate {A B} (select : N → A → B) (ids : list ObjectId) (coll : gmap N A) : list B :=
  omap (λ i, select i <$> coll !! i) ids.

End Mongo.

(** ** Requests and responses *)

(** Modelled from the spec: the authentication middleware
    ([server/middleware/auth.js] is not part of the sources).  [auth] resolves
    the token's user in the store and attaches the record as [req.user], or
    rejects; the caller is given by the identifier the token carries. *)
Definition auth (me : ObjectId) (db : DB) : option User.t := users db !! me.

(** [parseInt(req.query.x) || dflt]: the parsed integer, or the default when
    the parameter is absent, not a number, or zero. *)
Definition int_param (raw : option Z) (dflt : Z) : Z :=
  match raw with
  | Some n => if decide (n = 0) then dflt else n
  | None => dflt
  end.

(** [supplied || fallback] on text: an absent or empty string is falsy. *)
Definition str_or (supplied : option string) (fallback : string) : string :=
  match supplied with
  | Some s => if decide (s = "") then fallback else s
  | None => fallback
  end.

(** JavaScript truthiness of an optional string. *)
Definition truthy (supplied : option string) : bool :=
  match supplied with
  | Some s => bool_decide (s ≠ "")
  | None => false
  end.

(** [Math.ceil(total / limit)]. *)
Definition ceil_div (total limit : Z) : Z := - ((- total) / limit).

Record pagination := mkPagination {
  page : Z;
  limit : Z;
  total : Z;
  pages : Z
}.

(** A mutation's response: HTTP status and the [message] field. *)
Record reply := mkReply {
  status : nat;
  message : string
}.

(** A listing's response: the documents of the requested page and the
    [pagination] object. *)
Record listing (A : Type) := mkListing {
  items : list (N * A);
  l_pagination : pagination
}.
Arguments mkListing {A} _ _.
Arguments items {A} _.
Arguments l_pagination {A} _.

(** The tail every listing handler shares: [matched] is the ordered result of
    the [find], cut by [.skip((page - 1) * limit).limit(limit)]; [total] is
    what [countDocuments] returned.  A failing query is the [catch]'s 500. *)
Definition paginate {A} (page limit : Z) (matched : list (N * A)) (total : Z)
    : nat * option (listing A) :=
  match Mongo.skip_limit ((page - 1) * limit) limit matched with
  | None => (500%nat, None)
  | Some docs =>
    (200%nat, Some (mkListing docs (mkPagination page limit total (ceil_div total limit))))
  end.

(** ** routes/users.js *)

Module Users.

(** The body of [PUT /profile]. *)
Record profile_body := mkProfileBody {
  b_fullName : option string;
  b_username : option string;
  b_email : option string;
  b_university : option string;
  b_major : option string;
  b_bio : option string
}.

(** The [updateData] object: six text fields, each the supplied value or,
    when that is falsy, the value on [req.user]; [avatar] only when a file
    came with the request. *)
Record update_doc := mkUpdateDoc {
  d_fullName : string;
  d_username : string;
  d_email : string;
  d_university : string;
  d_major : string;
  d_bio : string;
  d_avatar : option string
}.

Definition updateData (req_user : User.t) (b : profile_body) (file : option string) : update_doc :=
  mkUpdateDoc
    (str_or (b_fullName b) (User.fullName req_user))
    (str_or (b_username b) (User.username req_user))
    (str_or (b_email b) (User.email req_user))
    (str_or (b_university b) (User.university req_user))
    (str_or (b_major b) (User.major req_user))
    (str_or (b_bio b) (User.bio req_user))
    file.

(** Applying the update document to the stored user: the listed fields are
    set, every other field stays. *)
Definition apply_update (d : update_doc) (stored : User.t) : User.t :=
  User.mk (d_username d) (d_email d) (d_fullName d) (d_bio d)
    (default (User.avatar stored) (d_avatar d))
    (d_university d) (d_major d)
    (User.followers stored) (User.following stored) (User.createdAt stored).

(** [router.put('/profile', auth, upload.single('avatar'), ...)]; [req_user]
    is the record the middleware attached. *)
Definition update_profile (me : ObjectId) (req_user : User.t) (b : profile_body)
    (file : option string) (db : DB) : DB * reply :=
  if truthy (b_username b)
     && bool_decide (b_username b ≠ Some (User.username req_user))
     && bool_decide (is_Some (Mongo.findOne
          (λ u, bool_decide (Some (User.username u) = b_username b)) (users db)))
  then (db, mkReply 400 "Username already taken")
  else if truthy (b_email b)
     && bool_decide (b_email b ≠ Some (User.email req_user))
     && bool_decide (is_Some (Mongo.findOne
          (λ u, bool_decide (Some (User.email u) = b_email b)) (users db)))
  then (db, mkReply 400 "Email already taken")
  else
    (set_users (Mongo.findByIdAndUpdate me (apply_update (updateData req_user b file))) db,
     mkReply 200 "Profile updated successfully").

(** [router.post('/:userId/follow', auth, ...)]; [userId] is the text of the
    path parameter.  The self-check compares that text with the caller's
    [toString()]; [findById] and the two updates cast it ([CastError] is the
    [catch]'s 500); [includes] is given the text. *)
Definition follow (me : ObjectId) (userId : string) (db : DB) : DB * reply :=
  if decide (userId = ObjectId.toString me)
  then (db, mkReply 400 "You cannot follow yourself")
  else match ObjectId.cast userId with
  | None => (db, mkReply 500 "Server error")
  | Some target =>
    match users db !! target with
    | None => (db, mkReply 404 "User not found")
    | Some userToFollow =>
      match users db !! me with
      | None => (db, mkReply 500 "Server error")
      | Some currentUser =>
        if Mongo.includes_text userId (User.following currentUser) then
          let db1 := set_users (Mongo.findByIdAndUpdate me
                       (User.with_following (Mongo.pull target))) db in
          let db2 := set_users (Mongo.findByIdAndUpdate target
                       (User.with_followers (Mongo.pull me))) db1 in
          (db2, mkReply 200 "User unfollowed successfully")
        else
          let db1 := set_users (Mongo.findByIdAndUpdate me
                       (User.with_following (Mongo.push target))) db in
          let db2 := set_users (Mongo.findByIdAndUpdate target
                       (User.with_followers (Mongo.push me))) db1 in
          (db2, mkReply 200 "User followed successfully")
      end
    end
  end.

(** [router.delete('/:userId/follow', auth, ...)]. *)
Definition unfollow (me : ObjectId) (userId : string) (db : DB) : DB * reply :=
  if decide (userId = ObjectId.toString me)
  then (db, mkReply 400 "You cannot unfollow yourself")
  else match ObjectId.cast userId with
  | None => (db, mkReply 500 "Server error")
  | Some target =>
    match users db !! target with
    | None => (db, mkReply 404 "User not found")
    | Some userToUnfollow =>
      match users db !! me with
      | None => (db, mkReply 500 "Server error")
      | Some currentUser =>
        if negb (Mongo.includes_text userId (User.following currentUser)) then
          (db, mkReply 400 "Not following this user")
        else
          let db1 := set_users (Mongo.findByIdAndUpdate me
                       (User.with_following (Mongo.pull target))) db in
          let db2 := set_users (Mongo.findByIdAndUpdate target
                       (User.with_followers (Mongo.pull me))) db1 in
          (db2, mkReply 200 "User unfollowed successfully")
      end
    end
  end.

Section Search.
(** The regular-expression engine: [regex pat] is the case-insensitive test
    for the pattern [pat], or [None] when [pat] is not a regular expression
    (the query then fails and the handler answers 500). *)
Variable regex : string → option (string → bool).

(** [router.get('/', optionalAuth, ...)]: the query built from [search],
    [university] and [major]; an empty parameter adds no condition. *)
Definition users_query (search university major : string) : option (User.t → bool) :=
  s ← (if decide (search = "") then Some (λ _, true) else regex search);
  u ← (if decide (university = "") then Some (λ _, true) else regex university);
  m ← (if decide (major = "") then Some (λ _, true) else regex major);
  Some (λ usr : User.t,
    (s (User.username usr) || s (User.fullName usr))
    && u (User.university usr) && m (User.major usr)).

Definition list_users (raw_page raw_limit : option Z) (search university major : string)
    (db : DB) : nat * option (listing User.t) :=
  let page := int_param raw_page 1 in
  let limit := int_param raw_limit 10 in
  match users_query search university major with
  | None => (500%nat, None)
  | Some query =>
    paginate page limit (Mongo.find_desc User.createdAt query (users db))
      (Mongo.countDocuments query (users db))
  end.

(** One entry of [GET /explore]: [user.toObject()] with its [isFollowing]. *)
Record explored := mkExplored {
  e_id : ObjectId;
  e_user : User.t;
  isFollowing : bool
}.

(** The [query] of [router.get('/explore')]: everyone but the caller, and the
    search, when given, on four fields. *)
Definition explore_query (me : ObjectId) (search : string) : option (N * User.t → bool) :=
  s ← (if decide (search = "") then Some (λ _, true) else regex search);
  Some (λ kv : N * User.t,
    bool_decide (kv.1 ≠ me)
    && (s (User.username kv.2) || s (User.fullName kv.2)
        || s (User.university kv.2) || s (User.major kv.2))).

(** [router.get('/explore', auth, ...)]. *)
Definition explore (me : ObjectId) (raw_limit : option Z) (search : string) (db : DB)
    : nat * option (list explored) :=
  let limit := int_param raw_limit 20 in
  match explore_query me search with
  | None => (500%nat, None)
  | Some query =>
    let found := take (Z.abs_nat limit)
                   (Mongo.find_where_desc User.createdAt query (users db)) in
    (200%nat,
     Some ((λ kv : N * User.t,
              mkExplored kv.1 kv.2 (Mongo.includes me (User.followers kv.2))) <$> found))
  end.
End Search.

(** The fields [populate] selects for a follower or a followed user. *)
Record summary := mkSummary {
  s_id : ObjectId;
  s_username : string;
  s_fullName : string;
  s_avatar : string;
  s_bio : string;
  s_university : string;
  s_major : string
}.

Definition summarize (i : ObjectId) (u : User.t) : summary :=
  mkSummary i (User.username u) (User.fullName u) (User.avatar u) (User.bio u)
    (User.university u) (User.major u).

(** [router.get('/:userId/followers', ...)]. *)
Definition get_followers (userId : ObjectId) (db : DB) : nat * option (list summary) :=
  match users db !! userId with
  | None => (404%nat, None)
  | Some user => (200%nat, Some (Mongo.populate summarize (User.followers user) (users db)))
  end.

(** [router.get('/:userId/following', ...)]. *)
Definition get_following (userId : ObjectId) (db : DB) : nat * option (list summary) :=
  match users db !! userId with
  | None => (404%nat, None)
  | Some user => (200%nat, Some (Mongo.populate summarize (User.following user) (users db)))
  end.

(** A follow or unfollow request: who calls, and the text of the [:userId]
    of the path. *)
Inductive request :=
  | Follow (me : ObjectId) (userId : string)
  | Unfollow (me : ObjectId) (userId : string).

Definition handle (r : request) (db : DB) : DB * reply :=
  match r with
  | Follow me userId => follow me userId db
  | Unfollow me userId => unfollow me userId db
  end.

(** The store after a sequence of requests, served one after the other. *)
Fixpoint serve (rs : list request) (db : DB) : DB :=
  match rs with
  | [] => db
  | r :: rs' => serve rs' (handle r db).1
  end.

End Users.

(** ** routes/posts.js *)

Module Posts.

(** The list given to [body('category').isIn(...)] in [router.post('/')]. *)
Definition create_categories : list string :=
  ["academic"; "project"; "research"; "study-guide"; "tutorial"; "internship";
   "part-time"; "full-time"; "freelance"; "research-assistant"; "other"].

(** The list given to [body('category').optional().isIn(...)] in
    [router.put('/:postId')]. *)
Definition update_categories : list string :=
  ["academic"; "project"; "research"; "study-guide"; "tutorial"; "internship";
   "part-time"; "full-time"; "freelance"; "research-assistant"; "other"].

(** The [enum] of [postSchema.category], which [post.save()] and
    [findByIdAndUpdate(..., { runValidators: true })] enforce. *)
Definition schema_categories : list string :=
  ["academic"; "project"; "research"; "internship"; "part-time"; "full-time";
   "freelance"; "other"].

Definition isIn (v : string) (values : list string) : bool :=
  bool_decide (v ∈ values).

(** The create validator on a request whose body carries [category];
    [None] is a body without the field. *)
Definition create_category_valid (category : option string) : bool :=
  match category with
  | Some v => isIn v create_categories
  | None => false
  end.

(** The update validator; [optional()] lets a body without the field pass. *)
Definition update_category_valid (category : option string) : bool :=
  match category with
  | Some v => isIn v update_categories
  | None => true
  end.

Definition schema_category_valid (v : string) : bool := isIn v schema_categories.

(** The response of [GET /:postId]: the status and the [post] of the body. *)
Record post_reply := mkPostReply {
  p_status : nat;
  p_post : option Post.t
}.

(** [router.get('/:postId', optionalAuth, ...)]; [caller] is [req.user], when
    there is one.  The [isLiked] the handler then sets on the document is no
    path of [postSchema], so [res.json] does not send it: the response is the
    same for every caller. *)
Definition get_post (caller : option ObjectId) (postId : ObjectId) (db : DB) : DB * post_reply :=
  match posts db !! postId with
  | None => (db, mkPostReply 404 None)
  | Some post =>
    let post := Post.with_views Js.add_one post in
    let db := set_posts (insert postId post) db in
    (db, mkPostReply 200 (Some post))
  end.

(** The response of a like toggle. *)
Record like_reply := mkLikeReply {
  l_status : nat;
  l_message : string;
  liked : option bool
}.

(** [router.post('/:postId/like', auth, ...)]. *)
Definition like (me : ObjectId) (postId : ObjectId) (db : DB) : DB * like_reply :=
  match posts db !! postId with
  | None => (db, mkLikeReply 404 "Post not found" None)
  | Some post =>
    let isLiked := Mongo.includes me (Post.likes post) in
    if isLiked then
      (set_posts (Mongo.findByIdAndUpdate postId (Post.with_likes (Mongo.pull me))) db,
       mkLikeReply 200 "Post unliked successfully" (Some false))
    else
      (set_posts (Mongo.findByIdAndUpdate postId (Post.with_likes (Mongo.push me))) db,
       mkLikeReply 200 "Post liked successfully" (Some true))
  end.

(** The query string of [GET /]; an empty string is an absent parameter. *)
Record posts_query := mkPostsQuery {
  q_page : option Z;
  q_limit : option Z;
  q_type : string;
  q_category : string;
  q_search : string;
  q_author : option ObjectId
}.

Section Search.
Variable regex : string → option (string → bool).

(** The [query] object of [router.get('/')]: always [isPublic: true], then one
    condition per parameter that is present. *)
Definition list_query (q : posts_query) : option (Post.t → bool) :=
  s ← (if decide (q_search q = "") then Some (λ _, true) else regex (q_search q));
  Some (λ p : Post.t,
    Post.isPublic p
    && (bool_decide (q_type q = "") || bool_decide (Post.type p = q_type q))
    && (bool_decide (q_category q = "") || bool_decide (Post.category p = q_category q))
    && (match q_author q with None => true | Some a => bool_decide (Post.author p = a) end)
    && (bool_decide (q_search q = "")
        || s (Post.title p) || s (Post.content p) || existsb s (Post.tags p))).

(** [router.get('/', optionalAuth, ...)]. *)
Definition list_posts (caller : option ObjectId) (q : posts_query) (db : DB)
    : nat * option (listing Post.t) :=
  let page := int_param (q_page q) 1 in
  let limit := int_param (q_limit q) 10 in
  match list_query q with
  | None => (500%nat, None)
  | Some query =>
    paginate page limit (Mongo.find_desc Post.createdAt query (posts db))
      (Mongo.countDocuments query (posts db))
  end.

(** The [query] of [router.get('/explore')]: public posts, of the type and
    matching the search when given. *)
Definition explore_query (type search : string) : option (Post.t → bool) :=
  s ← (if decide (search = "") then Some (λ _, true) else regex search);
  Some (λ p : Post.t,
    Post.isPublic p
    && (bool_decide (type = "") || bool_decide (Post.type p = type))
    && (bool_decide (search = "")
        || s (Post.title p) || s (Post.content p) || existsb s (Post.tags p))).

(** [router.get('/explore', optionalAuth, ...)]: no [skip], no [pagination]. *)
Definition explore (caller : option ObjectId) (raw_limit : option Z) (type search : string)
    (db : DB) : nat * option (list (N * Post.t)) :=
  let limit := int_param raw_limit 20 in
  match explore_query type search with
  | None => (500%nat, None)
  | Some query =>
    (200%nat,
     Some (take (Z.abs_nat limit) (Mongo.find_desc Post.createdAt query (posts db))))
  end.
End Search.

(** [router.get('/liked', auth, ...)]. *)
Definition liked_query (me : ObjectId) (p : Post.t) : bool :=
  Mongo.includes me (Post.likes p) && Post.isPublic p.

Definition liked_posts (me : ObjectId) (raw_page raw_limit : option Z) (db : DB)
    : nat * option (listing Post.t) :=
  let page := int_param raw_page 1 in
  let limit := int_param raw_limit 10 in
  paginate page limit (Mongo.find_desc Post.createdAt (liked_query me) (posts db))
    (Mongo.countDocuments (liked_query me) (posts db)).

(** The [query] object of [router.get('/user/:userId')]; [userId] is the text
    of the path parameter and [author] the identifier it casts to.  The
    query asks for the author, the type when given, and [isPublic: true]
    unless the text is the caller's [toString()]. *)
Definition user_posts_query (caller : option ObjectId) (userId : string) (author : ObjectId)
    (type : string) (p : Post.t) : bool :=
  bool_decide (Post.author p = author)
  && (bool_decide (type = "") || bool_decide (Post.type p = type))
  && (if bool_decide (caller = None)
         || bool_decide (Some userId ≠ ObjectId.toString <$> caller)
      then Post.isPublic p else true).

(** [router.get('/user/:userId', optionalAuth, ...)]; a text that does not
    cast makes the [find] fail, which is the [catch]'s 500. *)
Definition user_posts (caller : option ObjectId) (userId : string)
    (raw_page raw_limit : option Z) (type : string) (db : DB)
    : nat * option (listing Post.t) :=
  let page := int_param raw_page 1 in
  let limit := int_param raw_limit 10 in
  match ObjectId.cast userId with
  | None => (500%nat, None)
  | Some author =>
    let query := user_posts_query caller userId author type in
    paginate page limit (Mongo.find_desc Post.createdAt query (posts db))
      (Mongo.countDocuments query (posts db))
  end.

(** The condition [{ post: postId, parentComment: null }]. *)
Definition top_level_of (postId : ObjectId) (c : Comment.t) : bool :=
  bool_decide (Comment.post c = postId) && bool_decide (Comment.parentComment c = None).

(** [router.get('/:postId/comments', optionalAuth, ...)]. *)
Definition post_comments (postId : ObjectId) (raw_page raw_limit : option Z) (db : DB)
    : nat * option (listing Comment.t) :=
  let page := int_param raw_page 1 in
  let limit := int_param raw_limit 10 in
  paginate page limit
    (Mongo.find_desc Comment.createdAt (top_level_of postId) (comments db))
    (Mongo.countDocuments (top_level_of postId) (comments db)).

(** The condition [{ parentComment: commentId }]. *)
Definition reply_to (commentId : ObjectId) (c : Comment.t) : bool :=
  bool_decide (Comment.parentComment c = Some commentId).

(** [router.delete('/:postId/comments/:commentId', auth, ...)]: the post whose
    list is pulled from is the one named in the path. *)
Definition delete_comment (me postId commentId : ObjectId) (db : DB) : DB * reply :=
  match comments db !! commentId with
  | None => (db, mkReply 404 "Comment not found")
  | Some comment =>
    if decide (Comment.author comment ≠ me)
    then (db, mkReply 403 "Not authorized to delete this comment")
    else
      let db := set_posts (Mongo.findByIdAndUpdate postId
                  (Post.with_comments (Mongo.pull commentId))) db in
      let db := match Comment.parentComment comment with
                | Some parent =>
                  set_comments (Mongo.findByIdAndUpdate parent
                    (Comment.with_replies (Mongo.pull commentId))) db
                | None => db
                end in
      let db := set_comments (Mongo.deleteMany (reply_to commentId)) db in
      let db := set_comments (Mongo.findByIdAndDelete commentId) db in
      (db, mkReply 200 "Comment deleted successfully")
  end.

(** [router.delete('/:postId', auth, ...)]. *)
Definition delete_post (me postId : ObjectId) (db : DB) : DB * reply :=
  match posts db !! postId with
  | None => (db, mkReply 404 "Post not found")
  | Some post =>
    if decide (Post.author post ≠ me)
    then (db, mkReply 403 "Not authorized to delete this post")
    else
      let db := set_comments
                  (Mongo.deleteMany (λ c, bool_decide (Comment.post c = postId))) db in
      let db := set_posts (Mongo.findByIdAndDelete postId) db in
      (db, mkReply 200 "Post deleted successfully")
  end.

(** [router.post('/:postId/comments', auth, ...)]; [newId], [now] and
    [parentCommentId] as for [POST /comments]. *)
Definition create_comment (me : ObjectId) (newId : ObjectId) (now : N) (postId : ObjectId)
    (content : string) (parentCommentId : option ObjectId) (db : DB) : DB * reply :=
  if decide (content = "") then (db, mkReply 400 "Comment content is required")
  else if decide (1000 < String.length content)%nat then (db, mkReply 400 "Invalid value")
  else match posts db !! postId with
  | None => (db, mkReply 404 "Post not found")
  | Some post =>
    let parent_missing :=
      match parentCommentId with
      | Some parent => bool_decide (comments db !! parent = None)
      | None => false
      end in
    if parent_missing then (db, mkReply 404 "Parent comment not found")
    else match comments db !! newId with
    | Some _ => (db, mkReply 500 "Server error")
    | None =>
      let comment := Comment.mk me postId parentCommentId content [] [] now in
      let db := set_comments (insert newId comment) db in
      let db := match parentCommentId with
                | Some parent =>
                  set_comments (Mongo.findByIdAndUpdate parent
                    (Comment.with_replies (Mongo.push newId))) db
                | None => db
                end in
      let db := set_posts (Mongo.findByIdAndUpdate postId
                  (Post.with_comments (Mongo.push newId))) db in
      (db, mkReply 201 "Comment created successfully")
    end
  end.

End Posts.

(** ** routes/comments.js *)

Module Comments.

(** [router.get('/post/:postId', ...)]. *)
Definition list_by_post (postId : ObjectId) (raw_page raw_limit : option Z) (db : DB)
    : nat * option (listing Comment.t) :=
  let page := int_param raw_page 1 in
  let limit := int_param raw_limit 10 in
  paginate page limit
    (Mongo.find_desc Comment.createdAt (Posts.top_level_of postId) (comments db))
    (Mongo.countDocuments (Posts.top_level_of postId) (comments db)).

(** [router.get('/:commentId/replies', ...)]: oldest first. *)
Definition list_replies (commentId : ObjectId) (raw_page raw_limit : option Z) (db : DB)
    : nat * option (listing Comment.t) :=
  let page := int_param raw_page 1 in
  let limit := int_param raw_limit 10 in
  paginate page limit
    (Mongo.find_asc Comment.createdAt (Posts.reply_to commentId) (comments db))
    (Mongo.countDocuments (Posts.reply_to commentId) (comments db)).

(** [router.post('/', auth, ...)].  [newId] is the identifier [new Comment]
    generates and [now] the creation time; [save] fails on an identifier that
    is taken.  [parentCommentId] is [None] when the field is absent or empty. *)
Definition create (me : ObjectId) (newId : ObjectId) (now : N) (content : string)
    (postId : ObjectId) (parentCommentId : option ObjectId) (db : DB) : DB * reply :=
  if decide (content = "") then (db, mkReply 400 "Comment content is required")
  else if decide (1000 < String.length content)%nat then (db, mkReply 400 "Invalid value")
  else match posts db !! postId with
  | None => (db, mkReply 404 "Post not found")
  | Some post =>
    let parent_missing :=
      match parentCommentId with
      | Some parent => bool_decide (comments db !! parent = None)
      | None => false
      end in
    if parent_missing then (db, mkReply 404 "Parent comment not found")
    else match comments db !! newId with
    | Some _ => (db, mkReply 500 "Server error")
    | None =>
      let comment := Comment.mk me postId parentCommentId content [] [] now in
      let db := set_comments (insert newId comment) db in
      let db := match parentCommentId with
                | Some parent =>
                  set_comments (Mongo.findByIdAndUpdate parent
                    (Comment.with_replies (Mongo.push newId))) db
                | None => db
                end in
      let db := set_posts (Mongo.findByIdAndUpdate postId
                  (Post.with_comments (Mongo.push newId))) db in
      (db, mkReply 201 "Comment created successfully")
    end
  end.

(** [router.delete('/:commentId', auth, ...)]: the post whose list is pulled
    from is the comment's own. *)
Definition delete (me commentId : ObjectId) (db : DB) : DB * reply :=
  match comments db !! commentId with
  | None => (db, mkReply 404 "Comment not found")
  | Some comment =>
    if decide (Comment.author comment ≠ me)
    then (db, mkReply 403 "Not authorized to delete this comment")
    else
      let db := set_posts (Mongo.findByIdAndUpdate (Comment.post comment)
                  (Post.with_comments (Mongo.pull commentId))) db in
      let db := match Comment.parentComment comment with
                | Some parent =>
                  set_comments (Mongo.findByIdAndUpdate parent
                    (Comment.with_replies (Mongo.pull commentId))) db
                | None => db
                end in
      let db := set_comments (Mongo.deleteMany (Posts.reply_to commentId)) db in
      let db := set_comments (Mongo.findByIdAndDelete commentId) db in
      (db, mkReply 200 "Comment deleted successfully")
  end.

(** [router.post('/:commentId/like', auth, ...)]. *)
Definition like (me : ObjectId) (commentId : ObjectId) (db : DB) : DB * Posts.like_reply :=
  match comments db !! commentId with
  | None => (db, Posts.mkLikeReply 404 "Comment not found" None)
  | Some comment =>
    let isLiked := Mongo.includes me (Comment.likes comment) in
    if isLiked then
      (set_comments (Mongo.findByIdAndUpdate commentId
         (Comment.with_likes (Mongo.pull me))) db,
       Posts.mkLikeReply 200 "Comment unliked successfully" (Some false))
    else
      (set_comments (Mongo.findByIdAndUpdate commentId
         (Comment.with_likes (Mongo.push me))) db,
       Posts.mkLikeReply 200 "Comment liked successfully" (Some true))
  end.

(** [router.put('/:commentId', auth, ...)]. *)
Definition update (me commentId : ObjectId) (content : string) (db : DB) : DB * reply :=
  if decide (content = "") then (db, mkReply 400 "Comment content is required")
  else if decide (1000 < String.length content)%nat then (db, mkReply 400 "Invalid value")
  else match comments db !! commentId with
  | None => (db, mkReply 404 "Comment not found")
  | Some comment =>
    if decide (Comment.author comment ≠ me)
    then (db, mkReply 403 "Not authorized to update this comment")
    else
      (set_comments (Mongo.findByIdAndUpdate commentId (Comment.with_content content)) db,
       mkReply 200 "Comment updated successfully")
  end.

End Comments.

(** ** Tag parsing

    [tags.split(',').map(tag => tag.trim()).filter(tag => tag)], as the create
    and update handlers of [routes/posts.js] and the create form compute it.
    A string is the list of its code units; [comma] is the code unit of [","]
    and [is_space] tells the code units [trim] strips. *)

Module Tags.
Section Chars.
Context {char : Type} `{EqDecision char}.
Variable comma : char.
Variable is_space : char → bool.

(** [s.split(',')]: the pieces between the commas, empty pieces included. *)
Fixpoint split (s : list char) : list (list char) :=
  match s with
  | [] => [[]]
  | c :: s' =>
    if decide (c = comma) then [] :: split s'
    else match split s' with
         | piece :: pieces => (c :: piece) :: pieces
         | [] => [[c]]
         end
  end.

Fixpoint trim_start (s : list char) : list char :=
  match s with
  | [] => []
  | c :: s' => if is_space c then trim_start s' else s
  end.

(** [s.trim()]. *)
Definition trim (s : list char) : list char :=
  reverse (trim_start (reverse (trim_start s))).

(** The parsed tags; [None] is a body without [tags], and both that and the
    empty string are falsy. *)
Definition parsedTags (tags : option (list char)) : list (list char) :=
  match tags with
  | Some s =>
    if decide (s = []) then []
    else filter (λ tag, tag ≠ []) (trim <$> split s)
  | None => []
  end.

(** [array.join(',')]. *)
Fixpoint join (pieces : list (list char)) : list char :=
  match pieces with
  | [] => []
  | [piece] => piece
  | piece :: rest => piece ++ comma :: join rest
  end.

(** A tag as the parser leaves it: not empty, no comma inside, no space at
    either end. *)
Definition clean (tag : list char) : Prop :=
  tag ≠ [] ∧ (comma ∉ tag)
  ∧ (∀ c, head tag = Some c → is_space c = false)
  ∧ (∀ c, last tag = Some c → is_space c = false).

End Chars.
End Tags.

(** ** The pages that call the handlers *)

Module Client.

(** [response.ok]. *)
Definition ok (status : nat) : bool := bool_decide (200 ≤ status ≤ 299)%nat.

(** The state of a [PostCard]: [isLiked] and [likeCount]. *)
Record card := mkCard {
  c_isLiked : bool;
  c_likeCount : Z
}.

(** [PostCard.handleLike], once the like request was answered with [status];
    [user] is the signed-in user, if any. *)
Definition card_handleLike (user : option ObjectId) (status : nat) (c : card) : card :=
  match user with
  | None => c
  | Some _ =>
    if ok status
    then mkCard (negb (c_isLiked c))
           (if c_isLiked c then c_likeCount c - 1 else c_likeCount c + 1)
    else c
  end.

(** The like state of the post page: [post.isLiked] and [post.likes]. *)
Record detail := mkDetail {
  d_isLiked : bool;
  d_likes : list ObjectId
}.

(** [PostDetail.handleLike], once the like request was answered. *)
Definition detail_handleLike (user : option ObjectId) (status : nat) (prev : detail) : detail :=
  match user with
  | None => prev
  | Some me =>
    if ok status
    then mkDetail (negb (d_isLiked prev))
           (if d_isLiked prev then filter (λ id, id ≠ me) (d_likes prev)
            else (d_likes prev ++ [me])%list)
    else prev
  end.

(** [Explore.handleFollow] on the list of explored users, once the follow
    request for [userId] was answered. *)
Definition explore_handleFollow (user : option ObjectId) (userId : ObjectId) (status : nat)
    (prev : list Users.explored) : list Users.explored :=
  match user with
  | None => prev
  | Some me =>
    if ok status
    then (λ u,
            if decide (Users.e_id u = userId)
            then Users.mkExplored (Users.e_id u)
                   (User.with_followers
                      (λ followers,
                         if Users.isFollowing u
                         then filter (λ id, id ≠ me) followers
                         else (followers ++ [me])%list)
                      (Users.e_user u))
                   (negb (Users.isFollowing u))
            else u) <$> prev
    else prev
  end.

End Client.

(** ** Requests that change posts and comments *)

Inductive mutation :=
  | GetPost (caller : option ObjectId) (postId : ObjectId)
  | LikePost (me postId : ObjectId)
  | DeletePost (me postId : ObjectId)
  | CreateComment (me newId : ObjectId) (now : N) (content : string)
      (postId : ObjectId) (parentCommentId : option ObjectId)
  | CreateCommentUnder (me newId : ObjectId) (now : N) (postId : ObjectId)
      (content : string) (parentCommentId : option ObjectId)
  | UpdateComment (me commentId : ObjectId) (content : string)
  | DeleteComment (me commentId : ObjectId)
  | DeleteCommentUnder (me postId commentId : ObjectId)
  | LikeComment (me commentId : ObjectId).

(** The store a request leaves. *)
Definition perform (m : mutation) (db : DB) : DB :=
  match m with
  | GetPost caller postId => (Posts.get_post caller postId db).1
  | LikePost me postId => (Posts.like me postId db).1
  | DeletePost me postId => (Posts.delete_post me postId db).1
  | CreateComment me newId now content postId parent =>
    (Comments.create me newId now content postId parent db).1
  | CreateCommentUnder me newId now postId content parent =>
    (Posts.create_comment me newId now postId content parent db).1
  | UpdateComment me commentId content => (Comments.update me commentId content db).1
  | DeleteComment me commentId => (Comments.delete me commentId db).1
  | DeleteCommentUnder me postId commentId =>
    (Posts.delete_comment me postId commentId db).1
  | LikeComment me commentId => (Comments.like me commentId db).1
  end.

Fixpoint perform_all (ms : list mutation) (db : DB) : DB :=
  match ms with
  | [] => db
  | m :: ms' => perform_all ms' (perform m db)
  end.

(** ** Invariants of the store *)

(** Every comment belongs to a post that exists. *)
Definition comments_have_posts (db : DB) : Prop :=
  map_Forall (λ _ c, is_Some (posts db !! Comment.post c)) (comments db).

(** No likes array holds an identifier twice. *)
Definition likes_unique (db : DB) : Prop :=
  map_Forall (λ _ p, NoDup (Post.likes p)) (posts db)
  ∧ map_Forall (λ _ c, NoDup (Comment.likes c)) (comments db).

#[global] Instance comments_have_posts_dec (db : DB) : Decision (comments_have_posts db).
Proof. unfold comments_have_posts. apply _. Defined.

#[global] Instance likes_unique_dec (db : DB) : Decision (likes_unique db).
Proof. unfold likes_unique. apply _. Defined.

(** No two users share the value of the field [f]. *)
Definition unique_by (f : User.t → string) (db : DB) : Prop :=
  ∀ i j ui uj, users db !! i = Some ui → users db !! j = Some uj → f ui = f uj → i = j.

(** ** What the claims speak about *)

(** No user is in their own [followers] or [following]. *)
Definition no_self (db : DB) : Prop :=
  map_Forall (λ u usr, (u ∉ User.followers usr) ∧ (u ∉ User.following usr)) (users db).

(** The two sides of the follow relation agree: [b] is in [a.following]
    exactly when [a] is in [b.followers]. *)
Definition mirrored (db : DB) : Prop :=
  map_Forall (λ a ua,
    map_Forall (λ b ub, b ∈ User.following ua ↔ a ∈ User.followers ub) (users db))
    (users db).

#[global] Instance no_self_dec (db : DB) : Decision (no_self db).
Proof. unfold no_self. apply _. Defined.

#[global] Instance mirrored_dec (db : DB) : Decision (mirrored db).
Proof. unfold mirrored. apply _. Defined.

(** The caller of a follow or unfollow request, and the text of its path. *)
Definition caller_of (r : Users.request) : ObjectId :=
  match r with Users.Follow me _ | Users.Unfollow me _ => me end.

Definition path_of (r : Users.request) : string :=
  match r with Users.Follow _ userId | Users.Unfollow _ userId => userId end.

(** The path of the request spells an identifier the way [toString()] does. *)
Definition spelled_lower (r : Users.request) : Prop :=
  ∃ i, path_of r = ObjectId.toString i.

(** How many times [x] occurs in an array. *)
Definition occurrences (x : ObjectId) (l : list ObjectId) : nat :=
  length (filter (λ y, y = x) l).

(** The six text fields of a profile: where each is stored, and where the
    body of [PUT /profile] supplies it. *)
Definition profile_fields : list ((User.t → string) * (Users.profile_body → option string)) :=
  [(User.fullName, Users.b_fullName); (User.username, Users.b_username);
   (User.email, Users.b_email); (User.university, Users.b_university);
   (User.major, Users.b_major); (User.bio, Users.b_bio)].

(** Toggle semantics of a like by [me], over the likes array [before] the
    first call, after it, and after a second call that follows at once, with
    the two responses: an absent identifier is appended once and reported
    [liked: true], a present one is removed and reported [liked: false]; the
    second call undoes the first, so [me] is never in the array twice; the
    other users' entries are never touched. *)
Definition like_toggles (me : ObjectId) (before after1 after2 : list ObjectId)
    (r1 r2 : Posts.like_reply) : Prop :=
  (me ∉ before →
     after1 = (before ++ [me])%list ∧ occurrences me after1 = 1%nat
     ∧ Posts.liked r1 = Some true
     ∧ after2 = before ∧ Posts.liked r2 = Some false)
  ∧ (me ∈ before →
     after1 = filter (λ y, y ≠ me) before ∧ (me ∉ after1)
     ∧ Posts.liked r1 = Some false
     ∧ after2 = (after1 ++ [me])%list ∧ Posts.liked r2 = Some true)
  ∧ (occurrences me after1 ≤ 1)%nat
  ∧ (occurrences me after2 ≤ 1)%nat
  ∧ (∀ u, u ≠ me →
       occurrences u after1 = occurrences u before
       ∧ occurrences u after2 = occurrences u before).

(** The store after the single post [postId] was fetched once by each of
    [callers], in that order. *)
Fixpoint fetch_all (callers : list (option ObjectId)) (postId : ObjectId) (db : DB) : DB :=
  match callers with
  | [] => db
  | c :: cs => fetch_all cs postId (Posts.get_post c postId db).1
  end.

(** The documents of the pages [1 .. pages] of a listing, in order; [fetch p]
    is the response to the request for page [p]. *)
Definition all_pages {A} (fetch : Z → nat * option (listing A)) (pages : Z) : list (N * A) :=
  concat ((λ p, match (fetch p).2 with Some l => items l | None => [] end) <$> seqZ 1 pages).

(** [pages] is the ceiling of the quotient [total / limit] of two integers,
    [limit] not zero: the integer with [pages - 1 < total / limit ≤ pages],
    written without the division. *)
Definition is_ceiling (total limit pages : Z) : Prop :=
  0 ≤ (pages * limit - total) * Z.sgn limit < Z.abs limit.

(** A listing over the documents of [coll] that satisfy [cond], asked for with
    page size [limit], is well paginated: every page request succeeds and
    reports the same [total] and [pages]; [pages] is [ceil(total / limit)],
    the least number of pages of [limit] documents that hold [total]; and the
    pages [1 .. pages], one after the other, are [total] documents, no
    identifier twice, and exactly the documents of [coll] that match. *)
Definition well_paginated {A} (limit : Z) (fetch : Z → nat * option (listing A))
    (coll : gmap N A) (cond : A → bool) : Prop :=
  ∃ total pages : Z,
    (∀ p, 1 ≤ p → ∃ docs,
       fetch p = (200%nat, Some (mkListing docs (mkPagination p limit total pages))))
    ∧ is_ceiling total limit pages
    ∧ Z.of_nat (length (all_pages fetch pages)) = total
    ∧ NoDup (all_pages fetch pages).*1
    ∧ (∀ i d, (i, d) ∈ all_pages fetch pages ↔ coll !! i = Some d ∧ cond d = true).

(** ** The stores and arrays the handlers leave, in closed form *)

(** The update both handlers perform when they change the store: [op] is
    [$push] or [$pull], applied to [me.following] and to [userId.followers]. *)
Definition pair_update (op : N → list N → list N) (me userId : N) (db : DB) : DB :=
  set_users (λ m,
    Mongo.findByIdAndUpdate userId (User.with_followers (op me))
      (Mongo.findByIdAndUpdate me (User.with_following (op userId)) m)) db.

(** The user stored under [k] after [pair_update], from the one stored
    before: the first update reaches [me], the second [userId]. *)
Definition relinked (op : N → list N → list N) (me userId k : N) (u : User.t) : User.t :=
  (if decide (k = userId) then User.with_followers (op me) else id)
    ((if decide (k = me) then User.with_following (op userId) else id) u).

(** The likes array a like by [me] leaves. *)
Definition toggled (me : N) (l : list N) : list N :=
  if Mongo.includes me l then Mongo.pull me l else Mongo.push me l.

(** The store the cascade of [DELETE /comments/:commentId] leaves. *)
Definition cascade (postId commentId : N) (parent : option N) (db : DB) : DB :=
  mkDB (users db)
    (Mongo.findByIdAndUpdate postId (Post.with_comments (Mongo.pull commentId)) (posts db))
    (Mongo.findByIdAndDelete commentId
       (Mongo.deleteMany (Posts.reply_to commentId)
          (match parent with
           | Some par => Mongo.findByIdAndUpdate par
                           (Comment.with_replies (Mongo.pull commentId)) (comments db)
           | None => comments db
           end))).

(** The store a comment creation answered 201 leaves. *)
Definition created (me newId : N) (now : N) (content : string) (postId : N)
    (parent : option N) (db : DB) : DB :=
  mkDB (users db)
    (Mongo.findByIdAndUpdate postId (Post.with_comments (Mongo.push newId)) (posts db))
    (match parent with
     | Some par => Mongo.findByIdAndUpdate par (Comment.with_replies (Mongo.push newId))
     | None => id
     end (<[newId := Comment.mk me postId parent content [] [] now]> (comments db))).

(** The store [DELETE /posts/:postId] by the author leaves. *)
Definition post_deleted (postId : N) (db : DB) : DB :=
  mkDB (users db)
    (Mongo.findByIdAndDelete postId (posts db))
    (Mongo.deleteMany (λ c, bool_decide (Comment.post c = postId)) (comments db)).

(** What a request does to posts and comments when it changes them, and what
    the handler has checked by then. *)
Inductive step (db : DB) : mutation → DB → Prop :=
  | step_view caller postId p :
      posts db !! postId = Some p →
      step db (GetPost caller postId)
        (set_posts (insert postId (Post.with_views Js.add_one p)) db)
  | step_like_post me postId p :
      posts db !! postId = Some p →
      step db (LikePost me postId)
        (set_posts (Mongo.findByIdAndUpdate postId (Post.with_likes (toggled me))) db)
  | step_like_comment me commentId c :
      comments db !! commentId = Some c →
      step db (LikeComment me commentId)
        (set_comments
           (Mongo.findByIdAndUpdate commentId (Comment.with_likes (toggled me))) db)
  | step_delete_post me postId p :
      posts db !! postId = Some p → Post.author p = me →
      step db (DeletePost me postId) (post_deleted postId db)
  | step_create me newId now content postId parent :
      is_Some (posts db !! postId) → comments db !! newId = None →
      match parent with Some par => is_Some (comments db !! par) | None => True end →
      step db (CreateComment me newId now content postId parent)
        (created me newId now content postId parent db)
  | step_create_under me newId now content postId parent :
      is_Some (posts db !! postId) → comments db !! newId = None →
      match parent with Some par => is_Some (comments db !! par) | None => True end →
      step db (CreateCommentUnder me newId now postId content parent)
        (created me newId now content postId parent db)
  | step_update me commentId c content :
      comments db !! commentId = Some c → Comment.author c = me →
      step db (UpdateComment me commentId content)
        (set_comments
           (Mongo.findByIdAndUpdate commentId (Comment.with_content content)) db)
  | step_cascade me commentId c :
      comments db !! commentId = Some c → Comment.author c = me →
      step db (DeleteComment me commentId)
        (cascade (Comment.post c) commentId (Comment.parentComment c) db)
  | step_cascade_under me postId commentId c :
      comments db !! commentId = Some c → Comment.author c = me →
      step db (DeleteCommentUnder me postId commentId)
        (cascade postId commentId (Comment.parentComment c) db).

(** ** A small store

    Three users, of whom carol (3) follows alice (1); a public note and a
    private note by alice, the public one liked by bob (2); a comment by bob
    on the public note, with one reply by carol. *)

Definition alice : User.t :=
  User.mk "alice" "alice@uni.edu" "Alice A" "" "" "MIT" "CS" [3%N] [] 1.
Definition bob : User.t :=
  User.mk "bob" "bob@uni.edu" "Bob B" "hi" "" "MIT" "Math" [] [] 2.
Definition carol : User.t :=
  User.mk "carol" "carol@uni.edu" "Carol C" "" "" "ETH" "CS" [] [1%N] 3.

Definition public_note : Post.t :=
  Post.mk 1 "note" "Algebra" "Groups and rings" "academic" ["math"]
    [2%N] [20%N; 21%N] 7 true 10.
Definition private_note : Post.t :=
  Post.mk 1 "note" "Draft" "Not yet" "project" [] [] [] 0 false 11.

Definition bobs_comment : Comment.t :=
  Comment.mk 2 10 None "nice notes!" [21%N] [] 12.
Definition carols_reply : Comment.t :=
  Comment.mk 3 10 (Some 20%N) "agreed" [] [2%N] 13.

Definition sample : DB :=
  mkDB (list_to_map [(1%N, alice); (2%N, bob); (3%N, carol)])
       (list_to_map [(10%N, public_note); (11%N, private_note)])
       (list_to_map [(20%N, bobs_comment); (21%N, carols_reply)]).

(** The sample store after its public note has been viewed [2^53] times. *)
Definition saturated : DB :=
  set_posts (insert 10%N (Post.with_views (λ _, 2 ^ 53)%N public_note)) sample.

(** A second store, whose identifiers have letters in their text: dana
    ([0xda], written [0000000000000000000000da]) follows nobody; she has a
    public and a private note. *)

Definition dana : User.t :=
  User.mk "dana" "dana@uni.edu" "Dana D" "" "" "MIT" "CS" [] [] 4.

Definition dana_public : Post.t :=
  Post.mk 0xda "note" "Logic" "Sequents" "academic" [] [] [] 0 true 5.
Definition dana_private : Post.t :=
  Post.mk 0xda "note" "Plans" "Not yet" "project" [] [] [] 0 false 6.

Definition lettered : DB :=
  mkDB (list_to_map [(0xda%N, dana)])
       (list_to_map [(0xb1%N, dana_public); (0xb2%N, dana_private)])
       ∅.

(** * Proofs *)

(** ** Identifiers and their text *)

Lemma digit_value_digit (d : N) :
  (d < 16)%N → ObjectId.digit_value (ObjectId.digit d) = Some d.
Proof.
  intros Hd.
  assert (d ∈ (N.of_nat <$> seq 0 16)) as Hin.
  { apply list_elem_of_fmap. exists (N.to_nat d). split; [lia|]. apply elem_of_seq. lia. }
  simpl in Hin. set_unfold in Hin.
  repeat (destruct Hin as [->|Hin]; [reflexivity|]). done.
Qed.

Lemma length_digits (k : nat) (n : N) (rest : string) :
  String.length (ObjectId.digits k n rest) = (k + String.length rest)%nat.
Proof.
  revert n rest. induction k as [|k IH]; intros n rest; [done|].
  simpl. rewrite IH. simpl. lia.
Qed.

(** Reading back the digits [digits] wrote. *)
Lemma value_digits (k : nat) (n : N) (rest : string) (acc : N) :
  ObjectId.value (ObjectId.digits k n rest) acc
  = ObjectId.value rest (acc * 16 ^ N.of_nat k + n mod 16 ^ N.of_nat k)%N.
Proof.
  revert n rest acc. induction k as [|k IH]; intros n rest acc.
  - simpl. rewrite N.mod_1_r. f_equal. lia.
  - cbn [ObjectId.digits]. rewrite IH. cbn [ObjectId.value].
    rewrite digit_value_digit by (apply N.mod_lt; lia). f_equal.
    rewrite Nat2N.inj_succ, N.pow_succ_r'.
    rewrite (N.Div0.mod_mul_r n 16 (16 ^ N.of_nat k)).
    lia.
Qed.

Lemma lt_pow_width (i : N) : (i < 16 ^ N.of_nat (ObjectId.width i))%N.
Proof.
  unfold ObjectId.width.
  apply N.lt_le_trans with (16 ^ (N.log2 i / 4 + 1))%N.
  - destruct (decide (i = 0%N)) as [->|Hpos]; [done|].
    apply N.lt_le_trans with (2 ^ N.succ (N.log2 i))%N;
      [apply N.log2_spec; lia|].
    change 16%N with (2 ^ 4)%N. rewrite <- N.pow_mul_r.
    apply N.pow_le_mono_r; [done|].
    pose proof (N.Div0.div_mod (N.log2 i) 4) as Hdiv.
    pose proof (N.mod_lt (N.log2 i) 4) as Hmod. lia.
  - apply N.pow_le_mono_r; [done|]. lia.
Qed.

Lemma value_toString (i : N) : ObjectId.value (ObjectId.toString i) 0 = Some i.
Proof.
  unfold ObjectId.toString. rewrite value_digits. cbn [ObjectId.value]. f_equal.
  rewrite N.mod_small by apply lt_pow_width. lia.
Qed.

(** [toString] is injective, and a text it wrote casts to nothing but the
    identifier it was written from. *)
Lemma toString_inj (i j : N) : ObjectId.toString i = ObjectId.toString j → i = j.
Proof.
  intros Heq. pose proof (value_toString i) as Hi. rewrite Heq, value_toString in Hi.
  congruence.
Qed.

Lemma cast_toString_inv (i j : N) : ObjectId.cast (ObjectId.toString i) = Some j → j = i.
Proof.
  unfold ObjectId.cast. case_decide; [|done]. rewrite value_toString. congruence.
Qed.

(** The text of a twelve-byte identifier casts back to it. *)
Lemma cast_toString (i : N) : ObjectId.valid i → ObjectId.cast (ObjectId.toString i) = Some i.
Proof.
  unfold ObjectId.valid. intros Hi. unfold ObjectId.cast.
  rewrite decide_True; [apply value_toString|].
  unfold ObjectId.toString. rewrite length_digits. simpl. unfold ObjectId.width.
  destruct (decide (i = 0%N)) as [->|Hpos]; [done|].
  assert (N.log2 i < 96)%N as Hlog by (apply N.log2_lt_pow2; lia).
  assert (N.log2 i / 4 < 24)%N by (apply N.Div0.div_lt_upper_bound; lia).
  lia.
Qed.



(** A text that names somebody else is not the caller's text. *)
Lemma cast_not_self (t : string) (a b : N) :
  ObjectId.cast t = Some b → a ≠ b → t ≠ ObjectId.toString a.
Proof. intros Hcast Hab ->. apply cast_toString_inv in Hcast. congruence. Qed.

(** ** Numbers *)

Lemma add_one_below (x : N) : (x < 2 ^ 53)%N → Js.add_one x = (x + 1)%N.
Proof.
  intros Hx. unfold Js.add_one, Js.nearest_double. cbv zeta.
  case_decide as Hlog; [done|].
  assert (x + 1 = 2 ^ 53)%N as ->; [|by vm_compute].
  assert (¬ (x + 1 < 2 ^ 53))%N; [|lia].
  intros Hlt. apply N.log2_lt_pow2 in Hlt; lia.
Qed.

Lemma add_one_at_limit : Js.add_one (2 ^ 53) = (2 ^ 53)%N.
Proof. by vm_compute. Qed.

(** ** Arrays under [$push], [$pull] and [includes] *)

Lemma elem_of_pull (x y : N) (l : list N) : y ∈ Mongo.pull x l ↔ y ≠ x ∧ y ∈ l.
Proof. unfold Mongo.pull. by rewrite list_elem_of_filter. Qed.

Lemma elem_of_push (x y : N) (l : list N) : y ∈ Mongo.push x l ↔ y ∈ l ∨ y = x.
Proof.
  unfold Mongo.push. rewrite elem_of_app, list_elem_of_singleton. done.
Qed.

Lemma pull_absent (x : N) (l : list N) : x ∉ l → Mongo.pull x l = l.
Proof.
  unfold Mongo.pull. induction l as [|y l IH]; intros Hx; [done|].
  apply not_elem_of_cons in Hx as [Hne Hl].
  rewrite filter_cons_True by congruence. f_equal. by apply IH.
Qed.

Lemma pull_push (x : N) (l : list N) : Mongo.pull x (Mongo.push x l) = Mongo.pull x l.
Proof.
  unfold Mongo.pull, Mongo.push. rewrite filter_app.
  rewrite filter_cons_False by (intros H; by apply H).
  by rewrite filter_nil, app_nil_r.
Qed.

Lemma pull_push_absent (x : N) (l : list N) :
  x ∉ l → Mongo.pull x (Mongo.push x l) = l.
Proof. intros Hx. rewrite pull_push. by apply pull_absent. Qed.

Lemma push_pull_ne (x y : N) (l : list N) :
  x ≠ y → Mongo.pull x (Mongo.push y l) = Mongo.push y (Mongo.pull x l).
Proof.
  intros Hne. unfold Mongo.pull, Mongo.push. rewrite filter_app.
  by rewrite filter_cons_True, filter_nil by congruence.
Qed.

Lemma includes_true (x : N) (l : list N) : Mongo.includes x l = true ↔ x ∈ l.
Proof. unfold Mongo.includes. apply bool_decide_eq_true. Qed.

Lemma includes_false (x : N) (l : list N) : Mongo.includes x l = false ↔ x ∉ l.
Proof. unfold Mongo.includes. apply bool_decide_eq_false. Qed.

(** [includes] on the text [toString()] gives is [includes] on the
    identifier; on any other text it finds nothing. *)
Lemma includes_text_lower (i : N) (l : list N) :
  Mongo.includes_text (ObjectId.toString i) l = Mongo.includes i l.
Proof.
  unfold Mongo.includes_text, Mongo.includes. apply bool_decide_ext.
  rewrite list_elem_of_fmap. split.
  - intros (j & Heq & Hj). by apply toString_inj in Heq as ->.
  - intros Hi. by exists i.
Qed.

Lemma includes_text_other (t : string) (b : N) (l : list N) :
  ObjectId.cast t = Some b → t ≠ ObjectId.toString b → Mongo.includes_text t l = false.
Proof.
  intros Hcast Hne. apply bool_decide_eq_false. rewrite list_elem_of_fmap.
  intros (j & -> & _). apply cast_toString_inv in Hcast. by subst.
Qed.

Lemma includes_text_absent (t : string) (b : N) (l : list N) :
  ObjectId.cast t = Some b → b ∉ l → Mongo.includes_text t l = false.
Proof.
  intros Hcast Hout. destruct (decide (t = ObjectId.toString b)) as [->|Hne].
  - rewrite includes_text_lower. by apply bool_decide_eq_false.
  - by apply (includes_text_other t b).
Qed.

Lemma occurrences_absent (x : N) (l : list N) : x ∉ l ↔ occurrences x l = 0%nat.
Proof.
  unfold occurrences. split.
  - intros Hx. induction l as [|y l IH]; [done|].
    apply not_elem_of_cons in Hx as [Hne Hl].
    rewrite filter_cons_False by congruence. by apply IH.
  - intros Hlen Hx. apply length_zero_iff_nil in Hlen.
    by eapply (filter_nil_not_elem_of _ _ x) in Hlen.
Qed.

Lemma occurrences_push (x y : N) (l : list N) :
  occurrences x (Mongo.push y l)
  = (occurrences x l + (if decide (y = x) then 1 else 0))%nat.
Proof.
  unfold occurrences, Mongo.push. rewrite filter_app, length_app. f_equal.
  case_decide.
  - by rewrite filter_cons_True.
  - by rewrite filter_cons_False.
Qed.

Lemma occurrences_pull (x y : N) (l : list N) :
  occurrences x (Mongo.pull y l)
  = if decide (y = x) then 0%nat else occurrences x l.
Proof.
  case_decide as Hxy.
  - subst. apply occurrences_absent. rewrite elem_of_pull. tauto.
  - unfold occurrences, Mongo.pull. rewrite list_filter_filter. f_equal.
    apply list_filter_iff. intros z. split; [tauto|]. intros ->. split; [done|congruence].
Qed.

(** ** Follow and unfollow *)

Lemma follow_self (u : N) (db : DB) :
  Users.follow u (ObjectId.toString u) db = (db, mkReply 400 "You cannot follow yourself").
Proof. unfold Users.follow. by rewrite decide_True. Qed.

Lemma unfollow_self (u : N) (db : DB) :
  Users.unfollow u (ObjectId.toString u) db
  = (db, mkReply 400 "You cannot unfollow yourself").
Proof. unfold Users.unfollow. by rewrite decide_True. Qed.

(** What two updates in a row leave at each identifier. *)
Lemma lookup_pair_update (f g : User.t → User.t) (a b k : N) (m : gmap N User.t) :
  Mongo.findByIdAndUpdate b g (Mongo.findByIdAndUpdate a f m) !! k
  = (λ u, (if decide (k = b) then g else id) ((if decide (k = a) then f else id) u))
      <$> m !! k.
Proof.
  unfold Mongo.findByIdAndUpdate. rewrite !lookup_alter.
  repeat case_decide; simplify_eq; try done; by destruct (m !! _).
Qed.

(** A follow request that passes the self-check, names a user and comes from
    a user: the branch is chosen by [includes] on the text. *)
Lemma follow_found (db : DB) (me b : N) (t : string) (ua ub : User.t) :
  t ≠ ObjectId.toString me → ObjectId.cast t = Some b →
  users db !! me = Some ua → users db !! b = Some ub →
  Users.follow me t db
  = if Mongo.includes_text t (User.following ua)
    then (pair_update Mongo.pull me b db, mkReply 200 "User unfollowed successfully")
    else (pair_update Mongo.push me b db, mkReply 200 "User followed successfully").
Proof.
  intros Hself Hcast Ha Hb. unfold Users.follow.
  rewrite decide_False by done. rewrite Hcast, Hb, Ha.
  by destruct (Mongo.includes_text t (User.following ua)).
Qed.

Lemma unfollow_found (db : DB) (me b : N) (t : string) (ua ub : User.t) :
  t ≠ ObjectId.toString me → ObjectId.cast t = Some b →
  users db !! me = Some ua → users db !! b = Some ub →
  Users.unfollow me t db
  = if Mongo.includes_text t (User.following ua)
    then (pair_update Mongo.pull me b db, mkReply 200 "User unfollowed successfully")
    else (db, mkReply 400 "Not following this user").
Proof.
  intros Hself Hcast Ha Hb. unfold Users.unfollow.
  rewrite decide_False by done. rewrite Hcast, Hb, Ha.
  by destruct (Mongo.includes_text t (User.following ua)).
Qed.

(** The store a follow of somebody not yet followed leaves, however the path
    spells the identifier. *)
Lemma follow_new (db : DB) (a b : N) (t : string) (ua ub : User.t) :
  a ≠ b → ObjectId.cast t = Some b →
  users db !! a = Some ua → users db !! b = Some ub →
  b ∉ User.following ua →
  Users.follow a t db
  = (pair_update Mongo.push a b db, mkReply 200 "User followed successfully").
Proof.
  intros Hab Hcast Ha Hb Hnew.
  rewrite (follow_found db a b t ua ub) by eauto using cast_not_self.
  by rewrite (includes_text_absent t b).
Qed.

(** The store a successful unfollow leaves. *)
Lemma unfollow_existing (db : DB) (a b : N) (ua ub : User.t) :
  a ≠ b → ObjectId.valid b →
  users db !! a = Some ua → users db !! b = Some ub →
  b ∈ User.following ua →
  Users.unfollow a (ObjectId.toString b) db
  = (pair_update Mongo.pull a b db, mkReply 200 "User unfollowed successfully").
Proof.
  intros Hab Hvalid Ha Hb Hin.
  rewrite (unfollow_found db a b _ ua ub)
    by eauto using cast_not_self, cast_toString.
  rewrite includes_text_lower. apply includes_true in Hin. by rewrite Hin.
Qed.


Lemma lookup_pair (op : N → list N → list N) (me userId k : N) (db : DB) :
  users (pair_update op me userId db) !! k = relinked op me userId k <$> users db !! k.
Proof. unfold pair_update, relinked. simpl. by apply lookup_pair_update. Qed.

Lemma relinked_following (op : N → list N → list N) (me userId k : N) (u : User.t) :
  User.following (relinked op me userId k u)
  = if decide (k = me) then op userId (User.following u) else User.following u.
Proof. unfold relinked. by repeat case_decide. Qed.

Lemma relinked_followers (op : N → list N → list N) (me userId k : N) (u : User.t) :
  User.followers (relinked op me userId k u)
  = if decide (k = userId) then op me (User.followers u) else User.followers u.
Proof. unfold relinked. by repeat case_decide. Qed.

Lemma relinked_me (op : N → list N → list N) (me userId : N) (u : User.t) :
  me ≠ userId → relinked op me userId me u = User.with_following (op userId) u.
Proof. intros Hne. unfold relinked. by rewrite decide_False, decide_True. Qed.

Lemma relinked_target (op : N → list N → list N) (me userId : N) (u : User.t) :
  me ≠ userId → relinked op me userId userId u = User.with_followers (op me) u.
Proof. intros Hne. unfold relinked. by rewrite decide_True, decide_False. Qed.

Lemma relinked_other (op : N → list N → list N) (me userId k : N) (u : User.t) :
  k ≠ me → k ≠ userId → relinked op me userId k u = u.
Proof. intros Hme Huser. unfold relinked. by rewrite !decide_False. Qed.

(** Every request leaves the store alone or performs one [pair_update]
    between the caller and the user its path casts to; the path is then not
    the caller's own text. *)
Lemma handle_cases (r : Users.request) (db : DB) :
  ((Users.handle r db).1 = db ∧ status (Users.handle r db).2 ≠ 200%nat)
  ∨ ∃ op userId, (op = Mongo.push ∨ op = Mongo.pull)
      ∧ path_of r ≠ ObjectId.toString (caller_of r)
      ∧ ObjectId.cast (path_of r) = Some userId
      ∧ is_Some (users db !! caller_of r) ∧ is_Some (users db !! userId)
      ∧ status (Users.handle r db).2 = 200%nat
      ∧ (Users.handle r db).1 = pair_update op (caller_of r) userId db.
Proof.
  destruct r as [me t|me t]; simpl.
  - unfold Users.follow. case_decide as Hself; [by left|].
    destruct (ObjectId.cast t) as [userId|]; [|by left].
    destruct (users db !! userId) eqn:Hu; [|by left].
    destruct (users db !! me) as [cu|] eqn:Hm; [|by left].
    destruct (Mongo.includes_text t (User.following cu)); right.
    + exists Mongo.pull, userId. split_and!; eauto.
    + exists Mongo.push, userId. split_and!; eauto.
  - unfold Users.unfollow. case_decide as Hself; [by left|].
    destruct (ObjectId.cast t) as [userId|]; [|by left].
    destruct (users db !! userId) eqn:Hu; [|by left].
    destruct (users db !! me) as [cu|] eqn:Hm; [|by left].
    destruct (Mongo.includes_text t (User.following cu)); simpl; [right|by left].
    exists Mongo.pull, userId. split_and!; eauto.
Qed.

Lemma pair_update_no_self (op : N → list N → list N) (me userId : N) (db : DB) :
  op = Mongo.push ∨ op = Mongo.pull → me ≠ userId →
  no_self db → no_self (pair_update op me userId db).
Proof.
  intros Hop Hne Hinv k u'. rewrite lookup_pair.
  destruct (users db !! k) as [u|] eqn:Hk; [|done]. intros [= <-].
  destruct (Hinv k u Hk) as [Hfrs Hfng].
  rewrite relinked_following, relinked_followers.
  destruct Hop as [-> | ->]; repeat case_decide; subst;
    rewrite ?elem_of_push, ?elem_of_pull; intuition congruence.
Qed.

(** A [pair_update] keeps the two sides of the relation in step, also when
    both of its users are the same one. *)
Lemma pair_update_mirrored (op : N → list N → list N) (me userId : N) (db : DB) :
  op = Mongo.push ∨ op = Mongo.pull →
  mirrored db → mirrored (pair_update op me userId db).
Proof.
  intros Hop Hinv x ux' Hx y uy' Hy.
  rewrite lookup_pair in Hx, Hy.
  destruct (users db !! x) as [ux|] eqn:Hux; [|done].
  destruct (users db !! y) as [uy|] eqn:Huy; [|done].
  simpl in Hx, Hy. simplify_eq.
  pose proof (Hinv x ux Hux y uy Huy) as Hxy. simpl in Hxy.
  rewrite relinked_following, relinked_followers.
  destruct Hop as [-> | ->]; repeat case_decide; subst;
    rewrite ?elem_of_push, ?elem_of_pull; intuition congruence.
Qed.

(** A request whose path is the text [toString()] gives keeps every user out
    of their own lists: the self-check catches it when it names the caller. *)
Lemma handle_no_self (r : Users.request) (db : DB) :
  spelled_lower r → no_self db → no_self (Users.handle r db).1.
Proof.
  intros [i Hpath] Hinv.
  destruct (handle_cases r db)
    as [[-> _] | (op & userId & Hop & Hself & Hcast & _ & _ & _ & ->)]; [done|].
  apply pair_update_no_self; [done| |done].
  rewrite Hpath in Hself, Hcast. apply cast_toString_inv in Hcast. congruence.
Qed.

Lemma handle_mirrored (r : Users.request) (db : DB) :
  mirrored db → mirrored (Users.handle r db).1.
Proof.
  intros Hinv.
  destruct (handle_cases r db)
    as [[-> _] | (op & userId & Hop & _ & _ & _ & _ & _ & ->)]; [done|].
  by apply pair_update_mirrored.
Qed.

(** The mirror invariant holds in every store the follow and unfollow
    handlers reach from one where it holds. *)
Lemma serve_mirrored (rs : list Users.request) (db : DB) :
  mirrored db → mirrored (Users.serve rs db).
Proof.
  revert db. induction rs as [|r rs IH]; intros db Hinv; [done|].
  simpl. apply IH. by apply handle_mirrored.
Qed.

Lemma serve_no_self (rs : list Users.request) (db : DB) :
  Forall spelled_lower rs → no_self db → no_self (Users.serve rs db).
Proof.
  revert db. induction rs as [|r rs IH]; intros db Hrs Hinv; [done|].
  apply Forall_cons in Hrs as [Hr Hrs]. simpl. apply IH; [done|].
  by apply handle_no_self.
Qed.

(** Both invariants hold in a store where nobody follows anybody, the state
    of freshly registered users. *)
Lemma unrelated_users_invariants (db : DB) :
  map_Forall (λ _ usr, User.followers usr = [] ∧ User.following usr = []) (users db) →
  mirrored db ∧ no_self db.
Proof.
  intros Hempty. split.
  - intros a ua Ha b ub Hb. simpl.
    destruct (Hempty a ua Ha) as [_ ->], (Hempty b ub Hb) as [-> _].
    split; intros Hin; by apply elem_of_nil in Hin.
  - intros u usr Hu. destruct (Hempty u usr Hu) as [-> ->].
    split; apply not_elem_of_nil.
Qed.

Lemma pull_after_push (a b : N) (db : DB) (ua ub : User.t) :
  a ≠ b → users db !! a = Some ua → users db !! b = Some ub →
  b ∉ User.following ua → a ∉ User.followers ub →
  pair_update Mongo.pull a b (pair_update Mongo.push a b db) = db.
Proof.
  intros Hab Ha Hb Hfng Hfrs. destruct db as [us ps cs].
  unfold pair_update at 1. unfold set_users. simpl in *. f_equal.
  apply map_eq. intros k.
  rewrite lookup_pair_update.
  change (Mongo.findByIdAndUpdate b _ (Mongo.findByIdAndUpdate a _ us))
    with (users (pair_update Mongo.push a b (mkDB us ps cs))).
  rewrite lookup_pair. simpl. unfold relinked.
  repeat case_decide; simplify_eq.
  - rewrite Hb. simpl. f_equal. destruct ub. unfold User.with_followers. simpl in *.
    f_equal. by apply pull_push_absent.
  - rewrite Ha. simpl. f_equal. destruct ua. unfold User.with_following. simpl in *.
    f_equal. by apply pull_push_absent.
  - by destruct (us !! k).
Qed.


(** With a path that spells the caller's identifier the way [toString()]
    does, the self-check holds: from a store in which no user is in their
    own followers or following list, no sequence of such requests reaches a
    store in which some user is, and a follow or an unfollow whose path is
    the caller's own text is answered 400 and leaves the store untouched. *)
Lemma lower_case_requests_keep_no_self (db : DB) (rs : list Users.request) (u : N) :
  Forall spelled_lower rs → no_self db →
  no_self (Users.serve rs db)
  ∧ Users.follow u (ObjectId.toString u) db = (db, mkReply 400 "You cannot follow yourself")
  ∧ Users.unfollow u (ObjectId.toString u) db
    = (db, mkReply 400 "You cannot unfollow yourself").
Proof.
  intros Hrs Hinv. split_and!; [by apply serve_no_self|apply follow_self|apply unfollow_self].
Qed.

(** The self-check passes any other text that names the caller: the follow
    is answered 200 and the caller is appended to their own [following] and
    [followers]. *)
Lemma follow_self_other_spelling (db : DB) (me : N) (t : string) (u : User.t) :
  users db !! me = Some u →
  ObjectId.cast t = Some me → t ≠ ObjectId.toString me →
  Users.follow me t db
  = (pair_update Mongo.push me me db, mkReply 200 "User followed successfully")
  ∧ users (Users.follow me t db).1 !! me
    = Some (User.with_followers (Mongo.push me) (User.with_following (Mongo.push me) u))
  ∧ ¬ no_self (Users.follow me t db).1.
Proof.
  intros Hme Hcast Hne.
  assert (Users.follow me t db
          = (pair_update Mongo.push me me db, mkReply 200 "User followed successfully"))
    as Hfollow.
  { rewrite (follow_found db me me t u u) by done.
    by rewrite (includes_text_other t me). }
  assert (users (pair_update Mongo.push me me db) !! me
          = Some (User.with_followers (Mongo.push me)
                    (User.with_following (Mongo.push me) u))) as Hafter.
  { rewrite lookup_pair, Hme. unfold relinked. by rewrite !decide_True. }
  rewrite Hfollow. cbn [fst]. split_and!; [done|done|].
  intros Hinv. destruct (Hinv me _ Hafter) as [Hfrs _]. apply Hfrs.
  simpl. apply elem_of_push. by right.
Qed.

(** C2.  The self-check compares the text of the path with the caller's
    [toString()], and the text need not be spelled that way.  Dana's
    identifier is written [0000000000000000000000da]: her follow request on
    that path is answered 400 and changes nothing, but her follow request on
    [/0000000000000000000000DA/follow] is answered 200 and puts her into her
    own [following] and her own [followers].  Her unfollow request on the
    upper-case path passes the self-check as well (it is refused further
    down, for not following), and once she follows herself the unfollow
    request on the lower-case path is refused by the self-check and leaves
    her there. *)
Theorem follows_self_by_upper_case_path :
  let lower := "0000000000000000000000da" in
  let upper := "0000000000000000000000DA" in
  ObjectId.toString 0xda = lower
  ∧ ObjectId.cast upper = Some 0xda%N
  ∧ no_self lettered
  ∧ Users.follow 0xda lower lettered = (lettered, mkReply 400 "You cannot follow yourself")
  ∧ (Users.follow 0xda upper lettered).2 = mkReply 200 "User followed successfully"
  ∧ users (Users.follow 0xda upper lettered).1 !! 0xda%N
    = Some (User.with_followers (λ _, [0xda%N]) (User.with_following (λ _, [0xda%N]) dana))
  ∧ ¬ no_self (Users.follow 0xda upper lettered).1
  ∧ Users.unfollow 0xda upper lettered = (lettered, mkReply 400 "Not following this user")
  ∧ Users.unfollow 0xda lower (Users.follow 0xda upper lettered).1
    = ((Users.follow 0xda upper lettered).1, mkReply 400 "You cannot unfollow yourself").
Proof.
  intros lower upper. subst lower upper.
  assert (users lettered !! 0xda%N = Some dana) as Hdana by reflexivity.
  destruct (follow_self_other_spelling lettered 0xda "0000000000000000000000DA" dana
              Hdana eq_refl ltac:(done)) as (Hfollow & Hafter & Hbroken).
  split_and!; try done.
  apply (bool_decide_unpack _). vm_compute. exact I.
Qed.


(** ** Profile update *)

Lemma str_or_falsy (supplied : option string) (fallback : string) :
  truthy supplied = false → str_or supplied fallback = fallback.
Proof.
  destruct supplied as [v|]; [|done]. simpl. intros Hv.
  apply bool_decide_eq_false in Hv. case_decide; [done|]. by destruct Hv.
Qed.

Lemma str_or_nonempty (supplied : option string) (fallback : string) :
  fallback ≠ "" → str_or supplied fallback ≠ "".
Proof. destruct supplied as [v|]; [|done]. simpl. by case_decide. Qed.

(** The record the handler leaves at the caller's identifier. *)
Lemma update_profile_cases (me : N) (req_user : User.t) (b : Users.profile_body)
    (file : option string) (db : DB) :
  auth me db = Some req_user →
  users (Users.update_profile me req_user b file db).1 !! me = Some req_user
  ∨ users (Users.update_profile me req_user b file db).1 !! me
    = Some (Users.apply_update (Users.updateData req_user b file) req_user).
Proof.
  unfold auth. intros Hme. unfold Users.update_profile.
  destruct (_ && _ && _); [by left|].
  destruct (_ && _ && _); [by left|].
  right. simpl. unfold Mongo.findByIdAndUpdate. by rewrite lookup_alter_eq, Hme.
Qed.

(** C10.  [PUT /profile] by an authenticated user: whatever the outcome, each
    of fullName, username, email, university, major and bio that the body
    omits or supplies as the empty string keeps its stored value, and none of
    them that was not empty is empty afterwards. *)
Theorem profile_update_keeps_falsy_fields (me : N) (req_user : User.t)
    (b : Users.profile_body) (file : option string) (db : DB) :
  auth me db = Some req_user →
  ∃ updated,
    users (Users.update_profile me req_user b file db).1 !! me = Some updated
    ∧ Forall (λ field,
        (truthy (field.2 b) = false → field.1 updated = field.1 req_user)
        ∧ (field.1 req_user ≠ "" → field.1 updated ≠ "")) profile_fields.
Proof.
  intros Hme.
  destruct (update_profile_cases me req_user b file db Hme) as [Hsame|Hupd].
  - exists req_user. split; [done|]. apply Forall_forall. by intros field _.
  - eexists. split; [exact Hupd|].
    unfold profile_fields. repeat constructor; simpl;
      auto using str_or_falsy, str_or_nonempty.
Qed.

Lemma profile_update_keeps_falsy_fields_witness :
  auth 2 sample = Some bob
  ∧ ∃ updated,
      users (Users.update_profile 2 bob
               (Users.mkProfileBody (Some "") None (Some "bob@new.edu") None (Some "") (Some ""))
               None sample).1 !! 2%N = Some updated
      ∧ User.bio updated = "hi" ∧ User.fullName updated = "Bob B"
      ∧ User.email updated = "bob@new.edu".
Proof.
  split; [reflexivity|].
  destruct (profile_update_keeps_falsy_fields 2 bob
              (Users.mkProfileBody (Some "") None (Some "bob@new.edu") None (Some "") (Some ""))
              None sample eq_refl) as (updated & Hlookup & Hfields).
  exists updated. split; [exact Hlookup|].
  vm_compute in Hlookup. injection Hlookup as <-. done.
Defined.

(** ** Single-post fetch *)

Lemma get_post_found (caller : option N) (postId : N) (p : Post.t) (db : DB) :
  posts db !! postId = Some p →
  Posts.get_post caller postId db
  = (set_posts (insert postId (Post.with_views Js.add_one p)) db,
     Posts.mkPostReply 200 (Some (Post.with_views Js.add_one p))).
Proof. intros Hp. unfold Posts.get_post. by rewrite Hp. Qed.

Lemma get_post_missing (caller : option N) (postId : N) (db : DB) :
  posts db !! postId = None →
  Posts.get_post caller postId db = (db, Posts.mkPostReply 404 None).
Proof. intros Hp. unfold Posts.get_post. by rewrite Hp. Qed.

(** The counter after one fetch: one more below [2^53], the same at [2^53]. *)
Lemma add_one_capped (v : N) : (v ≤ 2 ^ 53)%N → Js.add_one v = N.min (v + 1) (2 ^ 53).
Proof.
  intros Hv. destruct (decide (v = 2 ^ 53)%N) as [->|Hlt]; [by vm_compute|].
  rewrite add_one_below by lia. lia.
Qed.

Lemma fetch_all_views (callers : list (option N)) (postId : N) (p : Post.t) (db : DB) :
  posts db !! postId = Some p → (Post.views p ≤ 2 ^ 53)%N →
  Post.views <$> posts (fetch_all callers postId db) !! postId
  = Some (N.min (Post.views p + N.of_nat (length callers)) (2 ^ 53)).
Proof.
  revert p db. induction callers as [|c cs IH]; intros p db Hp Hv.
  - simpl. rewrite Hp. simpl. f_equal. lia.
  - cbn [fetch_all]. rewrite (get_post_found c postId p db Hp). cbn [fst].
    erewrite IH; [|simpl; apply lookup_insert_eq|]; simpl;
      rewrite add_one_capped by done; [f_equal|]; lia.
Qed.

(** C3, as amended.  For an identifier with no post, [GET /:postId] answers
    404 and leaves the store as it is.  For an existing post and any caller,
    signed in or not, it answers 200 with the post as stored afterwards and
    changes nothing in the store but that post's [views]; the store and the
    response do not depend on who asked.  While [views] is below [2^53] the
    fetch adds exactly one to it; at [2^53] the fetch leaves it as it is; so
    after any number of fetches a counter that was at most [2^53] has grown by
    that number, or up to [2^53], and has never gone down. *)
Theorem get_post_increments_views (db : DB) (caller : option N) :
  (∀ postId, posts db !! postId = None →
     Posts.get_post caller postId db = (db, Posts.mkPostReply 404 None))
  ∧ (∀ postId p, posts db !! postId = Some p →
       let fetched := Posts.get_post caller postId db in
       Posts.p_status fetched.2 = 200%nat
       ∧ (∃ p', posts fetched.1 !! postId = Some p'
            ∧ Posts.p_post fetched.2 = Some p'
            ∧ Post.with_views (λ _, 0%N) p' = Post.with_views (λ _, 0%N) p
            ∧ ((Post.views p < 2 ^ 53)%N → Post.views p' = (Post.views p + 1)%N)
            ∧ (Post.views p = (2 ^ 53)%N → Post.views p' = Post.views p))
       ∧ (∀ other, other ≠ postId → posts fetched.1 !! other = posts db !! other)
       ∧ users fetched.1 = users db
       ∧ comments fetched.1 = comments db
       ∧ fetched = Posts.get_post None postId db
       ∧ (∀ callers, (Post.views p ≤ 2 ^ 53)%N →
            ∃ v, Post.views <$> posts (fetch_all callers postId db) !! postId = Some v
              ∧ v = N.min (Post.views p + N.of_nat (length callers)) (2 ^ 53)
              ∧ (Post.views p ≤ v)%N)).
Proof.
  split; [intros postId Hmissing; by apply get_post_missing|].
  intros postId p Hp fetched. subst fetched.
  rewrite !(get_post_found _ postId p db Hp). cbn [fst snd Posts.p_status Posts.p_post].
  split_and!; [done| | |done|done|done|].
  - exists (Post.with_views Js.add_one p). split_and!; [|done|done| |].
    + simpl. apply lookup_insert_eq.
    + intros Hbelow. simpl. by apply add_one_below.
    + intros Hlimit. simpl. rewrite Hlimit. apply add_one_at_limit.
  - intros other Hne. simpl. by apply lookup_insert_ne.
  - intros callers Hv. eexists. split; [by apply fetch_all_views|]. split; [done|lia].
Qed.

(** C3, as stated, fails at the largest count a JavaScript number can be
    stepped up to one by one: in the store [saturated], whose post 10 has
    been viewed [2^53] times, a fetch is answered 200 and the counter it
    leaves is the counter it found. *)
Lemma views_stay_at_the_limit :
  Post.views <$> posts saturated !! 10%N = Some (2 ^ 53)%N
  ∧ Posts.p_status (Posts.get_post None 10 saturated).2 = 200%nat
  ∧ Post.views <$> posts (Posts.get_post None 10 saturated).1 !! 10%N = Some (2 ^ 53)%N
  ∧ Post.views <$> posts (Posts.get_post None 10 saturated).1 !! 10%N
    ≠ Some (2 ^ 53 + 1)%N.
Proof. split_and!; [done|done|by vm_compute|by vm_compute]. Qed.

Lemma get_post_increments_views_witness :
  Posts.get_post (Some 2%N) 10 (mkDB ∅ ∅ ∅) = (mkDB ∅ ∅ ∅, Posts.mkPostReply 404 None)
  ∧ posts sample !! 10%N = Some public_note
  ∧ Post.views <$> posts (Posts.get_post (Some 2%N) 10 sample).1 !! 10%N = Some 8%N
  ∧ Post.views <$> posts (fetch_all [None; Some 3%N; None] 10 sample) !! 10%N = Some 10%N.
Proof.
  split; [by apply (get_post_increments_views (mkDB ∅ ∅ ∅) (Some 2%N))|].
  split; [reflexivity|].
  destruct (get_post_increments_views sample (Some 2%N)) as [_ Hfound].
  destruct (Hfound 10%N public_note eq_refl)
    as (_ & (p' & Hp' & _ & _ & Hone & _) & _ & _ & _ & _ & Hmany).
  split.
  - rewrite Hp'. simpl. f_equal. by apply Hone.
  - destruct (Hmany [None; Some 3%N; None]) as (v & -> & -> & _); by vm_compute.
Defined.

(** ** Like toggles *)

Lemma toggled_twice (me : N) (l : list N) (r1 r2 : Posts.like_reply) :
  Posts.liked r1 = Some (negb (Mongo.includes me l)) →
  Posts.liked r2 = Some (negb (Mongo.includes me (toggled me l))) →
  like_toggles me l (toggled me l) (toggled me (toggled me l)) r1 r2.
Proof.
  intros Hr1 Hr2. unfold toggled in *.
  destruct (Mongo.includes me l) eqn:Hin.
  - apply includes_true in Hin as Hmem.
    assert (Mongo.includes me (Mongo.pull me l) = false) as Hout.
    { apply includes_false. rewrite elem_of_pull. tauto. }
    rewrite Hout in *. unfold like_toggles. split_and!.
    + intros Hnot. by destruct Hnot.
    + intros _. split_and!; try done. rewrite elem_of_pull. tauto.
    + rewrite occurrences_pull, decide_True by done. lia.
    + rewrite occurrences_push, occurrences_pull, !decide_True by done. lia.
    + intros u Hu. rewrite occurrences_push, !occurrences_pull.
      rewrite !decide_False by congruence. lia.
  - apply includes_false in Hin as Hmem.
    assert (Mongo.includes me (Mongo.push me l) = true) as Hnow.
    { apply includes_true. rewrite elem_of_push. by right. }
    rewrite Hnow in *.
    assert (occurrences me l = 0%nat) as Hzero by by apply occurrences_absent.
    unfold like_toggles. split_and!.
    + intros _. split_and!; try done.
      * rewrite occurrences_push, decide_True by done. lia.
      * by apply pull_push_absent.
    + intros Hyes. by destruct Hmem.
    + rewrite occurrences_push, decide_True by done. lia.
    + rewrite pull_push_absent by done. lia.
    + intros u Hu. rewrite occurrences_pull, !occurrences_push.
      rewrite !decide_False by congruence. lia.
Qed.

Lemma posts_like_found (me postId : N) (p : Post.t) (db : DB) :
  posts db !! postId = Some p →
  posts (Posts.like me postId db).1 !! postId = Some (Post.with_likes (toggled me) p)
  ∧ Posts.liked (Posts.like me postId db).2 = Some (negb (Mongo.includes me (Post.likes p)))
  ∧ Posts.l_status (Posts.like me postId db).2 = 200%nat.
Proof.
  intros Hp. unfold Posts.like, toggled. rewrite Hp. cbn zeta.
  destruct (Mongo.includes me (Post.likes p)) eqn:Hin; simpl;
    unfold Mongo.findByIdAndUpdate; rewrite lookup_alter_eq, Hp; simpl;
    unfold Post.with_likes; by rewrite Hin.
Qed.

Lemma comments_like_found (me commentId : N) (c : Comment.t) (db : DB) :
  comments db !! commentId = Some c →
  comments (Comments.like me commentId db).1 !! commentId
  = Some (Comment.with_likes (toggled me) c)
  ∧ Posts.liked (Comments.like me commentId db).2
    = Some (negb (Mongo.includes me (Comment.likes c)))
  ∧ Posts.l_status (Comments.like me commentId db).2 = 200%nat.
Proof.
  intros Hc. unfold Comments.like, toggled. rewrite Hc. cbn zeta.
  destruct (Mongo.includes me (Comment.likes c)) eqn:Hin; simpl;
    unfold Mongo.findByIdAndUpdate; rewrite lookup_alter_eq, Hc; simpl;
    unfold Comment.with_likes; by rewrite Hin.
Qed.

(** C4.  For any signed-in caller, on every existing post and on every
    existing comment, whatever else the store holds: a like call answers 200
    and toggles the caller's identifier in the likes array (absent: appended
    once, [liked: true]; present: removed, [liked: false]), and a second call
    right after the first undoes it, so the caller's identifier is never in
    the array twice. *)
Theorem like_is_a_toggle (db : DB) (me : N) :
  (∀ postId p, posts db !! postId = Some p →
     let once := Posts.like me postId db in
     let twice := Posts.like me postId once.1 in
     ∃ p1 p2,
       posts once.1 !! postId = Some p1 ∧ posts twice.1 !! postId = Some p2
       ∧ Posts.l_status once.2 = 200%nat ∧ Posts.l_status twice.2 = 200%nat
       ∧ like_toggles me (Post.likes p) (Post.likes p1) (Post.likes p2) once.2 twice.2)
  ∧ (∀ commentId c, comments db !! commentId = Some c →
     let c_once := Comments.like me commentId db in
     let c_twice := Comments.like me commentId c_once.1 in
     ∃ c1 c2,
       comments c_once.1 !! commentId = Some c1 ∧ comments c_twice.1 !! commentId = Some c2
       ∧ Posts.l_status c_once.2 = 200%nat ∧ Posts.l_status c_twice.2 = 200%nat
       ∧ like_toggles me (Comment.likes c) (Comment.likes c1) (Comment.likes c2)
           c_once.2 c_twice.2).
Proof.
  split.
  - intros postId p Hp once twice.
    destruct (posts_like_found me postId p db Hp) as (Hp1 & Hr1 & Hs1).
    destruct (posts_like_found me postId _ once.1 Hp1) as (Hp2 & Hr2 & Hs2).
    eexists _, _. split_and!; [exact Hp1|exact Hp2|exact Hs1|exact Hs2|].
    by apply toggled_twice.
  - intros commentId c Hc c_once c_twice.
    destruct (comments_like_found me commentId c db Hc) as (Hc1 & Hr1 & Hs1).
    destruct (comments_like_found me commentId _ c_once.1 Hc1) as (Hc2 & Hr2 & Hs2).
    eexists _, _. split_and!; [exact Hc1|exact Hc2|exact Hs1|exact Hs2|].
    by apply toggled_twice.
Qed.

(** The post half in a store with no comment at all, the comment half in
    the sample store. *)
Lemma like_is_a_toggle_witness :
  posts (mkDB ∅ (posts sample) ∅) !! 10%N = Some public_note
  ∧ comments sample !! 21%N = Some carols_reply
  ∧ Post.likes <$> posts (Posts.like 3 10 (mkDB ∅ (posts sample) ∅)).1 !! 10%N
    = Some [2%N; 3%N]
  ∧ Post.likes <$>
      posts (Posts.like 3 10 (Posts.like 3 10 (mkDB ∅ (posts sample) ∅)).1).1 !! 10%N
    = Some [2%N]
  ∧ Comment.likes <$> comments (Comments.like 2 21 sample).1 !! 21%N = Some []
  ∧ Comment.likes <$> comments (Comments.like 2 21 (Comments.like 2 21 sample).1).1 !! 21%N
    = Some [2%N].
Proof.
  split; [reflexivity|]. split; [reflexivity|].
  destruct (like_is_a_toggle (mkDB ∅ (posts sample) ∅) 3) as [Hposts _].
  destruct (Hposts 10%N public_note eq_refl)
    as (p1 & p2 & Hp1 & Hp2 & _ & _ & Habsent & _).
  destruct Habsent as (Hafter1 & _ & _ & Hafter2 & _).
  { apply (bool_decide_unpack _). vm_compute. exact I. }
  destruct (like_is_a_toggle sample 2) as [_ Hcomments].
  destruct (Hcomments 21%N carols_reply eq_refl)
    as (c1 & c2 & Hc1 & Hc2 & _ & _ & _ & Hpresent & _).
  destruct Hpresent as (Hgone & _ & _ & Hback & _).
  { apply (bool_decide_unpack _). vm_compute. exact I. }
  rewrite Hp1, Hp2, Hc1, Hc2. simpl. rewrite Hafter1, Hafter2, Hback, Hgone.
  split_and!; reflexivity.
Defined.

(** ** Deleting a comment *)

Lemma comments_delete_ok (me commentId : N) (c : Comment.t) (db : DB) :
  comments db !! commentId = Some c → Comment.author c = me →
  Comments.delete me commentId db
  = (cascade (Comment.post c) commentId (Comment.parentComment c) db,
     mkReply 200 "Comment deleted successfully").
Proof.
  intros Hc Hme. unfold Comments.delete. rewrite Hc.
  rewrite decide_False by (intros Hne; by apply Hne).
  unfold cascade. by destruct (Comment.parentComment c).
Qed.

Lemma posts_delete_comment_ok (me postId commentId : N) (c : Comment.t) (db : DB) :
  comments db !! commentId = Some c → Comment.author c = me →
  Posts.delete_comment me postId commentId db
  = (cascade postId commentId (Comment.parentComment c) db,
     mkReply 200 "Comment deleted successfully").
Proof.
  intros Hc Hme. unfold Posts.delete_comment. rewrite Hc.
  rewrite decide_False by (intros Hne; by apply Hne).
  unfold cascade. by destruct (Comment.parentComment c).
Qed.

(** The two delete routes agree when the path names the comment's post. *)
Lemma delete_comment_same_post (me commentId : N) (c : Comment.t) (db : DB) :
  comments db !! commentId = Some c →
  Posts.delete_comment me (Comment.post c) commentId db = Comments.delete me commentId db.
Proof.
  intros Hc. unfold Posts.delete_comment, Comments.delete. by rewrite Hc.
Qed.

(** Pulling an identifier from a parent's replies changes no [parentComment]. *)
Lemma lookup_detached (parent : option N) (commentId k : N) (cs : gmap N Comment.t) :
  Comment.parentComment <$>
    (match parent with
     | Some par => Mongo.findByIdAndUpdate par
                     (Comment.with_replies (Mongo.pull commentId)) cs
     | None => cs
     end) !! k
  = Comment.parentComment <$> cs !! k.
Proof.
  destruct parent as [par|]; [|done].
  unfold Mongo.findByIdAndUpdate. rewrite lookup_alter.
  case_decide; [subst|done]. by destruct (cs !! k).
Qed.

(** The comment and every reply to it are gone after the cascade. *)
Lemma cascade_deletes (postId commentId : N) (parent : option N) (db : DB) (r : N) (rc : Comment.t) :
  comments db !! r = Some rc →
  r = commentId ∨ Comment.parentComment rc = Some commentId →
  comments (cascade postId commentId parent db) !! r = None.
Proof.
  intros Hr Hwhich. unfold cascade, Mongo.findByIdAndDelete, Mongo.deleteMany. simpl.
  destruct (decide (r = commentId)) as [->|Hne]; [by apply lookup_delete_eq|].
  destruct Hwhich as [?|Hparent]; [done|].
  rewrite lookup_delete_ne by done.
  apply map_lookup_filter_None. right. intros rc' Hrc'. simpl.
  pose proof (lookup_detached parent commentId r (comments db)) as Hsame.
  rewrite Hrc', Hr in Hsame. simpl in Hsame.
  unfold Posts.reply_to. rewrite bool_decide_eq_false. intros Hno. apply Hno.
  injection Hsame as ->. done.
Qed.

(** Every other comment stays; only the parent's reply list loses the
    identifier. *)
Lemma cascade_keeps (postId commentId : N) (parent : option N) (db : DB) (k : N) (kc : Comment.t) :
  comments db !! k = Some kc → k ≠ commentId →
  Comment.parentComment kc ≠ Some commentId →
  comments (cascade postId commentId parent db) !! k
  = Some (if decide (parent = Some k)
          then Comment.with_replies (Mongo.pull commentId) kc else kc).
Proof.
  intros Hk Hne Hparent. unfold cascade, Mongo.findByIdAndDelete, Mongo.deleteMany. simpl.
  rewrite lookup_delete_ne by done.
  apply map_lookup_filter_Some. split.
  - destruct parent as [par|].
    + unfold Mongo.findByIdAndUpdate. rewrite lookup_alter.
      destruct (decide (par = k)) as [->|Hpar].
      * rewrite Hk. by rewrite decide_True.
      * rewrite Hk. rewrite decide_False; [done|congruence].
    + by rewrite decide_False.
  - simpl. unfold Posts.reply_to. apply bool_decide_eq_false.
    by case_decide.
Qed.

(** The post named by the request loses exactly the occurrences of the
    identifier; every other post is untouched. *)
Lemma cascade_posts (postId commentId : N) (parent : option N) (db : DB) (k : N) :
  posts (cascade postId commentId parent db) !! k
  = (if decide (k = postId) then Post.with_comments (Mongo.pull commentId) else id)
      <$> posts db !! k.
Proof.
  unfold cascade, Mongo.findByIdAndUpdate. simpl. rewrite lookup_alter.
  repeat case_decide; simplify_eq; try done. by destruct (posts db !! k).
Qed.

(** [DELETE /comments/:commentId] by the author does what the data model
    asks: the comment and all its replies are deleted, the identifier leaves
    the comment list of the comment's post, and it is in no reply list of the
    parent that remains. *)
Lemma comments_delete_cascades (db : DB) (me commentId : N) (c : Comment.t) :
  comments db !! commentId = Some c → Comment.author c = me →
  let db' := (Comments.delete me commentId db).1 in
  comments db' !! commentId = None
  ∧ (∀ r rc, comments db !! r = Some rc →
       Comment.parentComment rc = Some commentId → comments db' !! r = None)
  ∧ (∀ p', posts db' !! Comment.post c = Some p' → commentId ∉ Post.comments p')
  ∧ (∀ par pc', Comment.parentComment c = Some par →
       comments db' !! par = Some pc' → commentId ∉ Comment.replies pc')
  ∧ (∀ k, is_Some (comments db' !! k) ↔
       ∃ kc, comments db !! k = Some kc ∧ k ≠ commentId
             ∧ Comment.parentComment kc ≠ Some commentId).
Proof.
  intros Hc Hme db'. subst db'. rewrite (comments_delete_ok me commentId c db Hc Hme).
  cbn [fst]. split_and!.
  - eapply cascade_deletes; eauto.
  - intros r rc Hr Hparent. eapply cascade_deletes; eauto.
  - intros p'. rewrite cascade_posts, decide_True by done.
    destruct (posts db !! Comment.post c) as [p|]; [|done]. intros [= <-]. simpl.
    rewrite elem_of_pull. tauto.
  - intros par pc' Hpar Hpc'.
    destruct (comments db !! par) as [pc|] eqn:Hold.
    + destruct (decide (par = commentId)) as [->|Hne].
      { erewrite cascade_deletes in Hpc'; eauto. done. }
      destruct (decide (Comment.parentComment pc = Some commentId)) as [Hcyc|Hnocyc].
      { erewrite cascade_deletes in Hpc'; eauto. done. }
      rewrite (cascade_keeps _ _ _ _ par pc Hold Hne Hnocyc) in Hpc'.
      rewrite Hpar, decide_True in Hpc' by done. injection Hpc' as <-. simpl.
      rewrite elem_of_pull. tauto.
    + exfalso. unfold cascade, Mongo.findByIdAndDelete, Mongo.deleteMany in Hpc'.
      simpl in Hpc'. rewrite Hpar in Hpc'.
      apply lookup_delete_Some in Hpc' as [_ Hpc'].
      apply map_lookup_filter_Some in Hpc' as [Hpc' _].
      unfold Mongo.findByIdAndUpdate in Hpc'.
      rewrite lookup_alter_eq, Hold in Hpc'. done.
  - intros k. split.
    + intros Hsome. destruct (comments db !! k) as [kc|] eqn:Hk.
      * exists kc. split; [done|]. split.
        -- intros ->. erewrite cascade_deletes in Hsome; eauto. by destruct Hsome.
        -- intros Hparent. erewrite cascade_deletes in Hsome; eauto. by destruct Hsome.
      * exfalso. destruct Hsome as [kc' Hkc'].
        unfold cascade, Mongo.findByIdAndDelete, Mongo.deleteMany in Hkc'. simpl in Hkc'.
        apply lookup_delete_Some in Hkc' as [_ Hkc'].
        apply map_lookup_filter_Some in Hkc' as [Hkc' _].
        pose proof (lookup_detached (Comment.parentComment c) commentId k (comments db)) as Hsame.
        rewrite Hkc', Hk in Hsame. done.
    + intros (kc & Hk & Hne & Hparent). erewrite cascade_keeps; eauto.
Qed.

(** When the path of [DELETE /posts/:postId/comments/:commentId] names a post
    other than the comment's, the comment is deleted and its post's comment
    list is left as it was. *)
Lemma delete_comment_other_post (db : DB) (me postId commentId : N) (c : Comment.t) :
  comments db !! commentId = Some c → Comment.author c = me →
  postId ≠ Comment.post c →
  let db' := (Posts.delete_comment me postId commentId db).1 in
  comments db' !! commentId = None
  ∧ posts db' !! Comment.post c = posts db !! Comment.post c.
Proof.
  intros Hc Hme Hne db'. subst db'.
  rewrite (posts_delete_comment_ok me postId commentId c db Hc Hme). cbn [fst]. split.
  - eapply cascade_deletes; eauto.
  - rewrite cascade_posts, decide_False by congruence. by destruct (posts db !! _).
Qed.

(** C5, on [router.delete('/:postId/comments/:commentId')].  Bob deletes his
    comment 20, which belongs to post 10 and has the reply 21, through the path
    of post 11: the answer is 200, the comment and its reply are deleted, and
    post 10 still lists the comment's identifier. *)
Theorem delete_comment_leaves_id_in_its_post :
  comments sample !! 20%N = Some bobs_comment
  ∧ Comment.author bobs_comment = 2%N
  ∧ Comment.post bobs_comment = 10%N
  ∧ (Posts.delete_comment 2 11 20 sample).2 = mkReply 200 "Comment deleted successfully"
  ∧ comments (Posts.delete_comment 2 11 20 sample).1 !! 20%N = None
  ∧ comments (Posts.delete_comment 2 11 20 sample).1 !! 21%N = None
  ∧ Post.comments <$> posts (Posts.delete_comment 2 11 20 sample).1 !! 10%N
    = Some [20%N; 21%N]
  ∧ Post.comments <$> posts (Comments.delete 2 20 sample).1 !! 10%N = Some [21%N].
Proof. vm_compute. by split_and!. Qed.

(** ** Creating a reply *)

Lemma comments_create_reply (db : DB) (me newId : N) (now : N) (content : string)
    (postId parent : N) (p : Post.t) (pc : Comment.t) :
  content ≠ "" → (String.length content ≤ 1000)%nat →
  posts db !! postId = Some p → comments db !! parent = Some pc →
  comments db !! newId = None →
  Comments.create me newId now content postId (Some parent) db
  = (mkDB (users db)
       (Mongo.findByIdAndUpdate postId (Post.with_comments (Mongo.push newId)) (posts db))
       (Mongo.findByIdAndUpdate parent (Comment.with_replies (Mongo.push newId))
          (<[newId := Comment.mk me postId (Some parent) content [] [] now]> (comments db))),
     mkReply 201 "Comment created successfully").
Proof.
  intros Hne Hlen Hp Hpc Hfresh. unfold Comments.create.
  rewrite decide_False by done. rewrite decide_False by lia.
  rewrite Hp, Hpc. rewrite bool_decide_eq_false_2 by done. by rewrite Hfresh.
Qed.

(** C9.  [DELETE /comments/:commentId] by the author, for a comment whose
    post exists: the post's comment list afterwards is the old list without
    the occurrences of the comment's own identifier and nothing else is taken
    from it, no other post changes, and every reply to the comment that the
    list held is still in it although its document is deleted.  Creating a
    reply does append the reply's identifier to the post's comment list, so a
    reply created and then orphaned by the deletion of its parent leaves a
    dangling identifier there. *)
Theorem delete_leaves_reply_ids_in_post (db : DB) (me commentId : N) (c : Comment.t)
    (p : Post.t) :
  comments db !! commentId = Some c → Comment.author c = me →
  posts db !! Comment.post c = Some p →
  let db' := (Comments.delete me commentId db).1 in
  (Comments.delete me commentId db).2 = mkReply 200 "Comment deleted successfully"
  ∧ Post.comments <$> posts db' !! Comment.post c
    = Some (filter (λ x, x ≠ commentId) (Post.comments p))
  ∧ (∀ x, x ≠ commentId →
       occurrences x (filter (λ x, x ≠ commentId) (Post.comments p))
       = occurrences x (Post.comments p))
  ∧ (∀ other, other ≠ Comment.post c → posts db' !! other = posts db !! other)
  ∧ (∀ r rc, comments db !! r = Some rc → Comment.parentComment rc = Some commentId →
       r ≠ commentId → r ∈ Post.comments p →
       comments db' !! r = None
       ∧ r ∈ filter (λ x, x ≠ commentId) (Post.comments p))
  ∧ (∀ replier newId now content,
       content ≠ "" → (String.length content ≤ 1000)%nat →
       comments db !! newId = None →
       let created := Comments.create replier newId now content (Comment.post c)
                        (Some commentId) db in
       let deleted := Comments.delete me commentId created.1 in
       created.2 = mkReply 201 "Comment created successfully"
       ∧ Post.comments <$> posts created.1 !! Comment.post c
         = Some (Post.comments p ++ [newId])%list
       ∧ deleted.2 = mkReply 200 "Comment deleted successfully"
       ∧ comments deleted.1 !! newId = None
       ∧ ∃ p', posts deleted.1 !! Comment.post c = Some p' ∧ newId ∈ Post.comments p').
Proof.
  intros Hc Hme Hp db'. subst db'.
  rewrite (comments_delete_ok me commentId c db Hc Hme). cbn [fst snd].
  split_and!.
  - done.
  - rewrite cascade_posts, decide_True, Hp by done. done.
  - intros x Hx. change (filter (λ x0, x0 ≠ commentId) (Post.comments p))
      with (Mongo.pull commentId (Post.comments p)).
    rewrite occurrences_pull. by rewrite decide_False by congruence.
  - intros other Hother. rewrite cascade_posts, decide_False by done.
    by destruct (posts db !! other).
  - intros r rc Hr Hparent Hne Hin. split.
    + eapply cascade_deletes; eauto.
    + apply list_elem_of_filter. done.
  - intros replier newId now content Hcontent Hlen Hfresh.
    assert (newId ≠ commentId) as Hnew by (intros ->; congruence).
    rewrite (comments_create_reply db replier newId now content _ commentId p c)
      by done.
    cbn [fst snd].
    match goal with |- context [Comments.delete me commentId ?d] => set (db1 := d) end.
    assert (comments db1 !! commentId
            = Some (Comment.with_replies (Mongo.push newId) c)) as Hc1.
    { unfold db1, Mongo.findByIdAndUpdate. simpl.
      rewrite lookup_alter_eq, lookup_insert_ne, Hc by done. done. }
    assert (comments db1 !! newId
            = Some (Comment.mk replier (Comment.post c) (Some commentId) content [] [] now))
      as Hreply.
    { unfold db1, Mongo.findByIdAndUpdate. simpl.
      rewrite lookup_alter_ne, lookup_insert_eq by done. done. }
    assert (posts db1 !! Comment.post c
            = Some (Post.with_comments (Mongo.push newId) p)) as Hp1.
    { unfold db1, Mongo.findByIdAndUpdate. simpl. by rewrite lookup_alter_eq, Hp. }
    rewrite (comments_delete_ok me commentId _ db1 Hc1) by done.
    cbn [fst snd Comment.post Comment.parentComment Comment.with_replies].
    split_and!.
    + done.
    + by rewrite Hp1.
    + done.
    + eapply cascade_deletes; eauto.
    + eexists. split.
      * rewrite cascade_posts, decide_True, Hp1 by done. done.
      * simpl. rewrite elem_of_pull, elem_of_push. split; [done|by right].
Qed.

Lemma delete_leaves_reply_ids_in_post_witness :
  comments sample !! 20%N = Some bobs_comment
  ∧ comments sample !! 21%N = Some carols_reply
  ∧ comments (Comments.delete 2 20 sample).1 !! 21%N = None
  ∧ Post.comments <$> posts (Comments.delete 2 20 sample).1 !! 10%N = Some [21%N].
Proof.
  split; [reflexivity|]. split; [reflexivity|].
  destruct (delete_leaves_reply_ids_in_post sample 2 20 bobs_comment public_note
              eq_refl eq_refl eq_refl) as (_ & Hlist & _ & _ & Hreplies & _).
  split.
  - apply (Hreplies 21%N carols_reply); [reflexivity|reflexivity|done|].
    apply (bool_decide_unpack _). vm_compute. exact I.
  - exact Hlist.
Defined.

(** ** Pagination *)

Lemma ceil_div_bounds (total limit : Z) :
  0 < limit → (ceil_div total limit - 1) * limit < total ≤ ceil_div total limit * limit.
Proof.
  intros Hlimit. unfold ceil_div.
  pose proof (Z.div_mod (- total) limit) as Hdm.
  pose proof (Z.mod_pos_bound (- total) limit Hlimit) as Hmod. lia.
Qed.

(** [Math.ceil(total / limit)] is the ceiling, whatever the sign of [limit]. *)
Lemma ceil_div_is_ceiling (total limit : Z) :
  limit ≠ 0 → is_ceiling total limit (ceil_div total limit).
Proof.
  intros Hlimit. unfold is_ceiling, ceil_div.
  pose proof (Z.div_mod (- total) limit) as Hdm.
  destruct (Z.lt_trichotomy limit 0) as [Hneg|[?|Hpos]]; [|done|].
  - pose proof (Z.mod_neg_bound (- total) limit Hneg) as Hmod.
    rewrite Z.sgn_neg, Z.abs_neq by lia. lia.
  - pose proof (Z.mod_pos_bound (- total) limit Hpos) as Hmod.
    rewrite Z.sgn_pos, Z.abs_eq by lia. lia.
Qed.

Lemma ceil_div_nonneg (total limit : Z) : 0 < limit → 0 ≤ total → 0 ≤ ceil_div total limit.
Proof. intros Hlimit Htotal. pose proof (ceil_div_bounds total limit Hlimit). nia. Qed.

(** The first [k] pages of [n] documents, one after the other, are the first
    [k * n] documents. *)
Lemma concat_pages {A} (n k : nat) (l : list A) :
  concat ((λ i, take n (drop (i * n) l)) <$> seq 0 k) = take (k * n) l.
Proof.
  induction k as [|k IH]; [done|].
  rewrite seq_S, fmap_app, concat_app, IH. simpl. rewrite app_nil_r.
  rewrite take_take_drop. f_equal. lia.
Qed.

Lemma int_param_page (p : Z) : 1 ≤ p → int_param (Some p) 1 = p.
Proof. intros Hp. unfold int_param. rewrite decide_False; [done|lia]. Qed.

Lemma paginate_page {A} (p limit total : Z) (matched : list (N * A)) :
  0 < limit → 1 ≤ p →
  paginate p limit matched total
  = (200%nat,
     Some (mkListing (take (Z.to_nat limit) (drop (Z.to_nat (p - 1) * Z.to_nat limit) matched))
             (mkPagination p limit total (ceil_div total limit)))).
Proof.
  intros Hlimit Hp. unfold paginate, Mongo.skip_limit.
  rewrite decide_False by nia. do 4 f_equal.
  - rewrite Zabs2Nat.abs_nat_nonneg by lia. done.
  - f_equal. rewrite Z2Nat.inj_mul by lia. done.
Qed.

Lemma all_pages_paginate {A} (limit : Z) (matched : list (N * A))
    (fetch : Z → nat * option (listing A)) :
  0 < limit →
  (∀ p, 1 ≤ p → fetch p = paginate p limit matched (Z.of_nat (length matched))) →
  all_pages fetch (ceil_div (Z.of_nat (length matched)) limit) = matched.
Proof.
  intros Hlimit Hfetch. unfold all_pages.
  set (total := Z.of_nat (length matched)).
  pose proof (ceil_div_bounds total limit Hlimit) as Hbounds.
  pose proof (ceil_div_nonneg total limit Hlimit ltac:(lia)) as Hpages.
  unfold seqZ. rewrite <- list_fmap_compose.
  rewrite (list_fmap_ext _ (λ i, take (Z.to_nat limit) (drop (i * Z.to_nat limit) matched))
             (seq 0 (Z.to_nat (ceil_div total limit))) ).
  - rewrite concat_pages. apply take_ge. subst total. nia.
  - intros i x _. simpl. rewrite Hfetch by lia. rewrite paginate_page by lia. simpl.
    do 3 f_equal. lia.
Qed.

(** The result of a [find]: the matching documents of the collection, each
    once. *)
Lemma elem_of_matching {A} (cond : A → bool) (coll : gmap N A) (i : N) (d : A) :
  (i, d) ∈ filter (λ kv : N * A, cond kv.2 = true) (map_to_list coll)
  ↔ coll !! i = Some d ∧ cond d = true.
Proof. rewrite list_elem_of_filter, elem_of_map_to_list. simpl. tauto. Qed.

Lemma NoDup_matching_ids {A} (cond : A → bool) (coll : gmap N A) (l : list (N * A)) :
  l ≡ₚ filter (λ kv : N * A, cond kv.2 = true) (map_to_list coll) → NoDup l.*1.
Proof.
  intros Hperm. apply NoDup_fmap_fst.
  - intros i d1 d2. rewrite !Hperm, !elem_of_matching. intros [H1 _] [H2 _]. congruence.
  - rewrite Hperm. apply NoDup_filter, NoDup_map_to_list.
Qed.

(** Any listing that pages an ordering of the matching documents with a
    positive page size is well paginated. *)
Lemma paginate_well {A} (limit : Z) (cond : A → bool) (coll : gmap N A)
    (matched : list (N * A)) (fetch : Z → nat * option (listing A)) :
  0 < limit →
  matched ≡ₚ filter (λ kv : N * A, cond kv.2 = true) (map_to_list coll) →
  (∀ p, 1 ≤ p → fetch p = paginate p limit matched (Mongo.countDocuments cond coll)) →
  well_paginated limit fetch coll cond.
Proof.
  intros Hlimit Hperm Hfetch.
  assert (Mongo.countDocuments cond coll = Z.of_nat (length matched)) as Hcount.
  { unfold Mongo.countDocuments. by rewrite Hperm. }
  rewrite Hcount in Hfetch.
  exists (Z.of_nat (length matched)), (ceil_div (Z.of_nat (length matched)) limit).
  rewrite (all_pages_paginate limit matched fetch Hlimit Hfetch).
  split_and!.
  - intros p Hp. rewrite Hfetch by done. rewrite paginate_page by done. eauto.
  - apply ceil_div_is_ceiling. lia.
  - done.
  - by eapply NoDup_matching_ids.
  - intros i d. rewrite Hperm. apply elem_of_matching.
Qed.

Lemma find_desc_perm {A} (key : A → N) (cond : A → bool) (coll : gmap N A) :
  Mongo.find_desc key cond coll ≡ₚ filter (λ kv : N * A, cond kv.2 = true) (map_to_list coll).
Proof. unfold Mongo.find_desc. apply merge_sort_Permutation. Qed.

Lemma find_asc_perm {A} (key : A → N) (cond : A → bool) (coll : gmap N A) :
  Mongo.find_asc key cond coll ≡ₚ filter (λ kv : N * A, cond kv.2 = true) (map_to_list coll).
Proof. unfold Mongo.find_asc. apply merge_sort_Permutation. Qed.

(** *** The listing endpoints, one by one *)

Section Listings.
Variable regex : string → option (string → bool).
Variable db : DB.
Variable raw_limit : option Z.
Hypothesis limit_pos : 0 < int_param raw_limit 10.

Lemma list_users_well (search university major : string) (query : User.t → bool) :
  Users.users_query regex search university major = Some query →
  well_paginated (int_param raw_limit 10)
    (λ p, Users.list_users regex (Some p) raw_limit search university major db)
    (users db) query.
Proof.
  intros Hquery.
  apply (paginate_well _ _ _ (Mongo.find_desc User.createdAt query (users db)));
    [done|apply find_desc_perm|].
  intros p Hp. unfold Users.list_users. by rewrite Hquery, int_param_page.
Qed.

Lemma list_posts_well (caller : option N) (type category search : string)
    (author : option N) (query : Post.t → bool) :
  Posts.list_query regex (Posts.mkPostsQuery None raw_limit type category search author)
  = Some query →
  well_paginated (int_param raw_limit 10)
    (λ p, Posts.list_posts regex caller
            (Posts.mkPostsQuery (Some p) raw_limit type category search author) db)
    (posts db) query.
Proof.
  intros Hquery.
  apply (paginate_well _ _ _ (Mongo.find_desc Post.createdAt query (posts db)));
    [done|apply find_desc_perm|].
  intros p Hp. unfold Posts.list_posts.
  change (Posts.list_query regex (Posts.mkPostsQuery (Some p) raw_limit type category search author))
    with (Posts.list_query regex (Posts.mkPostsQuery None raw_limit type category search author)).
  rewrite Hquery. cbn [Posts.q_page Posts.q_limit]. by rewrite int_param_page.
Qed.

Lemma liked_posts_well (me : N) :
  well_paginated (int_param raw_limit 10)
    (λ p, Posts.liked_posts me (Some p) raw_limit db) (posts db) (Posts.liked_query me).
Proof.
  apply (paginate_well _ _ _
           (Mongo.find_desc Post.createdAt (Posts.liked_query me) (posts db)));
    [done|apply find_desc_perm|].
  intros p Hp. unfold Posts.liked_posts. by rewrite int_param_page.
Qed.

Lemma user_posts_well (caller : option N) (userId : string) (author : N) (type : string) :
  ObjectId.cast userId = Some author →
  well_paginated (int_param raw_limit 10)
    (λ p, Posts.user_posts caller userId (Some p) raw_limit type db)
    (posts db) (Posts.user_posts_query caller userId author type).
Proof.
  intros Hcast.
  apply (paginate_well _ _ _
           (Mongo.find_desc Post.createdAt
              (Posts.user_posts_query caller userId author type) (posts db)));
    [done|apply find_desc_perm|].
  intros p Hp. unfold Posts.user_posts. by rewrite Hcast, int_param_page.
Qed.

Lemma post_comments_well (postId : N) :
  well_paginated (int_param raw_limit 10)
    (λ p, Posts.post_comments postId (Some p) raw_limit db)
    (comments db) (Posts.top_level_of postId).
Proof.
  apply (paginate_well _ _ _
           (Mongo.find_desc Comment.createdAt (Posts.top_level_of postId) (comments db)));
    [done|apply find_desc_perm|].
  intros p Hp. unfold Posts.post_comments. by rewrite int_param_page.
Qed.

Lemma list_by_post_well (postId : N) :
  well_paginated (int_param raw_limit 10)
    (λ p, Comments.list_by_post postId (Some p) raw_limit db)
    (comments db) (Posts.top_level_of postId).
Proof.
  apply (paginate_well _ _ _
           (Mongo.find_desc Comment.createdAt (Posts.top_level_of postId) (comments db)));
    [done|apply find_desc_perm|].
  intros p Hp. unfold Comments.list_by_post. by rewrite int_param_page.
Qed.

Lemma list_replies_well (commentId : N) :
  well_paginated (int_param raw_limit 10)
    (λ p, Comments.list_replies commentId (Some p) raw_limit db)
    (comments db) (Posts.reply_to commentId).
Proof.
  apply (paginate_well _ _ _
           (Mongo.find_asc Comment.createdAt (Posts.reply_to commentId) (comments db)));
    [done|apply find_asc_perm|].
  intros p Hp. unfold Comments.list_replies. by rewrite int_param_page.
Qed.

End Listings.

(** C6, as amended.  For a page size that is positive (the default, or a
    positive [limit] parameter) and a fixed store, each of the listings (users,
    posts, liked posts, a user's posts under any path text that names a user,
    the top-level comments of a post on either route, the replies to a
    comment) is well paginated: every page request reports the same total and
    [pages = ceil(total / limit)], and the pages [1 .. pages] together are
    exactly the matching documents, [total] of them, none twice. *)
Theorem listings_well_paginated (regex : string → option (string → bool)) (db : DB)
    (raw_limit : option Z) :
  0 < int_param raw_limit 10 →
  let limit := int_param raw_limit 10 in
  (∀ search university major query,
     Users.users_query regex search university major = Some query →
     well_paginated limit
       (λ p, Users.list_users regex (Some p) raw_limit search university major db)
       (users db) query)
  ∧ (∀ caller type category search author query,
     Posts.list_query regex (Posts.mkPostsQuery None raw_limit type category search author)
     = Some query →
     well_paginated limit
       (λ p, Posts.list_posts regex caller
               (Posts.mkPostsQuery (Some p) raw_limit type category search author) db)
       (posts db) query)
  ∧ (∀ me, well_paginated limit
       (λ p, Posts.liked_posts me (Some p) raw_limit db) (posts db) (Posts.liked_query me))
  ∧ (∀ caller userId author type,
     ObjectId.cast userId = Some author →
     well_paginated limit
       (λ p, Posts.user_posts caller userId (Some p) raw_limit type db)
       (posts db) (Posts.user_posts_query caller userId author type))
  ∧ (∀ postId, well_paginated limit
       (λ p, Posts.post_comments postId (Some p) raw_limit db)
       (comments db) (Posts.top_level_of postId))
  ∧ (∀ postId, well_paginated limit
       (λ p, Comments.list_by_post postId (Some p) raw_limit db)
       (comments db) (Posts.top_level_of postId))
  ∧ (∀ commentId, well_paginated limit
       (λ p, Comments.list_replies commentId (Some p) raw_limit db)
       (comments db) (Posts.reply_to commentId)).
Proof.
  intros Hlimit limit. subst limit. split_and!.
  - intros. by apply list_users_well.
  - intros. by apply list_posts_well.
  - intros. by apply liked_posts_well.
  - intros. by apply user_posts_well.
  - intros. by apply post_comments_well.
  - intros. by apply list_by_post_well.
  - intros. by apply list_replies_well.
Qed.

Lemma listings_well_paginated_witness :
  0 < int_param (Some 1) 10
  ∧ well_paginated 1
      (λ p, Posts.user_posts (Some 1%N) "000000000000000000000001" (Some p) (Some 1) ""
              sample)
      (posts sample)
      (Posts.user_posts_query (Some 1%N) "000000000000000000000001" 1 "")
  ∧ well_paginated 1 (λ p, Comments.list_replies 20 (Some p) (Some 1) sample)
      (comments sample) (Posts.reply_to 20).
Proof.
  assert (0 < int_param (Some 1) 10) as Hlimit by (vm_compute; reflexivity).
  split; [exact Hlimit|].
  pose proof (listings_well_paginated (λ _, None) sample (Some 1) Hlimit) as H.
  split; [by apply H|apply H].
Defined.

(** C6, as stated, fails for a negative page size: [GET
    /comments/post/10?limit=-1] over a post with one top-level comment
    answers 200 with total 1 and pages -1.  That is [ceil(1 / -1)], yet the
    pages [1 .. pages] are no page at all and hold none of the one matching
    document. *)
Lemma negative_limit_not_paginated :
  (Comments.list_by_post 10 (Some 1) (Some (-1)) sample).1 = 200%nat
  ∧ l_pagination <$> (Comments.list_by_post 10 (Some 1) (Some (-1)) sample).2
    = Some (mkPagination 1 (-1) 1 (-1))
  ∧ is_ceiling 1 (-1) (-1)
  ∧ all_pages (λ p, Comments.list_by_post 10 (Some p) (Some (-1)) sample) (-1) = []
  ∧ ¬ well_paginated (int_param (Some (-1)) 10)
        (λ p, Comments.list_by_post 10 (Some p) (Some (-1)) sample)
        (comments sample) (Posts.top_level_of 10).
Proof.
  split_and!.
  - reflexivity.
  - vm_compute. reflexivity.
  - unfold is_ceiling. simpl. lia.
  - reflexivity.
  - intros (total & pages & Hfetch & _ & Hlength & _).
    destruct (Hfetch 1 ltac:(lia)) as [docs Hdocs].
    apply (f_equal (λ r, l_pagination <$> r.2)) in Hdocs.
    vm_compute in Hdocs. injection Hdocs as Htotal Hpages.
    rewrite <- Htotal, <- Hpages in Hlength.
    change (all_pages _ (-1)) with (@nil (N * Comment.t)) in Hlength.
    simpl in Hlength. lia.
Qed.

(** ** Category validation *)

Lemma isIn_true (v : string) (values : list string) : Posts.isIn v values = true ↔ v ∈ values.
Proof. unfold Posts.isIn. apply bool_decide_eq_true. Qed.

(** C7, as stated, fails: no category value passes the update validator and
    fails the create validator, the two route lists being the same. *)
Lemma no_category_passes_update_only :
  ¬ ∃ v : string,
      Posts.update_category_valid (Some v) = true
      ∧ Posts.create_category_valid (Some v) = false.
Proof.
  intros (v & Hupdate & Hcreate).
  change (Posts.update_category_valid (Some v))
    with (Posts.create_category_valid (Some v)) in Hupdate.
  congruence.
Qed.

(** C7, as amended.  The create and the update validators accept the same
    eleven category values; the enumeration that differs is the schema's: it
    holds eight of them, and "study-guide", "tutorial" and
    "research-assistant" are exactly the values the route validators accept
    and the schema refuses.  Only a body with no category at all passes the
    update validator and fails the create validator. *)
Theorem category_enumerations (v : string) :
  Posts.update_category_valid (Some v) = Posts.create_category_valid (Some v)
  ∧ Posts.update_categories = Posts.create_categories
  ∧ length Posts.create_categories = 11%nat
  ∧ length Posts.schema_categories = 8%nat
  ∧ (Posts.schema_category_valid v = true → Posts.create_category_valid (Some v) = true)
  ∧ (Posts.create_category_valid (Some v) = true ∧ Posts.schema_category_valid v = false
     ↔ v ∈ ["study-guide"; "tutorial"; "research-assistant"])
  ∧ Posts.update_category_valid None = true
  ∧ Posts.create_category_valid None = false.
Proof.
  split_and!; try reflexivity.
  - unfold Posts.schema_category_valid. simpl. rewrite !isIn_true.
    unfold Posts.schema_categories, Posts.create_categories.
    rewrite !elem_of_cons, !elem_of_nil. tauto.
  - unfold Posts.schema_category_valid. simpl.
    rewrite isIn_true, <- not_true_iff_false, isIn_true.
    unfold Posts.schema_categories, Posts.create_categories.
    rewrite !elem_of_cons, !elem_of_nil. split.
    + intros [Hroute Hschema]. tauto.
    + intros Hthree. split; [tauto|].
      intros Hschema.
      destruct Hthree as [->|[->|[->|[]]]];
        repeat (destruct Hschema as [Hschema|Hschema]; [discriminate Hschema|]);
        done.
Qed.

(** ** Visibility of listed posts *)

Lemma elem_of_page {A} (p limit total : Z) (matched : list (N * A)) (st : nat)
    (l : listing A) (x : N * A) :
  paginate p limit matched total = (st, Some l) → x ∈ items l → x ∈ matched.
Proof.
  unfold paginate, Mongo.skip_limit. case_decide; [done|].
  intros [= _ <-]. simpl. intros Hx.
  apply (subseteq_drop (Z.to_nat ((p - 1) * limit)) matched).
  by eapply (subseteq_take (Z.abs_nat limit)).
Qed.

Lemma elem_of_find_desc {A} (key : A → N) (cond : A → bool) (coll : gmap N A) (i : N) (d : A) :
  (i, d) ∈ Mongo.find_desc key cond coll ↔ coll !! i = Some d ∧ cond d = true.
Proof. rewrite find_desc_perm. apply elem_of_matching. Qed.

(** Every query [GET /] builds asks for [isPublic: true]. *)
Lemma list_query_public (regex : string → option (string → bool)) (q : Posts.posts_query)
    (query : Post.t → bool) (p : Post.t) :
  Posts.list_query regex q = Some query → query p = true → Post.isPublic p = true.
Proof.
  unfold Posts.list_query. intros Hq.
  destruct (if decide (Posts.q_search q = "") then _ else _) as [s|]; [|done].
  simpl in Hq. injection Hq as <-. rewrite !andb_true_iff. tauto.
Qed.

Lemma user_posts_query_true (caller : option N) (userId : string) (author : N)
    (type : string) (p : Post.t) :
  Posts.user_posts_query caller userId author type p = true
  ↔ Post.author p = author
    ∧ (type = "" ∨ Post.type p = type)
    ∧ (Post.isPublic p = true ∨ ∃ me, caller = Some me ∧ userId = ObjectId.toString me).
Proof.
  unfold Posts.user_posts_query.
  set (others := bool_decide (caller = None)
                 || bool_decide (Some userId ≠ ObjectId.toString <$> caller)).
  assert (others = false ↔ ∃ me, caller = Some me ∧ userId = ObjectId.toString me)
    as Hown.
  { unfold others. rewrite orb_false_iff, !bool_decide_eq_false.
    destruct caller as [me|]; simpl; split.
    - intros [_ Hsame]. exists me. split; [done|].
      destruct (decide (userId = ObjectId.toString me)); [done|].
      destruct Hsame. congruence.
    - intros (me' & [= <-] & ->). split; [done|]. intros Hne. by apply Hne.
    - intros [Hnone _]. by destruct Hnone.
    - by intros (me & [=] & _). }
  rewrite !andb_true_iff, orb_true_iff, !bool_decide_eq_true.
  destruct others.
  - split; [tauto|]. intros (? & ? & [?|Hmine]); [tauto|].
    by apply Hown in Hmine.
  - split; [|tauto]. intros [[? ?] _]. split_and!; [done|done|].
    right. by apply Hown.
Qed.

(** What the two post listings show.  Every post on a page of [GET /] is a
    public post of the store, whoever asks and whatever the query.  Every
    post on a page of [GET /user/:userId] is a post of the user the path
    names and is public, unless the path is the caller's own [toString()].
    A user who asks for their own posts on that path gets the private ones
    too: each of their posts of the asked type is on one of the pages.  On any
    other text that names them they get their public posts only. *)
Lemma listed_posts_are_visible (regex : string → option (string → bool)) (db : DB) :
  (∀ caller q st l i p,
     Posts.list_posts regex caller q db = (st, Some l) → (i, p) ∈ items l →
     posts db !! i = Some p ∧ Post.isPublic p = true)
  ∧ (∀ caller userId raw_page raw_limit type st l i p,
     Posts.user_posts caller userId raw_page raw_limit type db = (st, Some l) →
     (i, p) ∈ items l →
     posts db !! i = Some p ∧ ObjectId.cast userId = Some (Post.author p)
     ∧ (Post.isPublic p = true
        ∨ (caller = Some (Post.author p) ∧ userId = ObjectId.toString (Post.author p))))
  ∧ (∀ me raw_limit type i p,
     0 < int_param raw_limit 10 → ObjectId.valid me →
     posts db !! i = Some p → Post.author p = me →
     type = "" ∨ Post.type p = type →
     ∃ page l, 1 ≤ page
       ∧ Posts.user_posts (Some me) (ObjectId.toString me) (Some page) raw_limit type db
         = (200%nat, Some l)
       ∧ (i, p) ∈ items l)
  ∧ (∀ me userId raw_page raw_limit type st l i p,
     ObjectId.cast userId = Some me → userId ≠ ObjectId.toString me →
     Posts.user_posts (Some me) userId raw_page raw_limit type db = (st, Some l) →
     (i, p) ∈ items l → Post.isPublic p = true).
Proof.
  assert (∀ caller userId raw_page raw_limit type st l i p,
            Posts.user_posts caller userId raw_page raw_limit type db = (st, Some l) →
            (i, p) ∈ items l →
            posts db !! i = Some p ∧ ObjectId.cast userId = Some (Post.author p)
            ∧ (Post.isPublic p = true
               ∨ (caller = Some (Post.author p)
                  ∧ userId = ObjectId.toString (Post.author p)))) as Hsafe.
  { intros caller userId raw_page raw_limit type st l i p Hlist Hin.
    unfold Posts.user_posts in Hlist.
    destruct (ObjectId.cast userId) as [author|] eqn:Hcast; [|done].
    apply (elem_of_page _ _ _ _ _ _ _ Hlist) in Hin.
    apply elem_of_find_desc in Hin as [Hp Hquery].
    apply user_posts_query_true in Hquery as (<- & _ & Hseen).
    split_and!; [done|done|].
    destruct Hseen as [?|(me & -> & ->)]; [by left|right].
    apply cast_toString_inv in Hcast. by subst. }
  split_and!.
  - intros caller q st l i p Hlist Hin. unfold Posts.list_posts in Hlist.
    destruct (Posts.list_query regex q) as [query|] eqn:Hq; [|done].
    apply (elem_of_page _ _ _ _ _ _ _ Hlist) in Hin.
    apply elem_of_find_desc in Hin as [Hp Hquery]. split; [done|].
    by eapply list_query_public.
  - exact Hsafe.
  - intros me raw_limit type i p Hlimit Hvalid Hp Hauthor Htype.
    destruct (user_posts_well db raw_limit Hlimit (Some me) (ObjectId.toString me) me type
                (cast_toString me Hvalid))
      as (total & pages & Hfetch & _ & _ & _ & Hall).
    assert ((i, p) ∈ all_pages
              (λ pg, Posts.user_posts (Some me) (ObjectId.toString me) (Some pg)
                       raw_limit type db) pages) as Hin.
    { apply Hall. split; [done|]. apply user_posts_query_true. eauto 6. }
    unfold all_pages in Hin.
    apply list_elem_of_In, in_concat in Hin as (docs & Hdocs & Hin).
    apply list_elem_of_In in Hdocs, Hin.
    apply list_elem_of_fmap in Hdocs as (page & -> & Hpage).
    apply elem_of_seqZ in Hpage.
    destruct (Hfetch page ltac:(lia)) as [docs Hpg].
    exists page, (mkListing docs (mkPagination page (int_param raw_limit 10) total pages)).
    split; [lia|]. split; [done|]. by rewrite Hpg in Hin.
  - intros me userId raw_page raw_limit type st l i p Hcast Hne Hlist Hin.
    destruct (Hsafe _ _ _ _ _ _ _ _ _ Hlist Hin) as (_ & Hauthor & [?|[_ Heq]]); [done|].
    rewrite Hcast in Hauthor. injection Hauthor as Hauthor.
    rewrite <- Hauthor in Heq. by destruct Hne.
Qed.

(** Alice (1) sees her private note among her own posts; Bob (2) and a
    visitor who is not signed in see her public note only. *)
Example own_posts_include_private :
  (λ l, (items l).*1) <$>
    (Posts.user_posts (Some 1%N) "000000000000000000000001" None None "" sample).2
  = Some [11%N; 10%N]
  ∧ (λ l, (items l).*1) <$>
      (Posts.user_posts (Some 2%N) "000000000000000000000001" None None "" sample).2
    = Some [10%N]
  ∧ (λ l, (items l).*1) <$>
      (Posts.user_posts None "000000000000000000000001" None None "" sample).2
    = Some [10%N]
  ∧ (λ l, (items l).*1) <$>
      (Posts.list_posts (λ _, None) (Some 1%N)
         (Posts.mkPostsQuery None None "" "" "" (Some 1%N)) sample).2
    = Some [10%N].
Proof. vm_compute. by split_and!. Qed.

(** C8.  Whether a caller is viewing their own posts is decided by comparing
    the text of the path with the caller's [toString()], and the text need
    not be spelled that way.  Dana's identifier is written
    [0000000000000000000000da].  Asking for [/user/0000000000000000000000da]
    she gets her private note and her public note, and a visitor gets the
    public one.  Asking for [/user/0000000000000000000000DA], which names her
    as well, she gets what the visitor gets: the answer is 200 with a total
    of one post, and her private note is not on it. *)
Theorem own_private_posts_hidden_by_upper_case_path :
  let lower := "0000000000000000000000da" in
  let upper := "0000000000000000000000DA" in
  let ids := λ r : nat * option (listing Post.t), (λ l, (items l).*1) <$> r.2 in
  ObjectId.toString 0xda = lower
  ∧ ObjectId.cast upper = Some 0xda%N
  ∧ posts lettered !! 0xb2%N = Some dana_private
  ∧ Post.author dana_private = 0xda%N ∧ Post.isPublic dana_private = false
  ∧ ids (Posts.user_posts (Some 0xda%N) lower None None "" lettered)
    = Some [0xb2%N; 0xb1%N]
  ∧ ids (Posts.user_posts None lower None None "" lettered) = Some [0xb1%N]
  ∧ (Posts.user_posts (Some 0xda%N) upper None None "" lettered).1 = 200%nat
  ∧ ids (Posts.user_posts (Some 0xda%N) upper None None "" lettered) = Some [0xb1%N]
  ∧ l_pagination <$> (Posts.user_posts (Some 0xda%N) upper None None "" lettered).2
    = Some (mkPagination 1 10 1 1)
  ∧ (∀ page, (0xb2%N, dana_private)
       ∉ from_option items [] (Posts.user_posts (Some 0xda%N) upper page None "" lettered).2).
Proof.
  intros lower upper ids. subst lower upper ids.
  split_and!; try by vm_compute.
  intros page Hin.
  destruct (Posts.user_posts (Some 0xda%N) "0000000000000000000000DA" page None "" lettered)
    as [st [l|]] eqn:Hlist; [|by apply elem_of_nil in Hin].
  destruct (listed_posts_are_visible (λ _, None) lettered) as (_ & _ & _ & Hhidden).
  by pose proof (Hhidden 0xda%N "0000000000000000000000DA" _ _ _ _ _ _ _
                   eq_refl ltac:(done) Hlist Hin).
Qed.

(** * Further properties of the handlers *)

(** ** Follow as a toggle *)

Lemma follow_existing (db : DB) (a b : N) (ua ub : User.t) :
  a ≠ b → ObjectId.valid b →
  users db !! a = Some ua → users db !! b = Some ub →
  b ∈ User.following ua →
  Users.follow a (ObjectId.toString b) db
  = (pair_update Mongo.pull a b db, mkReply 200 "User unfollowed successfully").
Proof.
  intros Hab Hvalid Ha Hb Hin.
  rewrite (follow_found db a b _ ua ub)
    by eauto using cast_not_self, cast_toString.
  rewrite includes_text_lower. apply includes_true in Hin. by rewrite Hin.
Qed.

(** X1.  [POST /:userId/follow] by a caller who already follows the target,
    on the path that spells the target's identifier as [toString()] does,
    does what [DELETE /:userId/follow] does and says so; hence, in a mirrored
    store, a follow by a caller who did not follow the target, on any path
    that names the target, and then a follow on that path leave the store as
    it was. *)
Theorem follow_twice_restores (db : DB) (a b : N) (ua ub : User.t) :
  mirrored db → a ≠ b → ObjectId.valid b →
  users db !! a = Some ua → users db !! b = Some ub →
  (b ∈ User.following ua →
     Users.follow a (ObjectId.toString b) db = Users.unfollow a (ObjectId.toString b) db
     ∧ (Users.follow a (ObjectId.toString b) db).2
       = mkReply 200 "User unfollowed successfully")
  ∧ (b ∉ User.following ua →
     ∀ t, ObjectId.cast t = Some b →
       (Users.follow a (ObjectId.toString b) (Users.follow a t db).1).1 = db
       ∧ (Users.follow a (ObjectId.toString b) (Users.follow a t db).1).2
         = mkReply 200 "User unfollowed successfully").
Proof.
  intros Hmir Hab Hvalid Ha Hb. split.
  - intros Hin. rewrite (follow_existing db a b ua ub) by done.
    rewrite (unfollow_existing db a b ua ub) by done. done.
  - intros Hout t Hcast.
    assert (a ∉ User.followers ub) as Hfrs.
    { intros Hin. apply Hout. by apply (Hmir a ua Ha b ub Hb). }
    rewrite (follow_new db a b t ua ub) by done. cbn [fst].
    erewrite (follow_existing (pair_update Mongo.push a b db) a b); [| done | done | | |].
    + cbn [fst snd]. by rewrite (pull_after_push a b db ua ub).
    + rewrite lookup_pair, Ha. simpl. by rewrite relinked_me.
    + rewrite lookup_pair, Hb. simpl. by rewrite relinked_target.
    + simpl. apply elem_of_push. by right.
Qed.

Lemma follow_twice_restores_witness :
  mirrored sample
  ∧ ObjectId.toString 1 = "000000000000000000000001"
  ∧ (Users.follow 2 "000000000000000000000001"
       (Users.follow 2 "000000000000000000000001" sample).1).1 = sample
  ∧ Users.follow 3 "000000000000000000000001" sample
    = Users.unfollow 3 "000000000000000000000001" sample.
Proof.
  assert (mirrored sample) as Hmir by (apply (bool_decide_unpack _); vm_compute; exact I).
  split; [done|]. split; [reflexivity|]. split.
  - apply (follow_twice_restores sample 2 1 bob alice Hmir);
      [done|by vm_compute|done|done| |done].
    apply (bool_decide_unpack _). vm_compute. exact I.
  - apply (follow_twice_restores sample 3 1 carol alice Hmir);
      [done|by vm_compute|done|done|].
    apply (bool_decide_unpack _). vm_compute. exact I.
Defined.

(** X2.  Whatever follow and unfollow requests are served, by whomever, on
    whatever paths and in whatever order, the two sides of the relation stay
    mirrored: B is in A.following exactly when A is in B.followers. *)
Theorem follow_requests_keep_mirror (rs : list Users.request) (db : DB) :
  mirrored db →
  ∀ a b ua ub,
    users (Users.serve rs db) !! a = Some ua →
    users (Users.serve rs db) !! b = Some ub →
    (b ∈ User.following ua ↔ a ∈ User.followers ub).
Proof.
  revert db. induction rs as [|r rs IH]; intros db Hmir a b ua ub Ha Hb.
  - by apply (Hmir a ua Ha b ub Hb).
  - simpl in Ha, Hb. eapply (IH (Users.handle r db).1); eauto using handle_mirrored.
Qed.

Lemma follow_requests_keep_mirror_witness :
  mirrored sample
  ∧ (1%N ∈ User.following
       (User.with_following (Mongo.push 1) bob)
     ↔ 2%N ∈ User.followers (User.with_followers (Mongo.push 2) alice)).
Proof.
  assert (mirrored sample) as Hmir by (apply (bool_decide_unpack _); vm_compute; exact I).
  split; [done|].
  apply (follow_requests_keep_mirror
           [Users.Follow 2 "000000000000000000000001";
            Users.Unfollow 3 "000000000000000000000002"] sample Hmir 2 1);
    reflexivity.
Defined.

(** ** What follow and unfollow leave alone *)

Lemma relinked_profile (op : N → list N → list N) (me userId k : N) (u : User.t) :
  User.with_followers (λ _, []) (User.with_following (λ _, []) (relinked op me userId k u))
  = User.with_followers (λ _, []) (User.with_following (λ _, []) u).
Proof. unfold relinked. by repeat case_decide. Qed.

(** X3.  A follow or unfollow request never touches posts or comments, never
    adds or removes a user, changes nothing when it is not answered 200, and
    when it is, changes only the caller's [following] and the [followers] of
    the user its path names: every other field of every user, and every other
    user, stay as they were. *)
Theorem follow_frame (r : Users.request) (db : DB) :
  let db' := (Users.handle r db).1 in
  let me := caller_of r in
  let target := ObjectId.cast (path_of r) in
  posts db' = posts db ∧ comments db' = comments db
  ∧ dom (users db') = dom (users db)
  ∧ (status (Users.handle r db).2 ≠ 200%nat → db' = db)
  ∧ (∀ k, k ≠ me → Some k ≠ target → users db' !! k = users db !! k)
  ∧ (∀ k u', users db' !! k = Some u' →
       ∃ u, users db !! k = Some u
            ∧ User.with_followers (λ _, []) (User.with_following (λ _, []) u')
              = User.with_followers (λ _, []) (User.with_following (λ _, []) u)
            ∧ (Some k ≠ target → User.followers u' = User.followers u)
            ∧ (k ≠ me → User.following u' = User.following u)).
Proof.
  intros db' me target. subst db' me target.
  destruct (handle_cases r db)
    as [[-> Hstatus] | (op & userId & _ & _ & -> & _ & _ & Hstatus & ->)].
  { split_and!; try done. intros k u' Hk. eauto. }
  split_and!; [done|done| | | |].
  - apply set_eq. intros k. rewrite !elem_of_dom, lookup_pair. by rewrite fmap_is_Some.
  - intros Hrefused. by destruct Hrefused.
  - intros k Hme Huser. rewrite lookup_pair.
    destruct (users db !! k) as [u|]; [|done]. simpl.
    by rewrite relinked_other by congruence.
  - intros k u'. rewrite lookup_pair.
    destruct (users db !! k) as [u|]; [|done]. intros [= <-]. exists u.
    split; [done|]. split; [apply relinked_profile|].
    rewrite relinked_followers, relinked_following.
    split; intros Hk; rewrite decide_False; congruence.
Qed.

(** ** Exploring users *)

Lemma elem_of_find_where_desc {A} (key : A → N) (cond : N * A → bool) (coll : gmap N A)
    (i : N) (d : A) :
  (i, d) ∈ Mongo.find_where_desc key cond coll ↔ coll !! i = Some d ∧ cond (i, d) = true.
Proof.
  unfold Mongo.find_where_desc. rewrite merge_sort_Permutation.
  rewrite list_elem_of_filter, elem_of_map_to_list. tauto.
Qed.

(** Every entry of an explore response shows a stored user other than the
    caller, with the flag the stored followers give. *)
Lemma explore_accurate (regex : string → option (string → bool)) (db : DB) (me : N)
    (raw_limit : option Z) (search : string) (st : nat) (l : list Users.explored)
    (e : Users.explored) :
  Users.explore regex me raw_limit search db = (st, Some l) → e ∈ l →
  Users.e_id e ≠ me
  ∧ users db !! Users.e_id e = Some (Users.e_user e)
  ∧ Users.isFollowing e = Mongo.includes me (User.followers (Users.e_user e)).
Proof.
  unfold Users.explore. intros Hexplore He.
  destruct (Users.explore_query regex me search) as [query|] eqn:Hquery; [|done].
  injection Hexplore as _ <-.
  apply list_elem_of_fmap in He as ([i u] & -> & Hiu). simpl.
  apply (subseteq_take _ _ _) in Hiu.
  apply elem_of_find_where_desc in Hiu as [Hlookup Hcond].
  split_and!; [|done|done].
  unfold Users.explore_query in Hquery.
  destruct (if decide (search = "") then _ else _) as [s|]; [|done].
  simpl in Hquery. injection Hquery as <-.
  apply andb_true_iff in Hcond as [Hne _]. by apply bool_decide_eq_true in Hne.
Qed.

(** X4.  [GET /users/explore] never lists the caller, lists at most [limit]
    users (20 when no limit is given), each as stored and flagged with
    whether the caller is among that user's followers; in a mirrored store the
    flag is set exactly for the users the caller follows. *)
Theorem explore_lists_others (regex : string → option (string → bool)) (db : DB) (me : N)
    (raw_limit : option Z) (search : string) (st : nat) (l : list Users.explored) :
  Users.explore regex me raw_limit search db = (st, Some l) →
  st = 200%nat
  ∧ (length l ≤ Z.abs_nat (int_param raw_limit 20))%nat
  ∧ (∀ e, e ∈ l →
       Users.e_id e ≠ me
       ∧ users db !! Users.e_id e = Some (Users.e_user e)
       ∧ (Users.isFollowing e = true ↔ me ∈ User.followers (Users.e_user e))
       ∧ (mirrored db → ∀ caller, users db !! me = Some caller →
            (Users.isFollowing e = true ↔ Users.e_id e ∈ User.following caller))).
Proof.
  intros Hexplore. split_and!.
  - unfold Users.explore in Hexplore.
    destruct (Users.explore_query regex me search); by injection Hexplore as <-.
  - unfold Users.explore in Hexplore.
    destruct (Users.explore_query regex me search); [|done].
    injection Hexplore as _ <-. rewrite length_fmap, length_take. lia.
  - intros e He.
    destruct (explore_accurate regex db me raw_limit search st l e Hexplore He)
      as (Hne & Hlookup & Hflag).
    split_and!; [done|done| |].
    + by rewrite Hflag, includes_true.
    + intros Hmir caller Hme. rewrite Hflag, includes_true.
      symmetry. by apply (Hmir me caller Hme (Users.e_id e) (Users.e_user e) Hlookup).
Qed.

Lemma explore_lists_others_witness :
  Users.explore (λ _, None) 3 None "" sample
  = (200%nat, Some [Users.mkExplored 2 bob false; Users.mkExplored 1 alice true])
  ∧ (length [Users.mkExplored 2 bob false; Users.mkExplored 1 alice true]
     ≤ Z.abs_nat (int_param None 20))%nat.
Proof.
  assert (Users.explore (λ _, None) 3 None "" sample
          = (200%nat, Some [Users.mkExplored 2 bob false; Users.mkExplored 1 alice true]))
    as Hexplore by (vm_compute; reflexivity).
  split; [exact Hexplore|].
  apply (explore_lists_others (λ _, None) sample 3 None "" _ _ Hexplore).
Defined.

(** X5.  [Explore.handleFollow] keeps the page true to the store: if the list
    on screen came from [GET /users/explore] and the follow request, whose
    path carries the user's [_id] as the page holds it, is answered, the list
    the page shows next has, for every user, the record the store now holds
    and the flag that record calls for. *)
Theorem explore_page_tracks_follow (regex : string → option (string → bool)) (db : DB)
    (me userId : N) (caller : User.t) (raw_limit : option Z) (search : string)
    (l : list Users.explored) :
  mirrored db → users db !! me = Some caller →
  Users.explore regex me raw_limit search db = (200%nat, Some l) →
  let answered := Users.follow me (ObjectId.toString userId) db in
  let shown := Client.explore_handleFollow (Some me) userId (status answered.2) l in
  Users.e_id <$> shown = Users.e_id <$> l
  ∧ ∀ e, e ∈ shown →
      users answered.1 !! Users.e_id e = Some (Users.e_user e)
      ∧ Users.isFollowing e = Mongo.includes me (User.followers (Users.e_user e)).
Proof.
  intros Hmir Hme Hexplore answered shown. subst answered shown.
  pose proof (λ e, explore_accurate regex db me raw_limit search _ l e Hexplore) as Hacc.
  assert (∀ (adding : bool) op, op = (if adding then Mongo.push else Mongo.pull) →
            me ≠ userId → is_Some (users db !! userId) →
            (adding = true → userId ∉ User.following caller) →
            (adding = false → userId ∈ User.following caller) →
            let shown := Client.explore_handleFollow (Some me) userId 200 l in
            Users.e_id <$> shown = Users.e_id <$> l
            ∧ ∀ e, e ∈ shown →
                users (pair_update op me userId db) !! Users.e_id e = Some (Users.e_user e)
                ∧ Users.isFollowing e
                  = Mongo.includes me (User.followers (Users.e_user e))) as Hstep.
  { intros adding op Hop Hne [target Htarget] Hpush Hpull shown. subst shown.
    unfold Client.explore_handleFollow.
    change (Client.ok 200) with true. cbv iota. split.
    - rewrite <- list_fmap_compose. apply list_fmap_ext. intros _ e _. simpl.
      by case_decide.
    - intros e' He'. apply list_elem_of_fmap in He' as (e & -> & He).
      destruct (Hacc e He) as (Hnotme & Hlookup & Hflag).
      case_decide as Hid; cbn [Users.e_id Users.e_user Users.isFollowing];
        rewrite lookup_pair; unfold relinked; rewrite Hlookup.
      + rewrite Hid in *. rewrite decide_True, decide_False by done.
        assert (Users.isFollowing e = true ↔ userId ∈ User.following caller) as Hiff.
        { rewrite Hflag, includes_true. symmetry.
          by apply (Hmir me caller Hme userId (Users.e_user e) Hlookup). }
        destruct adding; subst op.
        * assert (Users.isFollowing e = false) as Hoff.
          { apply not_true_iff_false. rewrite Hiff. by apply Hpush. }
          rewrite Hoff. split; [done|]. simpl. symmetry. apply includes_true.
          apply elem_of_app. right. by apply list_elem_of_singleton.
        * assert (Users.isFollowing e = true) as Hon by (apply Hiff; by apply Hpull).
          rewrite Hon. split; [done|]. simpl. symmetry. apply includes_false.
          rewrite list_elem_of_filter. tauto.
      + rewrite !decide_False by done. done. }
  unfold Users.follow. case_decide as Hself.
  { simpl. split; [done|]. intros e He. destruct (Hacc e He) as (_ & ? & ?). done. }
  destruct (ObjectId.cast (ObjectId.toString userId)) as [named|] eqn:Hcast.
  2:{ simpl. split; [done|]. intros e He. destruct (Hacc e He) as (_ & ? & ?). done. }
  apply cast_toString_inv in Hcast as ->.
  destruct (users db !! userId) as [target|] eqn:Htarget.
  2:{ simpl. split; [done|]. intros e He. destruct (Hacc e He) as (_ & ? & ?). done. }
  rewrite Hme, includes_text_lower.
  destruct (Mongo.includes userId (User.following caller)) eqn:Hin; cbn [fst snd status].
  - apply (Hstep false Mongo.pull); [done|congruence|by eexists|done|].
    intros _. by apply includes_true.
  - apply (Hstep true Mongo.push); [done|congruence|by eexists| |done].
    intros _. by apply includes_false.
Qed.

Lemma explore_page_tracks_follow_witness :
  mirrored sample
  ∧ Client.explore_handleFollow (Some 3%N) 2
      (status (Users.follow 3 "000000000000000000000002" sample).2)
      [Users.mkExplored 2 bob false; Users.mkExplored 1 alice true]
    = [Users.mkExplored 2 (User.with_followers (Mongo.push 3) bob) true;
       Users.mkExplored 1 alice true]
  ∧ users (Users.follow 3 "000000000000000000000002" sample).1 !! 2%N
    = Some (User.with_followers (Mongo.push 3) bob).
Proof.
  assert (mirrored sample) as Hmir by (apply (bool_decide_unpack _); vm_compute; exact I).
  split; [done|]. split; [reflexivity|].
  destruct (explore_page_tracks_follow (λ _, None) sample 3 2 carol None ""
              [Users.mkExplored 2 bob false; Users.mkExplored 1 alice true]
              Hmir eq_refl eq_refl) as [_ Hshown].
  apply (Hshown (Users.mkExplored 2 (User.with_followers (Mongo.push 3) bob) true)).
  change (Client.explore_handleFollow _ _ _ _)
    with [Users.mkExplored 2 (User.with_followers (Mongo.push 3) bob) true;
          Users.mkExplored 1 alice true].
  apply list_elem_of_here.
Defined.

(** ** Followers and following, as listed *)

Lemma elem_of_populate {A B} (select : N → A → B) (ids : list N) (coll : gmap N A) (x : B) :
  x ∈ Mongo.populate select ids coll
  ↔ ∃ i d, i ∈ ids ∧ coll !! i = Some d ∧ x = select i d.
Proof.
  unfold Mongo.populate. rewrite list_elem_of_omap. split.
  - intros (i & Hi & Hx). destruct (coll !! i) as [d|] eqn:Hd; [|done].
    injection Hx as <-. eauto.
  - intros (i & d & Hi & Hd & ->). exists i. by rewrite Hd.
Qed.

(** X6.  In a mirrored store, for existing users A and B: A is listed by
    [GET /B/followers] exactly when B is listed by [GET /A/following]; both
    requests are answered 200, and whoever the followers list shows is a
    stored user whose identifier is in [B.followers]. *)
Theorem followers_and_following_agree (db : DB) (a b : N) (ua ub : User.t) :
  mirrored db → users db !! a = Some ua → users db !! b = Some ub →
  ∃ followers_of_b following_of_a,
    Users.get_followers b db = (200%nat, Some followers_of_b)
    ∧ Users.get_following a db = (200%nat, Some following_of_a)
    ∧ (Users.summarize a ua ∈ followers_of_b ↔ Users.summarize b ub ∈ following_of_a)
    ∧ (∀ s, s ∈ followers_of_b →
         ∃ u, users db !! Users.s_id s = Some u ∧ s = Users.summarize (Users.s_id s) u
              ∧ Users.s_id s ∈ User.followers ub).
Proof.
  intros Hmir Ha Hb. unfold Users.get_followers, Users.get_following. rewrite Ha, Hb.
  eexists _, _. split; [done|]. split; [done|]. split.
  - rewrite !elem_of_populate. split.
    + intros (i & u & Hi & Hu & Heq).
      assert (i = a) as -> by (by injection Heq).
      exists b, ub. split; [|done]. by apply (Hmir a ua Ha b ub Hb).
    + intros (i & u & Hi & Hu & Heq).
      assert (i = b) as -> by (by injection Heq).
      exists a, ua. split; [|done]. by apply (Hmir a ua Ha b ub Hb).
  - intros s Hs. apply elem_of_populate in Hs as (i & u & Hi & Hu & ->). simpl. eauto.
Qed.

Lemma followers_and_following_agree_witness :
  mirrored sample
  ∧ Users.get_followers 1 sample = (200%nat, Some [Users.summarize 3 carol])
  ∧ Users.get_following 3 sample = (200%nat, Some [Users.summarize 1 alice])
  ∧ (Users.summarize 3 carol ∈ [Users.summarize 3 carol]
     ↔ Users.summarize 1 alice ∈ [Users.summarize 1 alice]).
Proof.
  assert (mirrored sample) as Hmir by (apply (bool_decide_unpack _); vm_compute; exact I).
  split; [done|]. split; [reflexivity|]. split; [reflexivity|].
  destruct (followers_and_following_agree sample 3 1 carol alice Hmir eq_refl eq_refl)
    as (l1 & l2 & H1 & H2 & Hiff & _).
  injection H1 as <-. injection H2 as <-. exact Hiff.
Defined.

(** ** Profile updates and unique names *)

Lemma findOne_is_Some {A} (cond : A → bool) (coll : gmap N A) :
  is_Some (Mongo.findOne cond coll) ↔ ∃ i d, coll !! i = Some d ∧ cond d = true.
Proof.
  unfold Mongo.findOne. rewrite fmap_is_Some. split.
  - intros [[n [i d]] Hfind]. apply list_find_Some in Hfind as (Hn & Hcond & _).
    apply list_elem_of_lookup_2, elem_of_map_to_list in Hn. eauto.
  - intros (i & d & Hd & Hcond). apply elem_of_map_to_list in Hd.
    destruct (list_find (λ kv : N * A, cond kv.2 = true) (map_to_list coll)) eqn:Hfind;
      [done|].
    apply list_find_None in Hfind. rewrite Forall_forall in Hfind.
    by destruct (Hfind (i, d) Hd).
Qed.

(** What a profile update answered 200 has checked. *)
Lemma update_profile_checked (me : N) (req_user : User.t) (b : Users.profile_body)
    (file : option string) (db : DB) :
  (Users.update_profile me req_user b file db).1 = db
  ∨ ((Users.update_profile me req_user b file db)
     = (set_users (Mongo.findByIdAndUpdate me
                     (Users.apply_update (Users.updateData req_user b file))) db,
        mkReply 200 "Profile updated successfully")
     ∧ (str_or (Users.b_username b) (User.username req_user) = User.username req_user
        ∨ ∀ i u, users db !! i = Some u →
                 User.username u ≠ str_or (Users.b_username b) (User.username req_user))
     ∧ (str_or (Users.b_email b) (User.email req_user) = User.email req_user
        ∨ ∀ i u, users db !! i = Some u →
                 User.email u ≠ str_or (Users.b_email b) (User.email req_user))).
Proof.
  assert (∀ (f : User.t → string) (supplied : option string),
            truthy supplied
            && bool_decide (supplied ≠ Some (f req_user))
            && bool_decide (is_Some (Mongo.findOne
                 (λ u, bool_decide (Some (f u) = supplied)) (users db))) = false →
            str_or supplied (f req_user) = f req_user
            ∨ ∀ i u, users db !! i = Some u → f u ≠ str_or supplied (f req_user)) as Hcheck.
  { intros f supplied Hfalse. destruct supplied as [v|]; [|by left]. simpl in *.
    destruct (decide (v = "")) as [->|Hv]; [by left|].
    rewrite (bool_decide_eq_true_2 (v ≠ "")) in Hfalse by done. simpl in Hfalse.
    destruct (decide (v = f req_user)) as [->|Hown]; [by left|].
    rewrite bool_decide_eq_true_2 in Hfalse by congruence. simpl in Hfalse.
    apply bool_decide_eq_false in Hfalse. right. intros i u Hu Heq.
    apply Hfalse, findOne_is_Some. exists i, u. split; [done|].
    apply bool_decide_eq_true. congruence. }
  unfold Users.update_profile.
  destruct (truthy (Users.b_username b) && _ && _) eqn:Hname; [by left|].
  destruct (truthy (Users.b_email b) && _ && _) eqn:Hmail; [by left|].
  right. split; [done|]. split.
  - by apply (Hcheck User.username).
  - by apply (Hcheck User.email).
Qed.

(** X7.  [PUT /profile] keeps user names and e-mail addresses unique: when no
    two stored users share a username or an e-mail before the request of an
    authenticated user, none do after it, whatever the body. *)
Theorem profile_update_keeps_names_unique (me : N) (req_user : User.t)
    (b : Users.profile_body) (file : option string) (db : DB) :
  auth me db = Some req_user →
  unique_by User.username db → unique_by User.email db →
  unique_by User.username (Users.update_profile me req_user b file db).1
  ∧ unique_by User.email (Users.update_profile me req_user b file db).1.
Proof.
  unfold auth. intros Hme Hnames Hmails.
  destruct (update_profile_checked me req_user b file db) as [-> | (-> & Hname & Hmail)];
    [done|].
  cbn [fst].
  assert (∀ (f : User.t → string) (v : string),
            unique_by f db →
            (∀ stored, f (Users.apply_update (Users.updateData req_user b file) stored) = v) →
            (v = f req_user ∨ ∀ i u, users db !! i = Some u → f u ≠ v) →
            unique_by f (set_users (Mongo.findByIdAndUpdate me
                           (Users.apply_update (Users.updateData req_user b file))) db))
    as Hunique.
  { intros f v Hf Hset Hfree i j ui uj. simpl. unfold Mongo.findByIdAndUpdate.
    rewrite !lookup_alter.
    destruct (decide (me = i)) as [<-|Hi], (decide (me = j)) as [<-|Hj]; try done.
    - rewrite Hme. simpl. intros [= <-] Huj. rewrite Hset. intros Heq.
      destruct Hfree as [-> | Hfree].
      + by apply (Hf me j req_user uj).
      + by destruct (Hfree j uj Huj).
    - rewrite Hme. simpl. intros Hui [= <-]. rewrite Hset. intros Heq.
      destruct Hfree as [-> | Hfree].
      + by apply (Hf i me ui req_user).
      + by destruct (Hfree i ui Hui).
    - apply Hf. }
  split.
  - apply (Hunique User.username (str_or (Users.b_username b) (User.username req_user)));
      [done|done|]. destruct Hname as [->|?]; auto.
  - apply (Hunique User.email (str_or (Users.b_email b) (User.email req_user)));
      [done|done|]. destruct Hmail as [->|?]; auto.
Qed.

(** X8.  [PUT /profile] is idempotent: sending the same body (and file) once
    more, now as the user the first request left, gives the same answer and
    leaves the store as the first request left it. *)
Theorem profile_update_idempotent (me : N) (req_user req_user' : User.t)
    (b : Users.profile_body) (file : option string) (db : DB) :
  auth me db = Some req_user →
  auth me (Users.update_profile me req_user b file db).1 = Some req_user' →
  Users.update_profile me req_user' b file (Users.update_profile me req_user b file db).1
  = Users.update_profile me req_user b file db.
Proof.
  unfold auth. intros Hme Hme'.
  destruct (update_profile_checked me req_user b file db) as [Hsame | (Hupd & _ & _)].
  - assert (req_user' = req_user) as -> by (rewrite Hsame in Hme'; congruence).
    by rewrite Hsame.
  - rewrite Hupd in *. cbn [fst] in *. simpl in Hme'.
    unfold Mongo.findByIdAndUpdate in Hme'. rewrite lookup_alter_eq, Hme in Hme'.
    injection Hme' as <-.
    set (d := Users.updateData req_user b file).
    set (ru := Users.apply_update d req_user).
    assert (∀ supplied own, str_or supplied (str_or supplied own) = str_or supplied own)
      as Hor.
    { intros [v|] own; [|done]. simpl. by repeat case_decide. }
    assert (∀ supplied own,
              truthy supplied
              && bool_decide (supplied ≠ Some (str_or supplied own)) = false) as Hskip.
    { intros [v|] own; [|done]. simpl. case_decide as Hv.
      - subst. by rewrite (bool_decide_eq_false_2 ("" ≠ "")) by (intros H; by apply H).
      - rewrite (bool_decide_eq_false_2 (Some v ≠ Some v)) by (intros H; by apply H).
        apply andb_false_r. }
    unfold Users.update_profile.
    change (User.username ru) with (str_or (Users.b_username b) (User.username req_user)).
    change (User.email ru) with (str_or (Users.b_email b) (User.email req_user)).
    rewrite !Hskip. cbn [andb]. f_equal.
    destruct db as [us ps cs]. unfold set_users. simpl. f_equal.
    apply map_eq. intros k. unfold Mongo.findByIdAndUpdate. rewrite !lookup_alter.
    case_decide; [subst k|done]. rewrite decide_True by done.
    simpl in Hme. rewrite Hme. simpl. f_equal.
    unfold Users.apply_update, Users.updateData. simpl.
    rewrite !Hor. f_equal. by destruct file.
Qed.

Lemma profile_update_keeps_names_unique_witness :
  auth 2 sample = Some bob
  ∧ unique_by User.username
      (Users.update_profile 2 bob
         (Users.mkProfileBody None (Some "alice") None None None None) None sample).1.
Proof.
  split; [reflexivity|].
  assert (∀ f, (f alice ≠ f bob) → (f alice ≠ f carol) → (f bob ≠ f carol) →
            unique_by f sample) as Hsample.
  { intros f Hab Hac Hbc i j ui uj Hi Hj Heq.
    assert (∀ k u, users sample !! k = Some u →
              (k = 1%N ∧ u = alice) ∨ (k = 2%N ∧ u = bob) ∨ (k = 3%N ∧ u = carol)) as Hcases.
    { intros k u Hk. apply elem_of_map_to_list in Hk.
      set (l := map_to_list (users sample)) in Hk. vm_compute in l. subst l.
      rewrite !elem_of_cons, elem_of_nil in Hk.
      destruct Hk as [[= -> ->]|[[= -> ->]|[[= -> ->]|[]]]]; auto. }
    destruct (Hcases i ui Hi) as [[-> ->]|[[-> ->]|[-> ->]]],
             (Hcases j uj Hj) as [[-> ->]|[[-> ->]|[-> ->]]];
      try done; congruence. }
  apply (profile_update_keeps_names_unique 2 bob
           (Users.mkProfileBody None (Some "alice") None None None None) None sample eq_refl).
  - by apply Hsample.
  - by apply Hsample.
Defined.

Lemma profile_update_idempotent_witness :
  auth 2 sample = Some bob
  ∧ Users.update_profile 2 (User.mk "bobby" "bob@uni.edu" "Bob B" "hi" "" "MIT" "Math" [] [] 2)
      (Users.mkProfileBody None (Some "bobby") None None None (Some "")) None
      (Users.update_profile 2 bob
         (Users.mkProfileBody None (Some "bobby") None None None (Some "")) None sample).1
    = Users.update_profile 2 bob
        (Users.mkProfileBody None (Some "bobby") None None None (Some "")) None sample.
Proof.
  split; [reflexivity|].
  apply (profile_update_idempotent 2 bob); reflexivity.
Defined.

(** ** Requests on posts and comments, in closed form *)

Lemma alter_toggled_post (me postId : N) (p : Post.t) (ps : gmap N Post.t) :
  ps !! postId = Some p →
  Mongo.findByIdAndUpdate postId
    (Post.with_likes (if Mongo.includes me (Post.likes p)
                      then Mongo.pull me else Mongo.push me)) ps
  = Mongo.findByIdAndUpdate postId (Post.with_likes (toggled me)) ps.
Proof.
  intros Hp. unfold Mongo.findByIdAndUpdate. apply alter_ext. intros p' Hp'.
  assert (p' = p) as -> by congruence. unfold Post.with_likes, toggled.
  by destruct (Mongo.includes me (Post.likes p)).
Qed.

Lemma alter_toggled_comment (me commentId : N) (c : Comment.t) (cs : gmap N Comment.t) :
  cs !! commentId = Some c →
  Mongo.findByIdAndUpdate commentId
    (Comment.with_likes (if Mongo.includes me (Comment.likes c)
                         then Mongo.pull me else Mongo.push me)) cs
  = Mongo.findByIdAndUpdate commentId (Comment.with_likes (toggled me)) cs.
Proof.
  intros Hc. unfold Mongo.findByIdAndUpdate. apply alter_ext. intros c' Hc'.
  assert (c' = c) as -> by congruence. unfold Comment.with_likes, toggled.
  by destruct (Mongo.includes me (Comment.likes c)).
Qed.

Lemma comments_create_cases (me newId : N) (now : N) (content : string) (postId : N)
    (parent : option N) (db : DB) :
  ((Comments.create me newId now content postId parent db).1 = db
   ∧ status (Comments.create me newId now content postId parent db).2 ≠ 201%nat)
  ∨ (Comments.create me newId now content postId parent db
     = (created me newId now content postId parent db,
        mkReply 201 "Comment created successfully")
     ∧ content ≠ "" ∧ (String.length content ≤ 1000)%nat
     ∧ is_Some (posts db !! postId) ∧ comments db !! newId = None
     ∧ match parent with Some par => is_Some (comments db !! par) | None => True end).
Proof.
  unfold Comments.create.
  case_decide as Hempty; [by left|]. case_decide as Hlong; [by left|].
  destruct (posts db !! postId) as [p|] eqn:Hp; [|by left].
  destruct parent as [par|].
  - case_bool_decide as Hpar; [by left|].
    destruct (comments db !! newId) eqn:Hnew; [by left|]. right.
    split; [done|]. split_and!; try done; [lia|].
    by destruct (comments db !! par).
  - destruct (comments db !! newId) eqn:Hnew; [by left|]. right.
    split; [done|]. split_and!; try done. lia.
Qed.

(** X9.  The comment routes under [/posts/:postId] answer and act as the
    routes of [/comments] do: creating a comment, listing the top-level
    comments of a post, and, when the path names the comment's own post (or
    no comment has that identifier), deleting a comment. *)
Theorem post_comment_routes_mirror (db : DB) (me newId : N) (now : N) (content : string)
    (postId : N) (parent : option N) (raw_page raw_limit : option Z) (commentId : N) :
  Posts.create_comment me newId now postId content parent db
  = Comments.create me newId now content postId parent db
  ∧ Posts.post_comments postId raw_page raw_limit db
    = Comments.list_by_post postId raw_page raw_limit db
  ∧ (∀ c, comments db !! commentId = Some c →
       Posts.delete_comment me (Comment.post c) commentId db
       = Comments.delete me commentId db)
  ∧ (comments db !! commentId = None →
       Posts.delete_comment me postId commentId db = Comments.delete me commentId db).
Proof.
  split_and!.
  - reflexivity.
  - reflexivity.
  - intros c Hc. by apply delete_comment_same_post.
  - intros Hnone. unfold Posts.delete_comment, Comments.delete. by rewrite Hnone.
Qed.

(** Every request leaves posts and comments alone or takes its [step]. *)
Lemma perform_cases (m : mutation) (db : DB) :
  users (perform m db) = users db ∧ (perform m db = db ∨ step db m (perform m db)).
Proof.
  destruct m as [caller postId|me postId|me postId|me newId now content postId parent
                 |me newId now postId content parent|me commentId content
                 |me commentId|me postId commentId|me commentId]; simpl.
  - unfold Posts.get_post. destruct (posts db !! postId) as [p|] eqn:Hp.
    + split; [done|]. right. by apply step_view.
    + split; [done|]. by left.
  - unfold Posts.like. destruct (posts db !! postId) as [p|] eqn:Hp.
    + assert ((if Mongo.includes me (Post.likes p)
               then (set_posts (Mongo.findByIdAndUpdate postId
                                  (Post.with_likes (Mongo.pull me))) db,
                     Posts.mkLikeReply 200 "Post unliked successfully" (Some false))
               else (set_posts (Mongo.findByIdAndUpdate postId
                                  (Post.with_likes (Mongo.push me))) db,
                     Posts.mkLikeReply 200 "Post liked successfully" (Some true))).1
              = set_posts (Mongo.findByIdAndUpdate postId (Post.with_likes (toggled me))) db)
        as ->.
      { pose proof (alter_toggled_post me postId p (posts db) Hp) as Htoggle.
        destruct (Mongo.includes me (Post.likes p)); cbn [fst]; unfold set_posts;
          by rewrite Htoggle. }
      split; [done|]. right. by apply (step_like_post db me postId p).
    + split; [done|]. by left.
  - unfold Posts.delete_post. destruct (posts db !! postId) as [p|] eqn:Hp.
    + case_decide; [split; [done|by left]|].
      split; [done|]. right. by apply (step_delete_post db me postId p).
    + split; [done|]. by left.
  - destruct (comments_create_cases me newId now content postId parent db)
      as [[-> _]|(-> & _ & _ & Hpost & Hnew & Hparent)].
    + split; [done|]. by left.
    + split; [done|]. right. by apply step_create.
  - change (Posts.create_comment me newId now postId content parent db)
      with (Comments.create me newId now content postId parent db).
    destruct (comments_create_cases me newId now content postId parent db)
      as [[-> _]|(-> & _ & _ & Hpost & Hnew & Hparent)].
    + split; [done|]. by left.
    + split; [done|]. right. by apply step_create_under.
  - unfold Comments.update. repeat case_decide; try (split; [done|by left]).
    destruct (comments db !! commentId) as [c|] eqn:Hc; [|split; [done|by left]].
    case_decide; [split; [done|by left]|].
    split; [done|]. right. by apply (step_update db me commentId c).
  - unfold Comments.delete. destruct (comments db !! commentId) as [c|] eqn:Hc.
    + case_decide as Hauthor; [split; [done|by left]|].
      pose proof (comments_delete_ok me commentId c db Hc Hauthor) as Hok.
      unfold Comments.delete in Hok. rewrite Hc in Hok.
      rewrite decide_False in Hok by (intros Hne; by apply Hne).
      rewrite Hok. split; [done|]. right. by apply step_cascade.
    + split; [done|]. by left.
  - unfold Posts.delete_comment. destruct (comments db !! commentId) as [c|] eqn:Hc.
    + case_decide as Hauthor; [split; [done|by left]|].
      pose proof (posts_delete_comment_ok me postId commentId c db Hc Hauthor) as Hok.
      unfold Posts.delete_comment in Hok. rewrite Hc in Hok.
      rewrite decide_False in Hok by (intros Hne; by apply Hne).
      rewrite Hok. split; [done|]. right. by apply step_cascade_under.
    + split; [done|]. by left.
  - unfold Comments.like. destruct (comments db !! commentId) as [c|] eqn:Hc.
    + assert ((if Mongo.includes me (Comment.likes c)
               then (set_comments (Mongo.findByIdAndUpdate commentId
                                     (Comment.with_likes (Mongo.pull me))) db,
                     Posts.mkLikeReply 200 "Comment unliked successfully" (Some false))
               else (set_comments (Mongo.findByIdAndUpdate commentId
                                     (Comment.with_likes (Mongo.push me))) db,
                     Posts.mkLikeReply 200 "Comment liked successfully" (Some true))).1
              = set_comments (Mongo.findByIdAndUpdate commentId
                                (Comment.with_likes (toggled me))) db) as ->.
      { pose proof (alter_toggled_comment me commentId c (comments db) Hc) as Htoggle.
        destruct (Mongo.includes me (Comment.likes c)); cbn [fst]; unfold set_comments;
          by rewrite Htoggle. }
      split; [done|]. right. by apply (step_like_comment db me commentId c).
    + split; [done|]. by left.
Qed.

(** A comment found after a [step]: either it was there before, with the same
    author, post, parent and creation time, its likes toggled only by a like
    of that comment and its content changed only by an update of that comment
    by its author; or the step created it, on an existing post. *)
Lemma step_comments (db db' : DB) (m : mutation) :
  step db m db' → ∀ i c', comments db' !! i = Some c' →
  (∃ c, comments db !! i = Some c
        ∧ Comment.author c' = Comment.author c ∧ Comment.post c' = Comment.post c
        ∧ Comment.parentComment c' = Comment.parentComment c
        ∧ Comment.createdAt c' = Comment.createdAt c
        ∧ (Comment.likes c' = Comment.likes c
           ∨ ∃ me, m = LikeComment me i ∧ Comment.likes c' = toggled me (Comment.likes c))
        ∧ (Comment.content c' = Comment.content c
           ∨ m = UpdateComment (Comment.author c) i (Comment.content c')))
  ∨ (comments db !! i = None ∧ Comment.likes c' = []
     ∧ is_Some (posts db !! Comment.post c')).
Proof.
  assert (∀ (g : Comment.t → Comment.t) k (cs : gmap N Comment.t) i c',
            (∀ c, Comment.author (g c) = Comment.author c ∧ Comment.post (g c) = Comment.post c
                  ∧ Comment.parentComment (g c) = Comment.parentComment c
                  ∧ Comment.createdAt (g c) = Comment.createdAt c
                  ∧ Comment.likes (g c) = Comment.likes c
                  ∧ Comment.content (g c) = Comment.content c) →
            Mongo.findByIdAndUpdate k g cs !! i = Some c' →
            ∃ c, cs !! i = Some c
              ∧ Comment.author c' = Comment.author c ∧ Comment.post c' = Comment.post c
              ∧ Comment.parentComment c' = Comment.parentComment c
              ∧ Comment.createdAt c' = Comment.createdAt c
              ∧ Comment.likes c' = Comment.likes c
              ∧ Comment.content c' = Comment.content c) as Hquiet.
  { intros g k cs i c' Hg. unfold Mongo.findByIdAndUpdate. rewrite lookup_alter.
    case_decide as Hk; [subst k|].
    - destruct (cs !! i) as [c|]; [|done]. simpl. intros [= <-]. exists c.
      split; [done|]. apply Hg.
    - intros Hc. exists c'. by split_and!. }
  assert (∀ postId commentId parent i c',
            comments (cascade postId commentId parent db) !! i = Some c' →
            ∃ c, comments db !! i = Some c
              ∧ Comment.author c' = Comment.author c ∧ Comment.post c' = Comment.post c
              ∧ Comment.parentComment c' = Comment.parentComment c
              ∧ Comment.createdAt c' = Comment.createdAt c
              ∧ Comment.likes c' = Comment.likes c
              ∧ Comment.content c' = Comment.content c) as Hcascade.
  { intros postId commentId parent i c'.
    unfold cascade, Mongo.findByIdAndDelete, Mongo.deleteMany. simpl.
    intros Hc'. apply lookup_delete_Some in Hc' as [_ Hc'].
    apply map_lookup_filter_Some in Hc' as [Hc' _].
    destruct parent as [par|].
    - eapply Hquiet; [|exact Hc']. done.
    - exists c'. by split_and!. }
  intros Hstep i c' Hc'.
  destruct Hstep as [caller postId p Hp|me postId p Hp|me commentId c Hc
                     |me postId p Hp Hauthor
                     |me newId now content postId parent Hpost Hnew Hparent
                     |me newId now content postId parent Hpost Hnew Hparent
                     |me commentId c content Hc Hauthor
                     |me commentId c Hc Hauthor|me postId commentId c Hc Hauthor].
  - left. exists c'. by split_and!; try left.
  - left. exists c'. by split_and!; try left.
  - left. simpl in Hc'. unfold Mongo.findByIdAndUpdate in Hc'. rewrite lookup_alter in Hc'.
    case_decide; [subst i|].
    + rewrite Hc in Hc'. injection Hc' as <-. exists c. split_and!; try done.
      * right. by exists me.
      * by left.
    + exists c'. by split_and!; try left.
  - left. simpl in Hc'. unfold Mongo.deleteMany in Hc'. apply map_lookup_filter_Some in Hc' as [Hc' _].
    exists c'. by split_and!; try left.
  - assert (∃ c0, (<[newId := Comment.mk me postId parent content [] [] now]> (comments db)) !! i
                  = Some c0
              ∧ Comment.author c' = Comment.author c0 ∧ Comment.post c' = Comment.post c0
              ∧ Comment.parentComment c' = Comment.parentComment c0
              ∧ Comment.createdAt c' = Comment.createdAt c0
              ∧ Comment.likes c' = Comment.likes c0
              ∧ Comment.content c' = Comment.content c0) as (c0 & Hc0 & Hsame).
    { simpl in Hc'. destruct parent as [par|].
      - eapply Hquiet; [|exact Hc']. done.
      - exists c'. by split_and!. }
    destruct Hsame as (Ha & Hp & Hpar & Ht & Hl & Hcont).
    apply lookup_insert_Some in Hc0 as [[<- <-]|[Hne Hc0]].
    + right. split; [done|]. split; [done|]. by rewrite Hp.
    + left. exists c0. split_and!; try done; by left.
  - assert (∃ c0, (<[newId := Comment.mk me postId parent content [] [] now]> (comments db)) !! i
                  = Some c0
              ∧ Comment.author c' = Comment.author c0 ∧ Comment.post c' = Comment.post c0
              ∧ Comment.parentComment c' = Comment.parentComment c0
              ∧ Comment.createdAt c' = Comment.createdAt c0
              ∧ Comment.likes c' = Comment.likes c0
              ∧ Comment.content c' = Comment.content c0) as (c0 & Hc0 & Hsame).
    { simpl in Hc'. destruct parent as [par|].
      - eapply Hquiet; [|exact Hc']. done.
      - exists c'. by split_and!. }
    destruct Hsame as (Ha & Hp & Hpar & Ht & Hl & Hcont).
    apply lookup_insert_Some in Hc0 as [[<- <-]|[Hne Hc0]].
    + right. split; [done|]. split; [done|]. by rewrite Hp.
    + left. exists c0. split_and!; try done; by left.
  - left. simpl in Hc'. unfold Mongo.findByIdAndUpdate in Hc'. rewrite lookup_alter in Hc'.
    case_decide; [subst i|].
    + rewrite Hc in Hc'. injection Hc' as <-. exists c. split_and!; try done.
      * by left.
      * right. simpl. by rewrite Hauthor.
    + exists c'. by split_and!; try left.
  - left. destruct (Hcascade _ _ _ _ _ Hc') as (c0 & ? & ? & ? & ? & ? & ? & ?).
    exists c0. split_and!; try done; by left.
  - left. destruct (Hcascade _ _ _ _ _ Hc') as (c0 & ? & ? & ? & ? & ? & ? & ?).
    exists c0. split_and!; try done; by left.
Qed.

(** A post found after a [step] was there before; only its views, likes and
    comment list can differ, the likes only by a like of that post and the
    views only by a fetch of that post. *)
Lemma step_posts (db db' : DB) (m : mutation) :
  step db m db' → ∀ k p', posts db' !! k = Some p' →
  ∃ p, posts db !! k = Some p
       ∧ Post.with_views (λ _, 0%N) (Post.with_likes (λ _, []) (Post.with_comments (λ _, []) p'))
         = Post.with_views (λ _, 0%N) (Post.with_likes (λ _, []) (Post.with_comments (λ _, []) p))
       ∧ (Post.likes p' = Post.likes p
          ∨ ∃ me, m = LikePost me k ∧ Post.likes p' = toggled me (Post.likes p))
       ∧ (Post.views p' = Post.views p
          ∨ (∃ caller, m = GetPost caller k) ∧ Post.views p' = Js.add_one (Post.views p)).
Proof.
  assert (∀ (g : Post.t → Post.t) j (ps : gmap N Post.t) k p',
            (∀ p, Post.with_views (λ _, 0%N)
                    (Post.with_likes (λ _, []) (Post.with_comments (λ _, []) (g p)))
                  = Post.with_views (λ _, 0%N)
                      (Post.with_likes (λ _, []) (Post.with_comments (λ _, []) p))
                  ∧ Post.likes (g p) = Post.likes p ∧ Post.views (g p) = Post.views p) →
            Mongo.findByIdAndUpdate j g ps !! k = Some p' →
            ∃ p, ps !! k = Some p
              ∧ Post.with_views (λ _, 0%N)
                  (Post.with_likes (λ _, []) (Post.with_comments (λ _, []) p'))
                = Post.with_views (λ _, 0%N)
                    (Post.with_likes (λ _, []) (Post.with_comments (λ _, []) p))
              ∧ (Post.likes p' = Post.likes p
                 ∨ ∃ me, m = LikePost me k ∧ Post.likes p' = toggled me (Post.likes p))
              ∧ (Post.views p' = Post.views p
                 ∨ (∃ caller, m = GetPost caller k) ∧ Post.views p' = Js.add_one (Post.views p)))
    as Hquiet.
  { intros g j ps k p' Hg. unfold Mongo.findByIdAndUpdate. rewrite lookup_alter.
    case_decide as Hk; [subst j|].
    - destruct (ps !! k) as [p|]; [|done]. simpl. intros [= <-]. exists p.
      destruct (Hg p) as (? & ? & ?). split_and!; auto.
    - intros Hp. exists p'. split_and!; auto. }
  intros Hstep k p' Hp'.
  destruct Hstep as [caller postId p Hp|me postId p Hp|me commentId c Hc
                     |me postId p Hp Hauthor
                     |me newId now content postId parent Hpost Hnew Hparent
                     |me newId now content postId parent Hpost Hnew Hparent
                     |me commentId c content Hc Hauthor
                     |me commentId c Hc Hauthor|me postId commentId c Hc Hauthor].
  - simpl in Hp'. apply lookup_insert_Some in Hp' as [[<- <-]|[Hne Hp']].
    + exists p. split_and!; [done|done|by left|]. right. split; [by exists caller|done].
    + exists p'. split_and!; auto.
  - simpl in Hp'. unfold Mongo.findByIdAndUpdate in Hp'. rewrite lookup_alter in Hp'.
    case_decide; [subst k|].
    + rewrite Hp in Hp'. injection Hp' as <-. exists p. split_and!; [done|done| |by left].
      right. by exists me.
    + exists p'. split_and!; auto.
  - exists p'. split_and!; auto.
  - simpl in Hp'. unfold Mongo.findByIdAndDelete in Hp'.
    apply lookup_delete_Some in Hp' as [_ Hp']. exists p'. split_and!; auto.
  - simpl in Hp'. eapply Hquiet; [|exact Hp']. done.
  - simpl in Hp'. eapply Hquiet; [|exact Hp']. done.
  - exists p'. split_and!; auto.
  - unfold cascade in Hp'. simpl in Hp'. eapply Hquiet; [|exact Hp']. done.
  - unfold cascade in Hp'. simpl in Hp'. eapply Hquiet; [|exact Hp']. done.
Qed.

(** A post stays through every [step] but its own deletion, which takes all
    its comments along. *)
Lemma step_posts_kept (db db' : DB) (m : mutation) :
  step db m db' → ∀ k, is_Some (posts db !! k) →
  is_Some (posts db' !! k)
  ∨ ((∃ me, m = DeletePost me k) ∧ posts db' !! k = None
     ∧ ∀ i c', comments db' !! i = Some c' → Comment.post c' ≠ k).
Proof.
  intros Hstep k Hk.
  destruct Hstep as [caller postId p Hp|me postId p Hp|me commentId c Hc
                     |me postId p Hp Hauthor
                     |me newId now content postId parent Hpost Hnew Hparent
                     |me newId now content postId parent Hpost Hnew Hparent
                     |me commentId c content Hc Hauthor
                     |me commentId c Hc Hauthor|me postId commentId c Hc Hauthor];
    simpl; unfold Mongo.findByIdAndUpdate;
    try (left; first [done | by apply lookup_insert_is_Some'; right
                      | by apply lookup_alter_is_Some]).
  destruct (decide (k = postId)) as [->|Hne].
  - right. split; [by exists me|]. unfold Mongo.findByIdAndDelete, Mongo.deleteMany.
    split; [apply lookup_delete_eq|].
    intros i c' Hc'. apply map_lookup_filter_Some in Hc' as [_ Hc']. simpl in Hc'.
    by apply bool_decide_eq_false in Hc'.
  - left. unfold Mongo.findByIdAndDelete. by rewrite lookup_delete_ne.
Qed.

Lemma toggled_NoDup (me : N) (l : list N) : NoDup l → NoDup (toggled me l).
Proof.
  intros Hl. unfold toggled. destruct (Mongo.includes me l) eqn:Hin.
  - by apply NoDup_filter.
  - apply includes_false in Hin. unfold Mongo.push. apply NoDup_app.
    split_and!; [done| |apply NoDup_singleton].
    intros x Hx Hme. apply list_elem_of_singleton in Hme. by subst.
Qed.

Lemma toggled_length (me : N) (l : list N) :
  NoDup l →
  Z.of_nat (length (toggled me l))
  = if Mongo.includes me l then Z.of_nat (length l) - 1 else Z.of_nat (length l) + 1.
Proof.
  intros Hl. unfold toggled. destruct (Mongo.includes me l) eqn:Hin.
  - apply includes_true in Hin. unfold Mongo.pull.
    induction Hl as [|x l Hx Hl IH]; [by apply elem_of_nil in Hin|].
    destruct (decide (x = me)) as [->|Hne].
    + rewrite filter_cons_False by (intros Hne; by apply Hne).
      change (filter (λ y, y ≠ me) l) with (Mongo.pull me l).
      rewrite pull_absent by done. simpl. lia.
    + rewrite filter_cons_True by done. apply elem_of_cons in Hin as [->|Hin]; [done|].
      specialize (IH Hin). simpl length. lia.
  - unfold Mongo.push. rewrite length_app. simpl. lia.
Qed.

(** X10.  Whatever fetches, likes, comment creations, updates and deletions
    and post deletions are served, on either comment route, every stored
    comment keeps belonging to a post that exists: deleting a post takes its
    comments along, and a comment is only created on an existing post. *)
Theorem comments_keep_their_posts (ms : list mutation) (db : DB) :
  comments_have_posts db →
  ∀ i c, comments (perform_all ms db) !! i = Some c →
         is_Some (posts (perform_all ms db) !! Comment.post c).
Proof.
  intros Hinv. assert (comments_have_posts (perform_all ms db)) as Hafter; [|done].
  revert db Hinv. induction ms as [|m ms IH]; intros db Hinv; [done|].
  simpl. apply IH.
  destruct (perform_cases m db) as [_ [-> | Hstep]]; [done|].
  intros i c' Hc'.
  assert (is_Some (posts db !! Comment.post c')) as Hpost.
  { destruct (step_comments _ _ _ Hstep i c' Hc') as [(c & Hc & _ & -> & _)|(_ & _ & ?)];
      [|done]. by apply (Hinv i c). }
  destruct (step_posts_kept _ _ _ Hstep _ Hpost) as [?|(_ & _ & Hgone)]; [done|].
  by destruct (Hgone i c' Hc').
Qed.

(** X11.  No request ever puts an identifier twice into a likes array: if no
    post and no comment has a duplicate like, none has after any sequence of
    requests; and then a like request on a post moves its [likeCount] by
    exactly one, down when the caller had liked it and up otherwise. *)
Theorem likes_stay_unique (ms : list mutation) (db : DB) :
  likes_unique db →
  likes_unique (perform_all ms db)
  ∧ ∀ me postId p, posts (perform_all ms db) !! postId = Some p →
      ∃ p', posts (Posts.like me postId (perform_all ms db)).1 !! postId = Some p'
        ∧ Z.of_nat (Post.likeCount p')
          = if Mongo.includes me (Post.likes p)
            then Z.of_nat (Post.likeCount p) - 1 else Z.of_nat (Post.likeCount p) + 1.
Proof.
  intros Hinv. assert (likes_unique (perform_all ms db)) as Hafter.
  { revert db Hinv. induction ms as [|m ms IH]; intros db Hinv; [done|].
    simpl. apply IH.
    destruct (perform_cases m db) as [_ [-> | Hstep]]; [done|].
    destruct Hinv as [Hposts Hcomments]. split.
    - intros k p' Hp'.
      destruct (step_posts _ _ _ Hstep k p' Hp') as (p & Hp & _ & Hlikes & _).
      destruct Hlikes as [-> | (me & _ & ->)].
      + by apply (Hposts k p).
      + apply toggled_NoDup. by apply (Hposts k p).
    - intros i c' Hc'.
      destruct (step_comments _ _ _ Hstep i c' Hc')
        as [(c & Hc & _ & _ & _ & _ & Hlikes & _)|(_ & -> & _)]; [|constructor].
      destruct Hlikes as [-> | (me & _ & ->)].
      + by apply (Hcomments i c).
      + apply toggled_NoDup. by apply (Hcomments i c). }
  split; [done|]. intros me postId p Hp.
  destruct (posts_like_found me postId p _ Hp) as (Hp' & _ & _).
  eexists. split; [exact Hp'|]. unfold Post.likeCount. simpl.
  apply toggled_length. by apply (proj1 Hafter postId p).
Qed.

(** X12.  Who can change a comment: across any single request, a comment that
    is still stored keeps its author, post, parent and creation time, and its
    content differs only if the request was [PUT /comments/:commentId] for
    that comment sent by its author, with that content. *)
Theorem comment_fields_protected (m : mutation) (db : DB) (i : N) (c c' : Comment.t) :
  comments db !! i = Some c → comments (perform m db) !! i = Some c' →
  Comment.author c' = Comment.author c ∧ Comment.post c' = Comment.post c
  ∧ Comment.parentComment c' = Comment.parentComment c
  ∧ Comment.createdAt c' = Comment.createdAt c
  ∧ (Comment.content c' ≠ Comment.content c →
       m = UpdateComment (Comment.author c) i (Comment.content c')).
Proof.
  intros Hc Hc'.
  destruct (perform_cases m db) as [_ [Hsame | Hstep]].
  - rewrite Hsame in Hc'. assert (c' = c) as -> by congruence. by split_and!.
  - destruct (step_comments _ _ _ Hstep i c' Hc')
      as [(c0 & Hc0 & ? & ? & ? & ? & _ & Hcontent)|(Hnone & _)]; [|congruence].
    assert (c0 = c) as -> by congruence. split_and!; try done.
    intros Hdiff. by destruct Hcontent.
Qed.

(** ** Deleting a post *)

(** X13.  [DELETE /posts/:postId]: anyone but the author is answered 403 and
    changes nothing; for the author the post is gone afterwards, every
    comment on it is deleted and no other comment is, every other post and
    every user are untouched, and asking again is answered 404. *)
Theorem delete_post_cascades (db : DB) (me postId : N) (p : Post.t) :
  posts db !! postId = Some p →
  (Post.author p ≠ me →
     Posts.delete_post me postId db
     = (db, mkReply 403 "Not authorized to delete this post"))
  ∧ (Post.author p = me →
     let db' := (Posts.delete_post me postId db).1 in
     (Posts.delete_post me postId db).2 = mkReply 200 "Post deleted successfully"
     ∧ posts db' !! postId = None
     ∧ (∀ k, k ≠ postId → posts db' !! k = posts db !! k)
     ∧ (∀ i c, comments db' !! i = Some c
               ↔ comments db !! i = Some c ∧ Comment.post c ≠ postId)
     ∧ users db' = users db
     ∧ Posts.delete_post me postId db' = (db', mkReply 404 "Post not found")).
Proof.
  intros Hp. unfold Posts.delete_post. rewrite Hp. split.
  - intros Hother. by rewrite decide_True.
  - intros Hme. rewrite decide_False by (intros Hne; by apply Hne). cbn [fst snd].
    unfold Mongo.findByIdAndDelete, Mongo.deleteMany. simpl. split_and!.
    + done.
    + apply lookup_delete_eq.
    + intros k Hk. by apply lookup_delete_ne.
    + intros i c. rewrite map_lookup_filter_Some. simpl.
      by rewrite bool_decide_eq_false.
    + done.
    + by rewrite lookup_delete_eq.
Qed.

Lemma delete_post_cascades_witness :
  posts sample !! 10%N = Some public_note
  ∧ comments (Posts.delete_post 1 10 sample).1 = ∅
  ∧ Posts.delete_post 2 10 sample
    = (sample, mkReply 403 "Not authorized to delete this post").
Proof.
  split; [reflexivity|].
  destruct (delete_post_cascades sample 1 10 public_note eq_refl) as [_ Hmine].
  destruct (delete_post_cascades sample 2 10 public_note eq_refl) as [Hother _].
  split.
  - destruct (Hmine eq_refl) as (_ & _ & _ & Hcomments & _).
    apply map_eq. intros i. rewrite lookup_empty.
    destruct (comments (Posts.delete_post 1 10 sample).1 !! i) as [c|] eqn:Hc; [|done].
    apply Hcomments in Hc as [Hc Hpost]. exfalso.
    apply elem_of_map_to_list in Hc.
    set (l := map_to_list (comments sample)) in Hc. vm_compute in l. subst l.
    rewrite !elem_of_cons, elem_of_nil in Hc.
    destruct Hc as [[= -> ->]|[[= -> ->]|[]]]; by apply Hpost.
  - apply Hother. done.
Defined.

(** ** Created comments and the listings *)

Lemma countDocuments_insert {A} (cond : A → bool) (coll : gmap N A) (i : N) (x : A) :
  coll !! i = None →
  Mongo.countDocuments cond (<[i := x]> coll)
  = Mongo.countDocuments cond coll + (if cond x then 1 else 0).
Proof.
  intros Hi. unfold Mongo.countDocuments. rewrite map_to_list_insert by done.
  destruct (cond x) eqn:Hx.
  - rewrite filter_cons_True by done. simpl length. lia.
  - rewrite filter_cons_False by (simpl; congruence). lia.
Qed.

(** In a well-paginated listing every matching document is on some page. *)
Lemma well_paginated_finds {A} (limit : Z) (fetch : Z → nat * option (listing A))
    (coll : gmap N A) (cond : A → bool) (i : N) (d : A) :
  well_paginated limit fetch coll cond → coll !! i = Some d → cond d = true →
  ∃ page l, 1 ≤ page ∧ fetch page = (200%nat, Some l) ∧ (i, d) ∈ items l.
Proof.
  intros (total & pages & Hfetch & _ & _ & _ & Hall) Hd Hcond.
  assert ((i, d) ∈ all_pages fetch pages) as Hin by (by apply Hall).
  unfold all_pages in Hin.
  apply list_elem_of_In, in_concat in Hin as (docs & Hdocs & Hin).
  apply list_elem_of_In in Hdocs, Hin.
  apply list_elem_of_fmap in Hdocs as (page & -> & Hpage).
  apply elem_of_seqZ in Hpage.
  destruct (Hfetch page ltac:(lia)) as [docs Hpg].
  exists page, (mkListing docs (mkPagination page limit total pages)).
  split; [lia|]. split; [done|]. by rewrite Hpg in Hin.
Qed.

(** X14.  A comment whose creation was answered 201 is stored as sent, with
    no likes and no replies, and the listings show it: a top-level comment is
    on some page of the post's comments, whose total grows by one; a reply is
    on some page of its parent's replies and on no page of the post's
    top-level comments. *)
Theorem created_comment_is_listed (db db' : DB) (r : reply) (me newId : N) (now : N)
    (content : string) (postId : N) (parent : option N) (raw_limit : option Z) :
  Comments.create me newId now content postId parent db = (db', r) →
  status r = 201%nat → 0 < int_param raw_limit 10 →
  let c := Comment.mk me postId parent content [] [] now in
  comments db' !! newId = Some c
  ∧ match parent with
    | None =>
      (∃ page l, 1 ≤ page
         ∧ Comments.list_by_post postId (Some page) raw_limit db' = (200%nat, Some l)
         ∧ (newId, c) ∈ items l)
      ∧ Mongo.countDocuments (Posts.top_level_of postId) (comments db')
        = Mongo.countDocuments (Posts.top_level_of postId) (comments db) + 1
    | Some par =>
      (∃ page l, 1 ≤ page
         ∧ Comments.list_replies par (Some page) raw_limit db' = (200%nat, Some l)
         ∧ (newId, c) ∈ items l)
      ∧ (∀ raw_page st l d,
           Comments.list_by_post postId raw_page raw_limit db' = (st, Some l) →
           (newId, d) ∉ items l)
    end.
Proof.
  intros Hcreate Hstatus Hlimit c.
  destruct (comments_create_cases me newId now content postId parent db)
    as [[_ Hfailed]|(Hok & _ & _ & _ & Hnew & Hparent)].
  { rewrite Hcreate in Hfailed. by destruct Hfailed. }
  rewrite Hcreate in Hok. injection Hok as -> _.
  assert (comments (created me newId now content postId parent db) !! newId = Some c)
    as Hstored.
  { unfold created. simpl. destruct parent as [par|].
    - destruct Hparent as [pc Hpc]. unfold Mongo.findByIdAndUpdate.
      rewrite lookup_alter_ne by congruence. apply lookup_insert_eq.
    - apply lookup_insert_eq. }
  split; [done|]. destruct parent as [par|].
  - split.
    + apply (well_paginated_finds _ _ _ _ newId c
               (list_replies_well _ raw_limit Hlimit par)); [done|].
      unfold Posts.reply_to. by apply bool_decide_eq_true.
    + intros raw_page st l d Hlist Hin. unfold Comments.list_by_post in Hlist.
      apply (elem_of_page _ _ _ _ _ _ _ Hlist) in Hin.
      apply elem_of_find_desc in Hin as [Hd Htop].
      assert (d = c) as -> by congruence.
      unfold Posts.top_level_of in Htop. apply andb_true_iff in Htop as [_ Htop].
      by apply bool_decide_eq_true in Htop.
  - split.
    + apply (well_paginated_finds _ _ _ _ newId c
               (list_by_post_well _ raw_limit Hlimit postId)); [done|].
      unfold Posts.top_level_of. apply andb_true_iff.
      split; by apply bool_decide_eq_true.
    + unfold created. simpl. rewrite countDocuments_insert by done.
      fold c. assert (Posts.top_level_of postId c = true) as ->; [|done].
      unfold Posts.top_level_of. apply andb_true_iff.
      split; by apply bool_decide_eq_true.
Qed.

Lemma created_comment_is_listed_witness :
  status (Comments.create 3 30 40 "thanks" 10 None sample).2 = 201%nat
  ∧ 0 < int_param None 10
  ∧ Mongo.countDocuments (Posts.top_level_of 10)
      (comments (Comments.create 3 30 40 "thanks" 10 None sample).1) = 2.
Proof.
  split; [reflexivity|]. split; [reflexivity|].
  destruct (created_comment_is_listed sample _ _ 3 30 40 "thanks" 10 None None
              (surjective_pairing _) eq_refl eq_refl) as (_ & _ & Hcount).
  rewrite Hcount. reflexivity.
Defined.

(** ** Liked posts *)

(** X15.  Liking and the liked listing agree: after a like request on a
    public post by someone who had not liked it, the post is on some page of
    that user's [GET /posts/liked]; after a like request by someone who had,
    it is on none. *)
Theorem liked_listing_follows_like (db : DB) (me postId : N) (p : Post.t)
    (raw_limit : option Z) :
  posts db !! postId = Some p → Post.isPublic p = true →
  0 < int_param raw_limit 10 →
  let db' := (Posts.like me postId db).1 in
  (me ∉ Post.likes p →
     ∃ page l p', 1 ≤ page
       ∧ Posts.liked_posts me (Some page) raw_limit db' = (200%nat, Some l)
       ∧ (postId, p') ∈ items l)
  ∧ (me ∈ Post.likes p →
     ∀ raw_page st l p',
       Posts.liked_posts me raw_page raw_limit db' = (st, Some l) →
       (postId, p') ∉ items l).
Proof.
  intros Hp Hpublic Hlimit db'. subst db'.
  destruct (posts_like_found me postId p db Hp) as (Hp' & _ & _). split.
  - intros Hout.
    assert (Posts.liked_query me (Post.with_likes (toggled me) p) = true) as Hliked.
    { unfold Posts.liked_query. simpl. rewrite Hpublic, andb_true_r.
      apply includes_true. unfold toggled.
      apply includes_false in Hout. rewrite Hout. apply elem_of_push. by right. }
    destruct (well_paginated_finds _ _ _ _ postId _
                (liked_posts_well _ raw_limit Hlimit me) Hp' Hliked)
      as (page & l & ? & ? & ?).
    exists page, l, (Post.with_likes (toggled me) p). by split_and!.
  - intros Hin raw_page st l p' Hlist Hitem. unfold Posts.liked_posts in Hlist.
    apply (elem_of_page _ _ _ _ _ _ _ Hlist) in Hitem.
    apply elem_of_find_desc in Hitem as [Hlookup Hliked].
    assert (p' = Post.with_likes (toggled me) p) as -> by congruence.
    unfold Posts.liked_query in Hliked. apply andb_true_iff in Hliked as [Hliked _].
    apply includes_true in Hliked. simpl in Hliked. unfold toggled in Hliked.
    apply includes_true in Hin. rewrite Hin in Hliked.
    apply elem_of_pull in Hliked. by destruct Hliked as [Hne _].
Qed.

Lemma liked_listing_follows_like_witness :
  posts sample !! 10%N = Some public_note ∧ Post.isPublic public_note = true
  ∧ 0 < int_param None 10
  ∧ (λ l, (items l).*1) <$> (Posts.liked_posts 2 None None sample).2 = Some [10%N]
  ∧ ∀ p', (10%N, p') ∉
       default [] (items <$> (Posts.liked_posts 2 None None (Posts.like 2 10 sample).1).2).
Proof.
  split; [reflexivity|]. split; [reflexivity|]. split; [reflexivity|].
  split; [vm_compute; reflexivity|].
  destruct (liked_listing_follows_like sample 2 10 public_note None eq_refl eq_refl eq_refl)
    as [_ Hgone].
  intros p'.
  destruct (Posts.liked_posts 2 None None (Posts.like 2 10 sample).1) as [st [l|]] eqn:Hl.
  - simpl. apply (Hgone ltac:(apply (bool_decide_unpack _); vm_compute; exact I)
                   None st l p' Hl).
  - simpl. apply not_elem_of_nil.
Defined.

(** ** The size of a page *)

(** X16.  With a positive page size and a path that names a user, page [p]
    of that user's posts holds the documents left after the [(p - 1) * limit]
    before it, up to [limit] of them: every page before the last is full and
    every page after the last is empty. *)
Theorem page_sizes (db : DB) (caller : option N) (userId : string) (author : N)
    (type : string) (raw_limit : option Z) (p : Z) :
  0 < int_param raw_limit 10 → 1 ≤ p → ObjectId.cast userId = Some author →
  ∃ l, Posts.user_posts caller userId (Some p) raw_limit type db = (200%nat, Some l)
    ∧ page (l_pagination l) = p
    ∧ limit (l_pagination l) = int_param raw_limit 10
    ∧ Z.of_nat (length (items l))
      = Z.max 0 (Z.min (limit (l_pagination l))
                   (total (l_pagination l) - (p - 1) * limit (l_pagination l)))
    ∧ (p < pages (l_pagination l) →
         Z.of_nat (length (items l)) = limit (l_pagination l))
    ∧ (pages (l_pagination l) < p → items l = []).
Proof.
  intros Hlimit Hp Hcast. unfold Posts.user_posts. rewrite Hcast, int_param_page by done.
  set (query := Posts.user_posts_query caller userId author type).
  set (matched := Mongo.find_desc Post.createdAt query (posts db)).
  assert (Mongo.countDocuments query (posts db) = Z.of_nat (length matched)) as ->.
  { unfold Mongo.countDocuments, matched. by rewrite find_desc_perm. }
  rewrite paginate_page by done. eexists. split; [done|]. cbn.
  pose proof (ceil_div_bounds (Z.of_nat (length matched)) (int_param raw_limit 10) Hlimit)
    as Hceil.
  split_and!; [done|done| | |].
  - rewrite length_take, length_drop. nia.
  - intros Hbefore. rewrite length_take, length_drop. nia.
  - intros Hafter. apply length_zero_iff_nil. rewrite length_take, length_drop. nia.
Qed.

Lemma page_sizes_witness :
  0 < int_param (Some 1) 10 ∧ 1 ≤ 3
  ∧ ObjectId.cast "000000000000000000000001" = Some 1%N
  ∧ (Posts.user_posts (Some 1%N) "000000000000000000000001" (Some 3) (Some 1) "" sample).2
    = Some (mkListing [] (mkPagination 3 1 2 2)).
Proof.
  split; [reflexivity|]. split; [lia|]. split; [reflexivity|].
  destruct (page_sizes sample (Some 1%N) "000000000000000000000001" 1 "" (Some 1) 3
              eq_refl ltac:(lia) eq_refl)
    as (l & Hl & _). rewrite Hl. vm_compute in Hl. by injection Hl as <-.
Defined.

(** ** Exploring posts *)

(** X17.  [GET /posts/explore] with a limit shows what the first page of
    [GET /posts] shows for the same type and search, no category and no
    author, and that limit: public posts only, newest first. *)
Theorem explore_is_first_page (regex : string → option (string → bool)) (db : DB)
    (caller : option N) (n : Z) (type search : string) :
  n ≠ 0 →
  (Posts.explore regex caller (Some n) type search db).1
  = (Posts.list_posts regex caller
       (Posts.mkPostsQuery (Some 1) (Some n) type "" search None) db).1
  ∧ (Posts.explore regex caller (Some n) type search db).2
    = items <$> (Posts.list_posts regex caller
                   (Posts.mkPostsQuery (Some 1) (Some n) type "" search None) db).2
  ∧ ∀ docs i p, (Posts.explore regex caller (Some n) type search db).2 = Some docs →
      (i, p) ∈ docs → posts db !! i = Some p ∧ Post.isPublic p = true.
Proof.
  intros Hn.
  assert (∀ query, Posts.explore_query regex type search = Some query →
            ∃ query', Posts.list_query regex
                        (Posts.mkPostsQuery (Some 1) (Some n) type "" search None)
                      = Some query'
                      ∧ ∀ p, query' p = query p) as Hsome.
  { unfold Posts.explore_query, Posts.list_query. simpl. intros query Hquery.
    destruct (if decide (search = "") then _ else _) as [s|]; [|done].
    simpl in *. injection Hquery as <-. eexists. split; [done|].
    intros p. simpl. by rewrite !andb_true_r. }
  assert (Posts.explore_query regex type search = None →
          Posts.list_query regex (Posts.mkPostsQuery (Some 1) (Some n) type "" search None)
          = None) as Hnone.
  { unfold Posts.explore_query, Posts.list_query. simpl.
    by destruct (if decide (search = "") then _ else _). }
  unfold Posts.explore, Posts.list_posts.
  destruct (Posts.explore_query regex type search) as [query|] eqn:Hquery.
  - destruct (Hsome query eq_refl) as (query' & -> & Hext).
    assert (Mongo.find_desc Post.createdAt query' (posts db)
            = Mongo.find_desc Post.createdAt query (posts db)) as Hfind.
    { unfold Mongo.find_desc. f_equal. apply list_filter_iff. intros [i p]. simpl.
      by rewrite Hext. }
    cbn [Posts.q_page Posts.q_limit]. rewrite Hfind.
    unfold int_param. rewrite !decide_False by done.
    unfold paginate, Mongo.skip_limit. rewrite decide_False by lia.
    replace ((1 - 1) * n) with 0 by lia. simpl. split_and!; [done|done|].
    intros docs i p [= <-] Hin. apply (subseteq_take _ _ _) in Hin.
    apply elem_of_find_desc in Hin as [Hp Hq]. split; [done|].
    unfold Posts.explore_query in Hquery.
    destruct (if decide (search = "") then _ else _) as [s|]; [|done].
    simpl in Hquery. injection Hquery as <-.
    apply andb_true_iff in Hq as [Hq _]. by apply andb_true_iff in Hq as [Hq _].
  - rewrite (Hnone eq_refl). by split_and!.
Qed.

(** ** The like button *)

Lemma like_status (me postId : N) (db : DB) :
  Client.ok (Posts.l_status (Posts.like me postId db).2)
  = bool_decide (is_Some (posts db !! postId)).
Proof.
  unfold Posts.like. destruct (posts db !! postId) as [p|]; [|done].
  by destruct (Mongo.includes me (Post.likes p)).
Qed.

(** X18.  The like buttons track the server.  If a post's likes hold no
    identifier twice and the page shows the right state before the click
    (the flag says whether the user's identifier is among the likes, the
    counter is their number, the list is the stored list), it shows the right
    state after the like request is answered: for the card in a feed, the
    flag and the counter; for the post page, the flag and the list. *)
Theorem like_buttons_track_server (db : DB) (me postId : N) (p : Post.t) :
  posts db !! postId = Some p → NoDup (Post.likes p) →
  ∃ p', posts (Posts.like me postId db).1 !! postId = Some p'
    ∧ Client.card_handleLike (Some me) (Posts.l_status (Posts.like me postId db).2)
        (Client.mkCard (Mongo.includes me (Post.likes p)) (Z.of_nat (Post.likeCount p)))
      = Client.mkCard (Mongo.includes me (Post.likes p')) (Z.of_nat (Post.likeCount p'))
    ∧ Client.detail_handleLike (Some me) (Posts.l_status (Posts.like me postId db).2)
        (Client.mkDetail (Mongo.includes me (Post.likes p)) (Post.likes p))
      = Client.mkDetail (Mongo.includes me (Post.likes p')) (Post.likes p').
Proof.
  intros Hp Hnodup.
  destruct (posts_like_found me postId p db Hp) as (Hp' & _ & _).
  eexists. split; [exact Hp'|].
  unfold Client.card_handleLike, Client.detail_handleLike.
  rewrite like_status, Hp, bool_decide_eq_true_2 by done. simpl.
  unfold Post.likeCount. simpl. rewrite toggled_length by done.
  unfold toggled.
  destruct (Mongo.includes me (Post.likes p)) eqn:Hin; simpl.
  - assert (Mongo.includes me (Mongo.pull me (Post.likes p)) = false) as ->.
    { apply includes_false. rewrite elem_of_pull. tauto. }
    done.
  - assert (Mongo.includes me (Mongo.push me (Post.likes p)) = true) as ->.
    { apply includes_true. rewrite elem_of_push. by right. }
    done.
Qed.

Lemma like_buttons_track_server_witness :
  posts sample !! 10%N = Some public_note ∧ NoDup (Post.likes public_note)
  ∧ Client.card_handleLike (Some 2%N) (Posts.l_status (Posts.like 2 10 sample).2)
      (Client.mkCard true 1)
    = Client.mkCard false 0.
Proof.
  split; [reflexivity|].
  assert (NoDup (Post.likes public_note)) as Hnodup
    by (apply (bool_decide_unpack _); vm_compute; exact I).
  split; [done|].
  destruct (like_buttons_track_server sample 2 10 public_note eq_refl Hnodup)
    as (p' & Hp' & Hcard & _).
  vm_compute in Hp'. injection Hp' as <-. exact Hcard.
Defined.

(** ** Parsed tags *)

Section TagProofs.
Local Open Scope list_scope.
Context {char : Type} `{EqDecision char}.
Variable comma : char.
Variable is_space : char → bool.

Abbreviation split := (Tags.split comma).
Abbreviation trim_start := (Tags.trim_start is_space).
Abbreviation trim := (Tags.trim is_space).
Abbreviation parsedTags := (Tags.parsedTags comma is_space).
Abbreviation join := (Tags.join comma).
Abbreviation clean := (Tags.clean comma is_space).

Lemma split_no_comma (s piece : list char) : piece ∈ split s → comma ∉ piece.
Proof.
  revert piece. induction s as [|c s IH]; intros piece Hin; simpl in Hin.
  - apply list_elem_of_singleton in Hin as ->. apply not_elem_of_nil.
  - case_decide as Hc.
    + apply elem_of_cons in Hin as [->|Hin]; [apply not_elem_of_nil|by apply IH].
    + destruct (split s) as [|first rest] eqn:Hsplit.
      * apply list_elem_of_singleton in Hin as ->.
        apply not_elem_of_cons. split; [done|apply not_elem_of_nil].
      * apply elem_of_cons in Hin as [->|Hin].
        -- apply not_elem_of_cons. split; [done|]. apply IH. apply list_elem_of_here.
        -- apply IH. by apply list_elem_of_further.
Qed.

Lemma split_piece (piece rest : list char) :
  comma ∉ piece → split (piece ++ comma :: rest) = piece :: split rest.
Proof.
  induction piece as [|c piece IH]; intros Hno; simpl.
  - by rewrite decide_True.
  - apply not_elem_of_cons in Hno as [Hc Hno].
    rewrite decide_False by done. by rewrite IH.
Qed.

Lemma split_last_piece (piece : list char) : comma ∉ piece → split piece = [piece].
Proof.
  induction piece as [|c piece IH]; intros Hno; simpl; [done|].
  apply not_elem_of_cons in Hno as [Hc Hno].
  rewrite decide_False by done. by rewrite IH.
Qed.

Lemma split_join (pieces : list (list char)) :
  pieces ≠ [] → Forall (λ piece, comma ∉ piece) pieces → split (join pieces) = pieces.
Proof.
  induction pieces as [|piece rest IH]; intros Hne Hno; [done|].
  apply Forall_cons in Hno as [Hpiece Hrest].
  destruct rest as [|next rest].
  - simpl. by apply split_last_piece.
  - change (join (piece :: next :: rest)) with (piece ++ comma :: join (next :: rest)).
    rewrite split_piece by done. f_equal. by apply IH.
Qed.

(** [trim_start] drops a prefix of spaces and stops at the first other code
    unit. *)
Lemma trim_start_spec (s : list char) :
  ∃ spaces, s = spaces ++ trim_start s
    ∧ Forall (λ c, is_space c = true) spaces
    ∧ ∀ c, head (trim_start s) = Some c → is_space c = false.
Proof.
  induction s as [|c s (spaces & Hs & Hspaces & Hhead)]; simpl.
  - exists []. split_and!; [done|constructor|done].
  - destruct (is_space c) eqn:Hc.
    + exists (c :: spaces). split_and!; [by rewrite <- app_comm_cons, <- Hs| |done].
      by constructor.
    + exists []. split_and!; [done|constructor|]. simpl. by intros ? [= <-].
Qed.

Lemma trim_start_id (s : list char) :
  (∀ c, head s = Some c → is_space c = false) → trim_start s = s.
Proof. destruct s as [|c s]; [done|]. simpl. intros Hc. by rewrite Hc. Qed.

Lemma last_reverse (s : list char) : last (reverse s) = head s.
Proof. destruct s as [|c s]; [done|]. by rewrite reverse_cons, last_snoc. Qed.

Lemma head_reverse (s : list char) : head (reverse s) = last s.
Proof. by rewrite <- last_reverse, reverse_involutive. Qed.

Lemma trim_spec (s : list char) :
  (∃ before after, s = before ++ trim s ++ after)
  ∧ (∀ c, head (trim s) = Some c → is_space c = false)
  ∧ (∀ c, last (trim s) = Some c → is_space c = false).
Proof.
  unfold Tags.trim.
  destruct (trim_start_spec s) as (before & Hs & _ & Hhead).
  destruct (trim_start_spec (reverse (trim_start s))) as (after & Hr & _ & Hlast).
  set (t := trim_start (reverse (trim_start s))) in *.
  assert (trim_start s = reverse t ++ reverse after) as Hmid.
  { rewrite <- reverse_app, <- Hr. by rewrite reverse_involutive. }
  split_and!.
  - exists before, (reverse after). by rewrite <- Hmid.
  - intros c Hc. apply Hhead. rewrite Hmid.
    destruct (reverse t) as [|c' t']; [done|]. done.
  - intros c Hc. apply Hlast. by rewrite <- head_reverse, reverse_involutive in Hc.
Qed.

Lemma trim_id (tag : list char) :
  (∀ c, head tag = Some c → is_space c = false) →
  (∀ c, last tag = Some c → is_space c = false) →
  trim tag = tag.
Proof.
  intros Hhead Hlast. unfold Tags.trim. rewrite (trim_start_id tag) by done.
  rewrite trim_start_id; [apply reverse_involutive|].
  intros c. rewrite head_reverse. apply Hlast.
Qed.

(** X19.  Every parsed tag is clean: not empty, without a comma, and with no
    space at either end; and a body without [tags], or with the empty
    string, gives no tags. *)
Theorem parsed_tags_are_clean (tags : option (list char)) :
  Forall clean (parsedTags tags)
  ∧ parsedTags None = [] ∧ parsedTags (Some []) = [].
Proof.
  split; [|done]. destruct tags as [s|]; [|constructor]. simpl.
  case_decide; [constructor|].
  apply Forall_forall. intros tag Htag.
  apply list_elem_of_filter in Htag as [Hne Htag].
  apply list_elem_of_fmap in Htag as (piece & -> & Hpiece).
  destruct (trim_spec piece) as ((before & after & Hpieces) & Hhead & Hlast).
  split_and!; [done| |done|done].
  intros Hcomma. apply (split_no_comma s piece Hpiece).
  rewrite Hpieces. apply elem_of_app. right. apply elem_of_app. by left.
Qed.

Lemma clean_tags_stay (tags : list (list char)) :
  Forall clean tags → filter (λ tag, tag ≠ []) (trim <$> tags) = tags.
Proof.
  induction 1 as [|t ts (Ht & _ & Hhead & Hlast) Hts IH]; [done|].
  rewrite fmap_cons, trim_id by done. rewrite filter_cons_True by done.
  by f_equal.
Qed.

(** X20.  Parsing is a left inverse of joining: clean tags, written one after
    the other with commas between them, parse back to the very same tags, in
    the same order. *)
Theorem parsed_tags_round_trip (tags : list (list char)) :
  Forall clean tags → parsedTags (Some (join tags)) = tags.
Proof.
  intros Hclean. simpl.
  destruct tags as [|tag rest]; [by rewrite decide_True|].
  assert (join (tag :: rest) ≠ []) as Hne.
  { apply Forall_cons in Hclean as [(Htag & _) _].
    destruct rest; simpl; [done|]. by destruct tag. }
  rewrite decide_False by done.
  rewrite split_join; [by apply clean_tags_stay|done|].
  eapply Forall_impl; [exact Hclean|]. by intros t (_ & ? & _).
Qed.

End TagProofs.

Lemma parsed_tags_round_trip_witness :
  Forall (Tags.clean ","%char (λ c, bool_decide (c = " "%char)))
    [String.list_ascii_of_string "linear algebra"; String.list_ascii_of_string "exam"]
  ∧ Tags.parsedTags ","%char (λ c, bool_decide (c = " "%char))
      (Some (String.list_ascii_of_string "linear algebra,exam"))
    = [String.list_ascii_of_string "linear algebra"; String.list_ascii_of_string "exam"].
Proof.
  assert (Forall (Tags.clean ","%char (λ c, bool_decide (c = " "%char)))
            [String.list_ascii_of_string "linear algebra";
             String.list_ascii_of_string "exam"]) as Hclean.
  { repeat constructor; simpl; try done; try (by intros ? [= <-]).
    all: intros Hin; apply (bool_decide_pack _) in Hin; vm_compute in Hin; done. }
  split; [exact Hclean|].
  apply (parsed_tags_round_trip ","%char (λ c, bool_decide (c = " "%char))
           [String.list_ascii_of_string "linear algebra";
            String.list_ascii_of_string "exam"] Hclean).
Defined.

(** A body as typed into the form: spaces around the tags, an empty piece. *)
Example parsed_tags_of_a_form :
  Tags.parsedTags ","%char (λ c, bool_decide (c = " "%char))
    (Some (String.list_ascii_of_string " math,, linear algebra , "))
  = [String.list_ascii_of_string "math"; String.list_ascii_of_string "linear algebra"].
Proof. vm_compute. reflexivity. Qed.

(** ** The invariants on the small store *)

Lemma comments_keep_their_posts_witness :
  comments_have_posts sample
  ∧ is_Some (posts (perform_all [CreateComment 3 30 40 "thanks" 10 None;
                                 DeletePost 1 11; LikeComment 1 30] sample) !! 10%N).
Proof.
  assert (comments_have_posts sample) as Hinv
    by (apply (bool_decide_unpack _); vm_compute; exact I).
  split; [exact Hinv|].
  apply (comments_keep_their_posts
           [CreateComment 3 30 40 "thanks" 10 None; DeletePost 1 11; LikeComment 1 30]
           sample Hinv 30 (Comment.mk 3 10 None "thanks" [] [1%N] 40)).
  vm_compute. reflexivity.
Defined.

Lemma likes_stay_unique_witness :
  likes_unique sample
  ∧ likes_unique (perform_all [LikePost 3 10; LikePost 3 10; LikePost 1 10;
                               DeleteComment 2 20] sample).
Proof.
  assert (likes_unique sample) as Hinv
    by (apply (bool_decide_unpack _); vm_compute; exact I).
  split; [exact Hinv|].
  apply (likes_stay_unique [LikePost 3 10; LikePost 3 10; LikePost 1 10; DeleteComment 2 20]
           sample Hinv).
Defined.

Lemma comment_fields_protected_witness :
  comments sample !! 20%N = Some bobs_comment
  ∧ comments (perform (UpdateComment 1 20 "edited by alice") sample) !! 20%N
    = Some bobs_comment
  ∧ Comment.author bobs_comment = Comment.author bobs_comment.
Proof.
  split; [reflexivity|]. split; [reflexivity|].
  apply (comment_fields_protected (UpdateComment 1 20 "edited by alice") sample 20
           bobs_comment bobs_comment); reflexivity.
Defined.

Lemma explore_is_first_page_witness :
  2 ≠ 0
  ∧ (Posts.explore (λ _, None) None (Some 2) "note" "" sample).2
    = items <$> (Posts.list_posts (λ _, None) None
                   (Posts.mkPostsQuery (Some 1) (Some 2) "note" "" "" None) sample).2.
Proof.
  split; [done|].
  apply (explore_is_first_page (λ _, None) sample None 2 "note" ""). done.
Defined.
